(** * sip-go: parser, connection pool and client transaction

    A shallow embedding of the SIP stack's three core components
    (package [syntax]: the message parser; package [transport]: the
    connection pool and its handlers; package [transaction]: the client
    transaction and its state machines), with the properties of the
    specification stated and settled against it.

    Conventions of the embedding.
    - A Go [string] / [[]byte] is a Rocq [string]: a sequence of 8-bit
      [ascii] values, indexed bytewise as in Go.
    - A Go [int] is a [Z]; indices that Go reports as [-1] are [-1] here.
    - A Go function that returns [(v, err)] returns a value of [go A]:
      [Ok v], [Fail err], or [Panic p] when the Go runtime would abort
      (index or slice bound out of range).
    - Mutable objects are threaded explicitly (records passed and returned). *)

From Stdlib Require Import ZArith List String Ascii Bool Lia Sorted.
From stdpp Require Import base option gmap strings.
Import ListNotations.

Local Open Scope string_scope.
Local Open Scope Z_scope.

(* ===================================================================== *)
(** ** Go runtime: errors, panics, the result monad                      *)
(* ===================================================================== *)

Module Go.

(** Run-time panics raised by the Go runtime on string indexing. *)
Inductive panic : Type :=
| IndexOutOfRange (i len : Z)
| SliceOutOfRange (lo hi len : Z)
| InterfaceConversion
| NilDereference.

(** [strconv.NumError] kinds. *)
Inductive numerr : Type := ErrSyntax | ErrRange.

(** Go [error] values produced by the embedded packages.  [Errorf] keeps
    the format string of the [fmt.Errorf] call that built the error (with
    the double-quote characters of the format left out). *)
Inductive error : Type :=
| Errorf (fmt : string)
| NumError (k : numerr)
| InvalidStartLineError (cause : error)
| MalformedMessageError (cause : error)
| BrokenMessageError (cause : error)
| ParserWriteError (msg : string)
| ContextCanceled.

Inductive go (A : Type) : Type :=
| Ok (a : A)
| Fail (e : error)
| Panic (p : panic).
Arguments Ok {A} a.
Arguments Fail {A} e.
Arguments Panic {A} p.

Definition bind {A B} (m : go A) (k : A -> go B) : go B :=
  match m with
  | Ok a => k a
  | Fail e => Fail e
  | Panic p => Panic p
  end.

Definition is_ok {A} (m : go A) : bool :=
  match m with Ok _ => true | _ => false end.
Definition is_fail {A} (m : go A) : bool :=
  match m with Fail _ => true | _ => false end.
Definition is_panic {A} (m : go A) : bool :=
  match m with Panic _ => true | _ => false end.

End Go.
Export Go.

(** The result monad, with stdpp's notation [x ← m; k]. *)
#[global] Instance go_ret : MRet go := @Ok.
#[global] Instance go_bind : MBind go := fun A B k m => Go.bind m k.

(* ===================================================================== *)
(** ** Go strings: indexing, slicing, package [strings], [strconv]       *)
(* ===================================================================== *)

Module Str.

Definition byte := ascii.

Definition code (b : byte) : Z := Z.of_nat (nat_of_ascii b).
Definition chr (z : Z) : byte := ascii_of_nat (Z.to_nat z).

(** [len(s)] *)
Definition len (s : string) : Z := Z.of_nat (String.length s).

Fixpoint drop (n : nat) (s : string) : string :=
  match n, s with
  | O, _ => s
  | S n', String _ s' => drop n' s'
  | S _, EmptyString => EmptyString
  end.

Fixpoint take (n : nat) (s : string) : string :=
  match n, s with
  | O, _ => EmptyString
  | S n', String c s' => String c (take n' s')
  | S _, EmptyString => EmptyString
  end.

(** [s[i]]: panics unless [0 <= i < len(s)]. *)
Definition at_ (s : string) (i : Z) : go byte :=
  if (0 <=? i) && (i <? len s) then
    match String.get (Z.to_nat i) s with
    | Some c => Ok c
    | None => Panic (IndexOutOfRange i (len s))
    end
  else Panic (IndexOutOfRange i (len s)).

(** [s[lo:hi]]: panics unless [0 <= lo <= hi <= len(s)]. *)
Definition slice (s : string) (lo hi : Z) : go string :=
  if (0 <=? lo) && (lo <=? hi) && (hi <=? len s) then
    Ok (take (Z.to_nat (hi - lo)) (drop (Z.to_nat lo) s))
  else Panic (SliceOutOfRange lo hi (len s)).

(** [s[lo:]] *)
Definition slice_from (s : string) (lo : Z) : go string := slice s lo (len s).
(** [s[:hi]] *)
Definition slice_to (s : string) (hi : Z) : go string := slice s 0 hi.

Definition eqb_byte (a b : byte) : bool := Ascii.eqb a b.

(** [strings.HasPrefix(s, p)] *)
Fixpoint HasPrefix (s p : string) : bool :=
  match p, s with
  | EmptyString, _ => true
  | String a p', String b s' => eqb_byte a b && HasPrefix s' p'
  | String _ _, EmptyString => false
  end.

(** First byte offset at which [sub] occurs in [s]. *)
Fixpoint index_nat (s sub : string) : option nat :=
  if HasPrefix s sub then Some O
  else match s with
       | EmptyString => None
       | String _ s' => option_map S (index_nat s' sub)
       end.

(** [strings.Index(s, sub)]: offset of the first occurrence, or [-1]. *)
Definition Index (s sub : string) : Z :=
  match index_nat s sub with
  | Some n => Z.of_nat n
  | None => -1
  end.

(** [strings.Contains(s, sub)] *)
Definition Contains (s sub : string) : bool := 0 <=? Index s sub.

Fixpoint mem_byte (c : byte) (chars : string) : bool :=
  match chars with
  | EmptyString => false
  | String d r => eqb_byte c d || mem_byte c r
  end.

(** [strings.IndexAny(s, chars)] for an ASCII [chars]. *)
Fixpoint index_any_nat (s chars : string) : option nat :=
  match s with
  | EmptyString => None
  | String c s' =>
      if mem_byte c chars then Some O else option_map S (index_any_nat s' chars)
  end.

Definition IndexAny (s chars : string) : Z :=
  match index_any_nat s chars with
  | Some n => Z.of_nat n
  | None => -1
  end.

(** [strings.ContainsAny(s, chars)] for an ASCII [chars]. *)
Definition ContainsAny (s chars : string) : bool := 0 <=? IndexAny s chars.

(** [strings.TrimLeft(s, cutset)] for an ASCII [cutset]. *)
Fixpoint TrimLeft (s cutset : string) : string :=
  match s with
  | EmptyString => EmptyString
  | String c s' => if mem_byte c cutset then TrimLeft s' cutset else s
  end.

(** [strings.Count(s, sep)] for a one-byte [sep]. *)
Fixpoint Count (s : string) (sep : byte) : Z :=
  match s with
  | EmptyString => 0
  | String c s' => (if eqb_byte c sep then 1 else 0) + Count s' sep
  end.

(** [strings.Split(s, sep)] for a one-byte [sep] (every call site of the
    parser splits on a one-byte separator).  The result is never empty. *)
Fixpoint Split (s : string) (sep : byte) : list string :=
  match s with
  | EmptyString => [EmptyString]
  | String c s' =>
      if eqb_byte c sep then EmptyString :: Split s' sep
      else match Split s' sep with
           | [] => [String c EmptyString]
           | p :: ps => String c p :: ps
           end
  end.

(** [strings.Join(parts, sep)] *)
Fixpoint Join (parts : list string) (sep : string) : string :=
  match parts with
  | [] => EmptyString
  | [p] => p
  | p :: ps => (p ++ sep ++ Join ps sep)%string
  end.

(** Go's [string(b)] for a byte [b]: the UTF-8 encoding of the code point
    [U+00bb], one byte below 0x80 and two bytes from 0x80 on. *)
Definition of_byte (b : byte) : string :=
  let z := code b in
  if z <? 128 then String b EmptyString
  else String (chr (Z.lor 192 (Z.shiftr z 6)))
         (String (chr (Z.lor 128 (Z.land z 63))) EmptyString).

(** Byte patterns of the UTF-8 encodings of the code points for which
    [unicode.IsSpace] holds: U+0009..U+000D, U+0020, U+0085, U+00A0,
    U+1680, U+2000..U+200A, U+2028, U+2029, U+202F, U+205F, U+3000. *)
Definition space_runes : list string :=
  map (fun l => string_of_list_ascii (map chr l))
    [ [9]; [10]; [11]; [12]; [13]; [32];
      [194; 133]; [194; 160];
      [225; 154; 128];
      [226; 128; 128]; [226; 128; 129]; [226; 128; 130]; [226; 128; 131];
      [226; 128; 132]; [226; 128; 133]; [226; 128; 134]; [226; 128; 135];
      [226; 128; 136]; [226; 128; 137]; [226; 128; 138];
      [226; 128; 168]; [226; 128; 169]; [226; 128; 175];
      [226; 129; 159];
      [227; 128; 128] ].

(** Width in bytes of the white-space rune [s] starts with, if any. *)
Definition leading_space (s : string) : option nat :=
  match List.find (fun p => HasPrefix s p) space_runes with
  | Some p => Some (String.length p)
  | None => None
  end.

Fixpoint trim_left_space (fuel : nat) (s : string) : string :=
  match fuel with
  | O => s
  | S fuel' =>
      match leading_space s with
      | Some (S n) => trim_left_space fuel' (drop (S n) s)
      | _ => s
      end
  end.

Fixpoint rev_string (s : string) : string :=
  match s with
  | EmptyString => EmptyString
  | String c s' => (rev_string s' ++ String c EmptyString)%string
  end.

(** Width in bytes of the white-space rune [s] ends with, if any; [r] is
    [s] reversed. *)
Definition trailing_space (r : string) : option nat :=
  match List.find (fun p => HasPrefix r (rev_string p)) space_runes with
  | Some p => Some (String.length p)
  | None => None
  end.

Fixpoint trim_right_space (fuel : nat) (r : string) : string :=
  match fuel with
  | O => r
  | S fuel' =>
      match trailing_space r with
      | Some (S n) => trim_right_space fuel' (drop (S n) r)
      | _ => r
      end
  end.

(** [strings.TrimSpace(s)]: strips leading and trailing white-space runes
    (as [unicode.IsSpace] sees them through UTF-8 decoding). *)
Definition TrimSpace (s : string) : string :=
  let l := trim_left_space (String.length s) s in
  rev_string (trim_right_space (String.length l) (rev_string l)).

Definition is_upper (c : byte) : bool := (65 <=? code c) && (code c <=? 90).
Definition is_lower (c : byte) : bool := (97 <=? code c) && (code c <=? 122).

(** [strings.ToLower] / [strings.ToUpper] on the ASCII letters.  Go's
    functions also map non-ASCII letters through the Unicode case tables;
    the two agree on every string whose bytes are all below 0x80, and the
    parser only compares the results with ASCII literals. *)
Fixpoint ToLower (s : string) : string :=
  match s with
  | EmptyString => EmptyString
  | String c s' =>
      String (if is_upper c then chr (code c + 32) else c) (ToLower s')
  end.

Fixpoint ToUpper (s : string) : string :=
  match s with
  | EmptyString => EmptyString
  | String c s' =>
      String (if is_lower c then chr (code c - 32) else c) (ToUpper s')
  end.

Definition is_digit (c : byte) : bool := (48 <=? code c) && (code c <=? 57).

Fixpoint all_digits (s : string) : bool :=
  match s with
  | EmptyString => true
  | String c s' => is_digit c && all_digits s'
  end.

Fixpoint decimal (acc : Z) (s : string) : Z :=
  match s with
  | EmptyString => acc
  | String c s' => decimal (10 * acc + (code c - 48)) s'
  end.

(** [strconv.ParseUint(s, 10, bits)]: a non-empty run of decimal digits
    (no sign, no underscore) whose value fits in [bits] bits. *)
Definition ParseUint (s : string) (bits : Z) : go Z :=
  match s with
  | EmptyString => Fail (NumError ErrSyntax)
  | _ =>
      if all_digits s then
        let v := decimal 0 s in
        if v <? 2 ^ bits then Ok v else Fail (NumError ErrRange)
      else Fail (NumError ErrSyntax)
  end.

(** Whether every byte of [s] is below 0x80 (an ASCII text). *)
Fixpoint ascii_only (s : string) : bool :=
  match s with
  | EmptyString => true
  | String c s' => (code c <? 128) && ascii_only s'
  end.

End Str.

(** The white-space characters of ABNF (RFC 3261 S.25). *)
Definition abnfWs : string := String (Str.chr 32) (String (Str.chr 9) EmptyString).

(** The maximum permissible CSeq number, 2**31 - 1. *)
Definition maxCseq : Z := 2147483647.

Definition CRLF : string := String (Str.chr 13) (String (Str.chr 10) EmptyString).

(* ===================================================================== *)
(** ** Package [core]: the data model the parser produces                *)
(* ===================================================================== *)

Module Core.

(** Modelled from the spec: the types of package [core] are declared
    outside the parser file; they follow the data model of the
    specification (messages, URIs, headers, parameters) with the field names
    the parser assigns to.

    [core.MaybeString]: [nil] or [core.String{Str: s}]. *)
Definition MaybeString := option string.

(** Modelled from the spec: [core.Params] is declared outside the parser
    file.  The specification describes it as an ordered key to
    optional-value mapping that preserves insertion order; [Add] on a key
    already present replaces its value in place. *)
Definition Params := list (string * MaybeString).

Definition NewParams : Params := [].

Fixpoint Params_Add (k : string) (v : MaybeString) (p : Params) : Params :=
  match p with
  | [] => [(k, v)]
  | (k', v') :: p' =>
      if String.eqb k k' then (k, v) :: p' else (k', v') :: Params_Add k v p'
  end.

Fixpoint Params_Get (k : string) (p : Params) : option MaybeString :=
  match p with
  | [] => None
  | (k', v') :: p' => if String.eqb k k' then Some v' else Params_Get k p'
  end.

Definition Params_Length (p : Params) : Z := Z.of_nat (List.length p).

Definition Params_Has (k : string) (p : Params) : bool :=
  match Params_Get k p with Some _ => true | None => false end.

(** Modelled from the spec: [core.SipUri], with the fields [ParseSipUri]
    fills in. *)
Record SipUri := mkSipUri {
  IsEncrypted : bool;
  User : MaybeString;
  Password : MaybeString;
  Host : string;
  Port : option Z;            (* *core.Port, a uint16 *)
  UriParams : Params;
  Headers : Params
}.

(** Modelled from the spec: [core.Uri] values by dynamic type; [ParseUri]
    returns a [*core.SipUri] or a [core.WildcardUri] value. *)
Inductive Uri : Type :=
| SipUriPtr (u : SipUri)
| WildcardUri.

(** Modelled from the spec: [core.ViaHop], one hop of a Via header. *)
Record ViaHop := mkViaHop {
  ProtocolName : string;
  ProtocolVersion : string;
  Transport : string;
  HopHost : string;
  HopPort : option Z;
  HopParams : Params
}.

(** Modelled from the spec: [core.Header] by concrete type, one
    constructor per header type the parser builds. *)
Inductive Header : Type :=
| ToHeader (DisplayName : MaybeString) (Address : Uri) (Params_ : Params)
| FromHeader (DisplayName : MaybeString) (Address : Uri) (Params_ : Params)
| ContactHeader (DisplayName : MaybeString) (Address : Uri) (Params_ : Params)
| CallID (id : string)
| CSeq (SeqNo : Z) (MethodName : string)
| ViaHeader (hops : list ViaHop)
| MaxForwards (n : Z)
| ContentLength (n : Z)
| GenericHeader (HeaderName Contents : string).

(** Modelled from the spec: [Header.Name()] is declared in package [core];
    the specification calls it the canonical name of the header. *)
Definition Header_Name (h : Header) : string :=
  match h with
  | ToHeader _ _ _ => "To"
  | FromHeader _ _ _ => "From"
  | ContactHeader _ _ _ => "Contact"
  | CallID _ => "Call-ID"
  | CSeq _ _ => "CSeq"
  | ViaHeader _ => "Via"
  | MaxForwards _ => "Max-Forwards"
  | ContentLength _ => "Content-Length"
  | GenericHeader n _ => n
  end.

(** Modelled from the spec: [Header.Clone()], a deep copy; values here
    are immutable, so the clone is the value itself. *)
Definition Header_Clone (h : Header) : Header := h.

(** Modelled from the spec: [core.RequestMethod], a method token. *)
Definition RequestMethod := string.
Definition INVITE : RequestMethod := "INVITE".
Definition ACK : RequestMethod := "ACK".

(** Modelled from the spec: [core.Request] and [core.Response]; a
    [core.Message] is one of them. *)
Record Request := mkRequest {
  Method : RequestMethod;
  Recipient : Uri;
  ReqSipVersion : string;
  ReqHeaders : list Header;
  ReqBody : string
}.

Record Response := mkResponse {
  RespSipVersion : string;
  StatusCode : Z;
  Reason : string;
  RespHeaders : list Header;
  RespBody : string
}.

Inductive Message : Type :=
| MsgRequest (r : Request)
| MsgResponse (r : Response).

Definition NewRequest (method : RequestMethod) (recipient : Uri)
    (sipVersion : string) (hdrs : list Header) (body : string) : Message :=
  MsgRequest (mkRequest method recipient sipVersion hdrs body).

Definition NewResponse (sipVersion : string) (statusCode : Z) (reason : string)
    (hdrs : list Header) (body : string) : Message :=
  MsgResponse (mkResponse sipVersion statusCode reason hdrs body).

Definition Message_Headers (m : Message) : list Header :=
  match m with
  | MsgRequest r => ReqHeaders r
  | MsgResponse r => RespHeaders r
  end.

Definition Message_Body (m : Message) : string :=
  match m with
  | MsgRequest r => ReqBody r
  | MsgResponse r => RespBody r
  end.

(** Modelled from the spec: [Message.AppendHeader], [GetHeaders] and
    [SetBody] are declared in package [core].  Headers form an ordered
    sequence with duplicates allowed; lookup by name ignores case. *)
Definition AppendHeader (h : Header) (m : Message) : Message :=
  match m with
  | MsgRequest r =>
      MsgRequest (mkRequest (Method r) (Recipient r) (ReqSipVersion r)
                            (ReqHeaders r ++ [h]) (ReqBody r))
  | MsgResponse r =>
      MsgResponse (mkResponse (RespSipVersion r) (StatusCode r) (Reason r)
                              (RespHeaders r ++ [h]) (RespBody r))
  end.

Definition GetHeaders (name : string) (m : Message) : list Header :=
  List.filter (fun h => String.eqb (Str.ToLower (Header_Name h)) (Str.ToLower name))
         (Message_Headers m).

Definition SetBody (body : string) (m : Message) : Message :=
  match m with
  | MsgRequest r =>
      MsgRequest (mkRequest (Method r) (Recipient r) (ReqSipVersion r)
                            (ReqHeaders r) body)
  | MsgResponse r =>
      MsgResponse (mkResponse (RespSipVersion r) (StatusCode r) (Reason r)
                              (RespHeaders r) body)
  end.

(** Modelled from the spec: [core.CopyHeaders(name, from, to)] appends to
    [to] every header of [from] with the given name, in order. *)
Definition CopyHeaders (name : string) (from to : Message) : Message :=
  fold_left (fun m h => AppendHeader (Header_Clone h) m) (GetHeaders name from) to.

(** Modelled from the spec: the accessors [Message.CSeq()], [Message.Via()]
    and [Message.ViaHop()] of package [core] return the first CSeq header,
    the first (top) Via header and the first hop of the top Via. *)
Definition Message_CSeq (m : Message) : option (Z * string) :=
  match GetHeaders "CSeq" m with
  | CSeq n me :: _ => Some (n, me)
  | _ => None
  end.

Definition Message_Via (m : Message) : option (list ViaHop) :=
  match GetHeaders "Via" m with
  | ViaHeader hops :: _ => Some hops
  | _ => None
  end.

Definition Message_ViaHop (m : Message) : option ViaHop :=
  match Message_Via m with
  | Some (hop :: _) => Some hop
  | _ => None
  end.

End Core.
Export Core.

(* ===================================================================== *)
(** ** Package [syntax]: URI, parameter and header parsers               *)
(* ===================================================================== *)

Module Syntax.
Import Str.

Definition ch (s : string) : byte :=
  match s with String c _ => c | EmptyString => zero end.

Definition semicolon : byte := ch ";".
Definition question : byte := ch "?".
Definition ampersand : byte := ch "&".
Definition comma : byte := ch ",".
Definition colon : byte := ch ":".
Definition equals : byte := ch "=".
Definition space : byte := ch " ".
Definition slash : byte := ch "/".
Definition langle : byte := ch "<".
Definition rangle : byte := ch ">".
Definition dquote : byte := chr 34.
Definition dquote_s : string := String dquote EmptyString.

(** State of the character loop of [parseParams]. *)
Record ppState := mkPP {
  pp_params : Params;
  pp_consumed : Z;
  pp_buffer : string;
  pp_key : string;
  pp_parsingKey : bool;
  pp_inQuotes : bool
}.

Definition pp_next (st : ppState) : ppState :=
  mkPP (pp_params st) (pp_consumed st + 1) (pp_buffer st) (pp_key st)
       (pp_parsingKey st) (pp_inQuotes st).

Definition pp_write (s : string) (st : ppState) : ppState :=
  mkPP (pp_params st) (pp_consumed st) (pp_buffer st ++ s)%string (pp_key st)
       (pp_parsingKey st) (pp_inQuotes st).

(** The [parseLoop] of [parseParams].  [rest] is [source[consumed:]]: its
    head is [source[consumed]], and [source[consumed+1]] is the head of its
    tail, which exists exactly when [consumed != len(source)-1].
    [continue] and the end of the switch both step to [consumed+1];
    [break parseLoop] leaves with [consumed] unchanged. *)
Fixpoint parseLoop (sep end_ : byte) (quoteValues permitSingletons : bool)
    (rest : string) (st : ppState) : go ppState :=
  match rest with
  | EmptyString => Ok st
  | String c rest' =>
      let continue_ st' :=
        parseLoop sep end_ quoteValues permitSingletons rest' (pp_next st') in
      if eqb_byte c end_ then
        if pp_inQuotes st then continue_ (pp_write (of_byte end_) st)
        else Ok st
      else if eqb_byte c sep then
        if pp_inQuotes st then continue_ (pp_write (of_byte sep) st)
        else if pp_parsingKey st && permitSingletons then
          continue_ (mkPP (Params_Add (pp_buffer st) None (pp_params st))
                          (pp_consumed st) EmptyString (pp_key st) true (pp_inQuotes st))
        else if pp_parsingKey st then
          Fail (Errorf "singleton param '%s' when parsing params which disallow singletons: %s")
        else
          continue_ (mkPP (Params_Add (pp_key st) (Some (pp_buffer st)) (pp_params st))
                          (pp_consumed st) EmptyString (pp_key st) true (pp_inQuotes st))
      else if eqb_byte c dquote then
        if negb quoteValues then continue_ (pp_write dquote_s st)
        else if pp_parsingKey st then
          Fail (Errorf "unexpected quote in parameter key in params %s")
        else if negb (pp_inQuotes st) && negb (len (pp_buffer st) =? 0) then
          Fail (Errorf "unexpected quote in params %s")
        else if pp_inQuotes st &&
                match rest' with
                | EmptyString => false
                | String d _ => negb (eqb_byte d sep)
                end then
          Fail (Errorf "unexpected character %c after quoted param in %s")
        else
          continue_ (mkPP (pp_params st) (pp_consumed st) (pp_buffer st) (pp_key st)
                          (pp_parsingKey st) (negb (pp_inQuotes st)))
      else if eqb_byte c equals then
        if len (pp_buffer st) =? 0 then
          Fail (Errorf "key of length 0 in params %s")
        else if negb (pp_parsingKey st) then
          Fail (Errorf "unexpected '=' char in value token: %s")
        else
          continue_ (mkPP (pp_params st) (pp_consumed st) EmptyString (pp_buffer st)
                          false (pp_inQuotes st))
      else
        if negb (pp_inQuotes st) && Contains abnfWs (of_byte c) then continue_ st
        else continue_ (pp_write (of_byte c) st)
  end.

(** [parseParams(source, start, sep, end, quoteValues, permitSingletons)]:
    the parameters parsed and the number of bytes consumed.  A [start] or
    [end] of [0] means that there is no such delimiter. *)
Definition parseParams (source : string) (start sep end_ : byte)
    (quoteValues permitSingletons : bool) : go (Params * Z) :=
  if len source =? 0 then Ok (NewParams, 0)
  else
    consumed ← (if negb (eqb_byte start zero) then
                   c ← at_ source 0;
                   if negb (eqb_byte c start) then
                     Fail (Errorf "expected %c at start of key-value section; got %c. section was %s")
                   else Ok 1
                 else Ok 0);
    st ← parseLoop sep end_ quoteValues permitSingletons
           (drop (Z.to_nat consumed) source)
           (mkPP NewParams consumed EmptyString EmptyString true false);
    if pp_inQuotes st then
      Fail (Errorf "unclosed quotes in parameter string: %s")
    else if pp_parsingKey st && permitSingletons then
      Ok (Params_Add (pp_buffer st) None (pp_params st), pp_consumed st)
    else if pp_parsingKey st then
      Fail (Errorf "singleton param '%s' when parsing params which disallow singletons: %s")
    else
      Ok (Params_Add (pp_key st) (Some (pp_buffer st)) (pp_params st), pp_consumed st).

(** [parseHostPort(rawText)]: a [host[:port]] pair; the port is [nil] when
    absent. *)
Definition parseHostPort (rawText : string) : go (string * option Z) :=
  let colonIdx := Index rawText ":" in
  if colonIdx =? -1 then Ok (rawText, None)
  else
    host ← slice_to rawText colonIdx;
    portText ← slice_from rawText (colonIdx + 1);
    portRaw64 ← ParseUint portText 16;
    Ok (host, Some portRaw64).

(** [ParseSipUri(uriStr)] *)
Definition ParseSipUri (uriStr : string) : go SipUri :=
  proto ← slice_to uriStr 3;
  if negb (String.eqb (ToLower proto) "sip") then
    Fail (Errorf "invalid SIP uri protocol name in '%s'")
  else
    uriStr ← slice_from uriStr 3;
    s ← slice uriStr 0 1;
    '(isEncrypted, uriStr) ←
       (if String.eqb (ToLower s) "s" then
          r ← slice_from uriStr 1; Ok (true, r)
        else Ok (false, uriStr));
    c ← at_ uriStr 0;
    if negb (eqb_byte c colon) then
      Fail (Errorf "no ':' after protocol name in SIP uri '%s'")
    else
      uriStr ← slice_from uriStr 1;
      let endOfUserInfoPart := Index uriStr "@" in
      '(user, password, uriStr) ←
         (if negb (endOfUserInfoPart =? -1) then
            let endOfUsernamePart := Index uriStr ":" in
            let endOfUsernamePart :=
              if endOfUsernamePart >? endOfUserInfoPart then -1
              else endOfUsernamePart in
            '(user, password) ←
               (if endOfUsernamePart =? -1 then
                  u ← slice_to uriStr endOfUserInfoPart;
                  Ok (Some u, None)
                else
                  u ← slice_to uriStr endOfUsernamePart;
                  p ← slice uriStr (endOfUsernamePart + 1) endOfUserInfoPart;
                  Ok (Some u, Some p));
            r ← slice_from uriStr (endOfUserInfoPart + 1);
            Ok (user, password, r)
          else Ok (None, None, uriStr));
      let endOfUriPart := Index uriStr ";" in
      let endOfUriPart :=
        if endOfUriPart =? -1 then Index uriStr "?" else endOfUriPart in
      let endOfUriPart :=
        if endOfUriPart =? -1 then len uriStr else endOfUriPart in
      hostport ← slice_to uriStr endOfUriPart;
      uriStr' ← slice_from uriStr endOfUriPart;
      '(host, port) ← parseHostPort hostport;
      let uriStr := uriStr' in
      if len uriStr =? 0 then
        Ok (mkSipUri isEncrypted user password host port NewParams NewParams)
      else
        c ← at_ uriStr 0;
        '(uriParams, n) ←
           (if eqb_byte c semicolon then
              parseParams uriStr semicolon semicolon question true true
            else Ok (NewParams, 0));
        uriStr ← slice_from uriStr n;
        '(headers, n) ← parseParams uriStr question ampersand zero true false;
        uriStr ← slice_from uriStr n;
        if len uriStr >? 0 then
          Fail (Errorf "internal error: parse of SIP uri ended early! '%s'")
        else
          Ok (mkSipUri isEncrypted user password host port uriParams headers).

(** [ParseUri(uriStr)] *)
Definition ParseUri (uriStr : string) : go Uri :=
  if String.eqb (TrimSpace uriStr) "*" then Ok WildcardUri
  else
    let colonIdx := Index uriStr ":" in
    if colonIdx =? -1 then Fail (Errorf "no ':' in URI %s")
    else
      scheme ← slice_to uriStr colonIdx;
      let scheme := ToLower scheme in
      if String.eqb scheme "sip" then
        u ← ParseSipUri uriStr; Ok (SipUriPtr u)
      else if String.eqb scheme "sips" then
        u ← ParseSipUri uriStr; Ok (SipUriPtr u)
      else Fail (Errorf "unsupported URI schema %s").

(** A parameter that has a value. *)
Definition has_value (kv : string * MaybeString) : Prop := snd kv <> None.

(** A delimiter is any pair of characters used for quoting text. *)
Record delimiter := mkDelim { delim_start : byte; delim_end : byte }.

Definition quotesDelim : delimiter := mkDelim dquote dquote.
Definition anglesDelim : delimiter := mkDelim langle rangle.

(** The [endChars] map of [findAnyUnescaped]: later delimiters overwrite
    earlier ones with the same start character. *)
Definition endChars (delims : list delimiter) : gmap byte byte :=
  fold_left (fun m d => <[delim_start d := delim_end d]> m) delims ∅.

Fixpoint findLoop (ends : gmap byte byte) (targets : string)
    (text : string) (idx : Z) (escaped : bool) (endEscape : byte) : Z :=
  match text with
  | EmptyString => -1
  | String c text' =>
      if negb escaped && Contains targets (of_byte c) then idx
      else if escaped then
        findLoop ends targets text' (idx + 1) (negb (eqb_byte c endEscape)) endEscape
      else
        match ends !! c with
        | Some e => findLoop ends targets text' (idx + 1) true e
        | None => findLoop ends targets text' (idx + 1) false zero
        end
  end.

(** [findAnyUnescaped(text, targets, delims...)]: the first index of any of
    the targets that is not enclosed in one of the delimiters, or [-1]. *)
Definition findAnyUnescaped (text targets : string) (delims : list delimiter) : Z :=
  findLoop (endChars delims) targets text 0 false zero.

(** [findUnescaped(text, target, delims...)] *)
Definition findUnescaped (text : string) (target : byte) (delims : list delimiter) : Z :=
  findAnyUnescaped text (of_byte target) delims.

(** [parseAddressValue(addressText)]: display name, URI and header
    parameters of one address. *)
Definition parseAddressValue (addressText : string)
    : go (MaybeString * Uri * Params) :=
  if len addressText =? 0 then
    Fail (Errorf "address-type header has empty body")
  else
    let addressText := TrimSpace addressText in
    let firstAngleBracket := findUnescaped addressText langle [quotesDelim] in
    '(displayName, addressText) ←
       (if firstAngleBracket >? 0 then
          c ← at_ addressText 0;
          if eqb_byte c dquote then
            addressText ← slice_from addressText 1;
            let nextQuote := Index addressText dquote_s in
            if nextQuote =? -1 then
              Fail (Errorf "unclosed quotes in header text: %s")
            else
              nameField ← slice_to addressText nextQuote;
              addressText ← slice_from addressText (nextQuote + 1);
              Ok (Some nameField, addressText)
          else
            nameField ← slice_to addressText firstAngleBracket;
            addressText ← slice_from addressText firstAngleBracket;
            Ok (Some (TrimSpace nameField), addressText)
        else Ok (None, addressText));
    let addressText := TrimSpace addressText in
    c ← at_ addressText 0;
    '(addressText, endOfUri, startOfParams) ←
       (if negb (eqb_byte c langle) then
          match displayName with
          | Some _ =>
              Fail (Errorf "invalid character '%c' following display name in address line; expected '<': %s")
          | None =>
              let endOfUri := Index addressText ";" in
              let endOfUri := if endOfUri =? -1 then len addressText else endOfUri in
              Ok (addressText, endOfUri, endOfUri)
          end
        else
          addressText ← slice_from addressText 1;
          let endOfUri := Index addressText ">" in
          if endOfUri =? 0 then
            Fail (Errorf "'<' without closing '>' in address %s")
          else Ok (addressText, endOfUri, endOfUri + 1));
    uriText ← slice_to addressText endOfUri;
    uri ← ParseUri uriText;
    if startOfParams >=? len addressText then Ok (displayName, uri, NewParams)
    else
      addressText ← slice_from addressText startOfParams;
      '(headerParams, _) ← parseParams addressText semicolon semicolon comma true true;
      Ok (displayName, uri, headerParams).

(** The loop of [parseAddressValues] over [addresses + ","].  [rest] is the
    text from offset [idx] on.  The source ranges over runes; the loop only
    compares the rune with the ASCII characters '<', '>', ',' and the double
    quote, which
    no byte of a multi-byte or invalid sequence equals, and [idx] is the byte
    offset, so the iteration is the same taken byte by byte. *)
Fixpoint addressLoop (addresses rest : string) (idx prevIdx : Z)
    (inBrackets inQuotes : bool) (acc : list (MaybeString * Uri * Params))
    : go (list (MaybeString * Uri * Params)) :=
  match rest with
  | EmptyString => Ok acc
  | String char rest' =>
      if eqb_byte char langle && negb inQuotes then
        addressLoop addresses rest' (idx + 1) prevIdx true inQuotes acc
      else if eqb_byte char rangle && negb inQuotes then
        addressLoop addresses rest' (idx + 1) prevIdx false inQuotes acc
      else if eqb_byte char dquote then
        addressLoop addresses rest' (idx + 1) prevIdx inBrackets (negb inQuotes) acc
      else if negb inQuotes && negb inBrackets && eqb_byte char comma then
        section ← slice addresses prevIdx idx;
        v ← parseAddressValue section;
        addressLoop addresses rest' (idx + 1) (idx + 1) inBrackets inQuotes (acc ++ [v])
      else
        addressLoop addresses rest' (idx + 1) prevIdx inBrackets inQuotes acc
  end.

(** [parseAddressValues(addresses)]: the addresses of a comma-separated
    list, one (display name, URI, parameters) triple per section. *)
Definition parseAddressValues (addresses : string)
    : go (list (MaybeString * Uri * Params)) :=
  let addresses := (addresses ++ ",")%string in
  addressLoop addresses addresses 0 0 false false [].

(** The header-building loop of [parseAddressHeader]. *)
Fixpoint addressHeaders (headerName : string) (idx : Z)
    (vals : list (MaybeString * Uri * Params)) (headers : list Header)
    : go (list Header) :=
  match vals with
  | [] => Ok headers
  | (displayName, uri, params) :: vals' =>
      header ←
        (if String.eqb headerName "to" || String.eqb headerName "t" then
           if idx >? 0 then Fail (Errorf "multiple to: headers in message:\n%s: %s")
           else match uri with
                | WildcardUri =>
                    Fail (Errorf "wildcard uri not permitted in to: header: %s")
                | _ => Ok [ToHeader displayName uri params]
                end
         else if String.eqb headerName "from" || String.eqb headerName "f" then
           if idx >? 0 then Fail (Errorf "multiple from: headers in message:\n%s: %s")
           else match uri with
                | WildcardUri =>
                    Fail (Errorf "wildcard uri not permitted in from: header: %s")
                | _ => Ok [FromHeader displayName uri params]
                end
         else if String.eqb headerName "contact" || String.eqb headerName "m" then
           match uri with
           | WildcardUri =>
               if Params_Length params >? 0 then
                 Fail (Errorf "wildcard contact header should contain no parameters: '%s")
               else match displayName with
                    | Some _ =>
                        Fail (Errorf "wildcard contact header should contain no display name %s")
                    | None => Ok [ContactHeader displayName uri params]
                    end
           | SipUriPtr _ => Ok [ContactHeader displayName uri params]
           end
         else Ok []);
      addressHeaders headerName (idx + 1) vals' (headers ++ header)
  end.

Definition is_address_name (headerName : string) : bool :=
  existsb (String.eqb headerName) ["to"; "from"; "contact"; "t"; "f"; "m"].

(** [parseAddressHeader(headerName, headerText)]: a To, From or Contact
    header line.  [parseAddressValues] returns its three slices as one list
    of triples, so their lengths agree by construction. *)
Definition parseAddressHeader (headerName headerText : string) : go (list Header) :=
  if is_address_name headerName then
    vals ← parseAddressValues headerText;
    addressHeaders headerName 0 vals []
  else Ok [].

(** The UTF-8 encoding of [utf8.RuneError], U+FFFD. *)
Definition runeError : string :=
  String (chr 239) (String (chr 191) (String (chr 189) EmptyString)).

Definition in_range (lo hi : Z) (b : byte) : bool :=
  (lo <=? code b) && (code b <=? hi).

(** One step of a [range] loop over a string: [string(char)] for the rune
    the text starts with, and its width in bytes.  An invalid or truncated
    encoding yields [utf8.RuneError] with width 1 (package [unicode/utf8]). *)
Definition decodeRune (s : string) : string * nat :=
  match s with
  | EmptyString => (runeError, O)
  | String b0 r =>
      let x := code b0 in
      if x <? 128 then (String b0 EmptyString, 1%nat)
      else
        let '(size, lo, hi) :=
          if (194 <=? x) && (x <=? 223) then (2%nat, 128, 191)
          else if x =? 224 then (3%nat, 160, 191)
          else if ((225 <=? x) && (x <=? 236)) || ((238 <=? x) && (x <=? 239))
               then (3%nat, 128, 191)
          else if x =? 237 then (3%nat, 128, 159)
          else if x =? 240 then (4%nat, 144, 191)
          else if (241 <=? x) && (x <=? 243) then (4%nat, 128, 191)
          else if x =? 244 then (4%nat, 128, 143)
          else (O, 0, 0) in
        let valid :=
          match size, r with
          | 2%nat, String b1 _ => in_range lo hi b1
          | 3%nat, String b1 (String b2 _) =>
              in_range lo hi b1 && in_range 128 191 b2
          | 4%nat, String b1 (String b2 (String b3 _)) =>
              in_range lo hi b1 && in_range 128 191 b2 && in_range 128 191 b3
          | _, _ => false
          end in
        if valid then (take size s, size) else (runeError, 1%nat)
  end.

Definition splitFinish (buffer : string) (result : list string) : list string :=
  if len buffer >? 0 then result ++ [buffer] else result.

Fixpoint splitLoop (fuel : nat) (text buffer : string) (inString : bool)
    (result : list string) : list string :=
  match fuel, text with
  | O, _ | _, EmptyString => splitFinish buffer result
  | S fuel', _ =>
      let '(s, w) := decodeRune text in
      if Contains abnfWs s then
        if inString then splitLoop fuel' (drop w text) EmptyString false (result ++ [buffer])
        else splitLoop fuel' (drop w text) buffer false result
      else splitLoop fuel' (drop w text) (buffer ++ s)%string true result
  end.

(** [splitByWhitespace(text)]: the sections of [text] separated by one or
    more ABNF white-space characters. *)
Definition splitByWhitespace (text : string) : list string :=
  splitLoop (String.length text) text EmptyString true [].

(** [parseCSeq(headerName, headerText)] *)
Definition parseCSeq (headerName headerText : string) : go (list Header) :=
  match splitByWhitespace headerText with
  | [p0; p1] =>
      seqno ← ParseUint p0 32;
      if seqno >? maxCseq then
        Fail (Errorf "invalid CSeq %d: exceeds maximum permitted value 2**31 - 1")
      else
        let method := TrimSpace p1 in
        if Contains method ";" then Fail (Errorf "unexpected ';' in CSeq body: %s")
        else Ok [CSeq seqno method]
  | _ => Fail (Errorf "CSeq field should have precisely one whitespace section: '%s'")
  end.

(** [parseCallId(headerName, headerText)] *)
Definition parseCallId (headerName headerText : string) : go (list Header) :=
  let headerText := TrimSpace headerText in
  let callId := headerText in
  if ContainsAny callId abnfWs then
    Fail (Errorf "unexpected whitespace in CallID header body '%s'")
  else if Contains callId ";" then
    Fail (Errorf "unexpected semicolon in CallID header body '%s'")
  else if len callId =? 0 then Fail (Errorf "empty Call-ID body")
  else Ok [CallID callId].

(** One hop of [parseViaHeader]: the body of its loop over the sections.
    [err] is the function's named result, which the loop body reads at its
    [if err != nil] check and which survives from the previous section: an
    error of [parseParams] does not leave the loop at once, the hop is
    appended and the error is returned by the next check or at the end (the
    header is then dropped, so the hop's parameters are never observed). *)
Definition parseViaHop (section : string) (err : option error)
    : go (ViaHop * option error) :=
  match Split section slash with
  | p0 :: p1 :: (_ :: _) as rest2 =>
      let p2 := Join rest2 "/" in
      let initialSpaces := len p2 - len (TrimLeft p2 abnfWs) in
      tail ← slice_from p2 initialSpaces;
      let sentByIdx := IndexAny tail abnfWs + initialSpaces + 1 in
      if sentByIdx =? 0 then
        Fail (Errorf "expected whitespace after sent-protocol part in via header '%s'")
      else if sentByIdx =? 1 then
        Fail (Errorf "empty transport field in via header '%s'")
      else
        let protocolName := TrimSpace p0 in
        let protocolVersion := TrimSpace p1 in
        transport ← slice_to p2 (sentByIdx - 1);
        let transport := TrimSpace transport in
        let err :=
          if len protocolName =? 0 then
            Some (Errorf "no protocol name provided in via header '%s'")
          else if len protocolVersion =? 0 then
            Some (Errorf "no version provided in via header '%s'")
          else if len transport =? 0 then
            Some (Errorf "no transport provided in via header '%s'")
          else err in
        match err with
        | Some e => Fail e
        | None =>
            viaBody ← slice_from p2 sentByIdx;
            let paramsIdx := Index viaBody ";" in
            if paramsIdx =? -1 then
              '(host, port) ← parseHostPort viaBody;
              Ok (mkViaHop protocolName protocolVersion transport host port NewParams,
                  None)
            else
              hostport ← slice_to viaBody paramsIdx;
              '(host, port) ← parseHostPort hostport;
              ptext ← slice_from viaBody paramsIdx;
              match parseParams ptext semicolon semicolon zero true true with
              | Ok (params, _) =>
                  Ok (mkViaHop protocolName protocolVersion transport host port params,
                      None)
              | Fail e =>
                  Ok (mkViaHop protocolName protocolVersion transport host port NewParams,
                      Some e)
              | Panic x => Panic x
              end
        end
  | _ => Fail (Errorf "not enough protocol parts in via header: '%s'")
  end.

Fixpoint viaLoop (sections : list string) (via : list ViaHop) (err : option error)
    : go (list Header) :=
  match sections with
  | [] => match err with
          | Some e => Fail e
          | None => Ok [ViaHeader via]
          end
  | section :: sections' =>
      '(hop, err') ← parseViaHop section err;
      viaLoop sections' (via ++ [hop]) err'
  end.

(** [parseViaHeader(headerName, headerText)]: one Via header whose hops are
    the comma-separated sections. *)
Definition parseViaHeader (headerName headerText : string) : go (list Header) :=
  viaLoop (Split headerText comma) [] None.

(** [parseMaxForwards(headerName, headerText)] *)
Definition parseMaxForwards (headerName headerText : string) : go (list Header) :=
  value ← ParseUint (TrimSpace headerText) 32;
  Ok [MaxForwards value].

(** [parseContentLength(headerName, headerText)] *)
Definition parseContentLength (headerName headerText : string) : go (list Header) :=
  value ← ParseUint (TrimSpace headerText) 32;
  Ok [ContentLength value].

(** A [HeaderParser] turns raw header data into one or more headers. *)
Definition HeaderParser := string -> string -> go (list Header).

Definition defaultHeaderParsers : list (string * HeaderParser) :=
  [ ("to", parseAddressHeader);
    ("t", parseAddressHeader);
    ("from", parseAddressHeader);
    ("f", parseAddressHeader);
    ("contact", parseAddressHeader);
    ("m", parseAddressHeader);
    ("Call-ID", parseCallId);
    ("cseq", parseCSeq);
    ("via", parseViaHeader);
    ("v", parseViaHeader);
    ("max-forwards", parseMaxForwards);
    ("content-length", parseContentLength);
    ("l", parseContentLength) ].

(** [getBodyLength(data)]: the size of a message's body, given the entire
    contents of the message. *)
Definition getBodyLength (data : string) : Z :=
  let s := data in
  let bodyStart := Index s (CRLF ++ CRLF) + 4 in
  len s - bodyStart.

(** [isRequest(startLine)] *)
Definition isRequest (startLine : string) : bool :=
  if negb (Count startLine space =? 2) then false
  else
    match Split startLine space with
    | _ :: _ :: p2 :: _ =>
        if len p2 <? 3 then false
        else String.eqb (ToUpper (take 3 p2)) "SIP"
    | _ => false
    end.

(** [isResponse(startLine)] *)
Definition isResponse (startLine : string) : bool :=
  if Count startLine space <? 2 then false
  else
    match Split startLine space with
    | p0 :: _ :: _ :: _ =>
        if len p0 <? 3 then false
        else String.eqb (ToUpper (take 3 p0)) "SIP"
    | _ => false
    end.

(** [parseRequestLine(requestLine)].  The source rejects a recipient whose
    dynamic type is [*core.WildcardUri]; [ParseUri] returns the wildcard as a
    [core.WildcardUri] value, so that case of the type switch matches no
    value [ParseUri] produces. *)
Definition parseRequestLine (requestLine : string)
    : go (RequestMethod * Uri * string) :=
  match Split requestLine space with
  | [p0; p1; p2] =>
      let method := ToUpper p0 in
      recipient ← ParseUri p1;
      Ok (method, recipient, p2)
  | _ => Fail (Errorf "request line should have 2 spaces: '%s'")
  end.

(** [parseStatusLine(statusLine)]: SIP version, status code and reason
    phrase of the first line of a response. *)
Definition parseStatusLine (statusLine : string) : go (string * Z * string) :=
  match Split statusLine space with
  | p0 :: p1 :: (_ :: _) as rest =>
      let sipVersion := p0 in
      statusCodeRaw ← ParseUint p1 16;
      let reasonPhrase := Join rest EmptyString in
      Ok (sipVersion, statusCodeRaw, reasonPhrase)
  | _ => Fail (Errorf "status line has too few spaces: '%s'")
  end.

(** Where the parse task stands.  The task is a loop over messages that
    suspends only on its input buffer and on the body-length queue; a phase
    records the local variables live at such a point. *)
Inductive phase : Type :=
| AtStartLine
| SkipLength (startLineLen : Z)
| SkipChunk (skip : Z)
| InHeaders (msg : Message) (buffer : string) (headers : list Header)
| BodyLength (msg : Message)
| AtBody (msg : Message) (contentLength : Z)
| Crashed (p : panic).

(** The [parser] struct.  [input] holds the bytes queued in the parser
    buffer and not yet consumed, [bodyLengths] the entries queued in the
    elastic channel, [output] and [errs] what has been sent down the two
    channels (oldest first). *)
Record parser := mkParser {
  headerParsers : gmap string HeaderParser;
  streamed : bool;
  input : string;
  bodyLengths : list (Z * Z);
  output : list Message;
  errs : list error;
  terminalErr : option error;
  stopped : bool;
  task : phase
}.

Definition set_input (v : string) (p : parser) : parser :=
  mkParser (headerParsers p) (streamed p) v (bodyLengths p) (output p) (errs p)
           (terminalErr p) (stopped p) (task p).
Definition set_bodyLengths (v : list (Z * Z)) (p : parser) : parser :=
  mkParser (headerParsers p) (streamed p) (input p) v (output p) (errs p)
           (terminalErr p) (stopped p) (task p).
Definition set_task (v : phase) (p : parser) : parser :=
  mkParser (headerParsers p) (streamed p) (input p) (bodyLengths p) (output p) (errs p)
           (terminalErr p) (stopped p) v.
Definition send_output (m : Message) (p : parser) : parser :=
  mkParser (headerParsers p) (streamed p) (input p) (bodyLengths p) (output p ++ [m])
           (errs p) (terminalErr p) (stopped p) (task p).
Definition send_errs (e : error) (p : parser) : parser :=
  mkParser (headerParsers p) (streamed p) (input p) (bodyLengths p) (output p)
           (errs p ++ [e]) (terminalErr p) (stopped p) (task p).

(** [p.setError(err)] and [p.getError()] *)
Definition setError (e : option error) (p : parser) : parser :=
  mkParser (headerParsers p) (streamed p) (input p) (bodyLengths p) (output p) (errs p)
           e (stopped p) (task p).
Definition getError (p : parser) : option error := terminalErr p.

(** [p.SetHeaderParser(headerName, headerParser)] *)
Definition SetHeaderParser (headerName : string) (hp : HeaderParser)
    (m : gmap string HeaderParser) : gmap string HeaderParser :=
  <[ToLower headerName := hp]> m.

(** [NewParser(output, errs, streamed)]: the standard header parsers, empty
    buffers, and the parse task started. *)
Definition NewParser (streamed_ : bool) : parser :=
  mkParser
    (fold_left (fun m '(n, hp) => SetHeaderParser n hp m) defaultHeaderParsers ∅)
    streamed_ EmptyString [] [] [] None false AtStartLine.

(** [p.Write(data)]: queues the bytes; returns the parser and [(n, err)].
    The parser's terminal error is not consulted. *)
Definition Write (data : string) (p : parser) : parser * go Z :=
  if stopped p then
    (p, Fail (ParserWriteError "cannot write data to stopped %s"))
  else
    let p :=
      if negb (streamed p) then
        let l := getBodyLength data in
        set_bodyLengths (bodyLengths p ++ [(l, len data)]) p
      else p in
    (set_input (input p ++ data)%string p, Ok (len data)).

(** [p.parseHeader(headerText)]: one logical header line. *)
Definition parseHeader (p : parser) (headerText : string) : go (list Header) :=
  let colonIdx := Index headerText ":" in
  if colonIdx =? -1 then Fail (Errorf "field name with no value in header: %s")
  else
    name ← slice_to headerText colonIdx;
    text ← slice_from headerText (colonIdx + 1);
    let fieldName := TrimSpace name in
    let lowerFieldName := ToLower fieldName in
    let fieldText := TrimSpace text in
    match headerParsers p !! lowerFieldName with
    | Some headerParser => headerParser lowerFieldName fieldText
    | None => Ok [GenericHeader fieldName fieldText]
    end.

(** Modelled from the spec: the parser buffer is declared outside the
    parser file.  [next_line()] returns the next CRLF-terminated line without
    the terminator, suspending until one is available; [next_chunk(n)]
    returns exactly [n] bytes, suspending until they are available.  [None]
    stands for a suspended call. *)
Definition NextLine (buf : string) : option (string * string) :=
  match index_nat buf CRLF with
  | Some n => Some (take n buf, drop (n + 2) buf)
  | None => None
  end.

Definition NextChunk (n : Z) (buf : string) : option (string * string) :=
  if n <=? len buf then Some (take (Z.to_nat n) buf, drop (Z.to_nat n) buf)
  else None.

(** The start line of a message: the request or response it opens. *)
Definition parseStartLine (startLine : string) : go Message :=
  if isRequest startLine then
    '(method, recipient, sipVersion) ← parseRequestLine startLine;
    Ok (NewRequest method recipient sipVersion [] EmptyString)
  else if isResponse startLine then
    '(sipVersion, statusCode, reason) ← parseStatusLine startLine;
    Ok (NewResponse sipVersion statusCode reason [] EmptyString)
  else Fail (Errorf "transmission beginning '%s' is not a SIP message").

(** The [flushBuffer] closure of the parse loop: a header that fails to
    parse is skipped. *)
Definition flushBuffer (p : parser) (buffer : string) (headers : list Header)
    : go (list Header) :=
  if len buffer >? 0 then
    match parseHeader p buffer with
    | Ok newHeaders => Ok (headers ++ newHeaders)%list
    | Fail _ => Ok headers
    | Panic x => Panic x
    end
  else Ok headers.

(** A terminal error of the parse loop: recorded, sent down [errs], and the
    loop continues with the next start line. *)
Definition raise (termErr : error) (p : parser) : parser :=
  send_errs termErr (setError (Some termErr) p).

(** The end of the header section: the headers are stored in the message
    and the length of the body is determined. *)
Definition endOfHeaders (msg : Message) (headers : list Header) (p : parser) : parser :=
  let msg := fold_left (fun m h => AppendHeader h m) headers msg in
  if streamed p then
    match GetHeaders "Content-Length" msg with
    | [] =>
        set_task AtStartLine
          (raise (MalformedMessageError
                    (Errorf "missing required 'Content-Length' header; parser: %s")) p)
    | [ContentLength n] => set_task (AtBody msg n) p
    | [_] => set_task (Crashed InterfaceConversion) p
    | _ =>
        set_task AtStartLine
          (raise (MalformedMessageError
                    (Errorf "multiple 'Content-Length' headers on message '%s'; parser: %s")) p)
    end
  else set_task (BodyLength msg) p.

(** One step of the parse task [p.parse]: from one suspension point to the
    next.  [None] when the task is suspended (or has crashed). *)
Definition parse_step (p : parser) : option parser :=
  match task p with
  | AtStartLine =>
      '(startLine, rest) ← NextLine (input p);
      let p := set_input rest p in
      match parseStartLine startLine with
      | Ok msg => Some (set_task (InHeaders msg EmptyString []) p)
      | Fail termErr =>
          let p := raise (InvalidStartLineError termErr) p in
          if negb (streamed p) then Some (set_task (SkipLength (len startLine)) p)
          else Some (set_task AtStartLine p)
      | Panic x => Some (set_task (Crashed x) p)
      end
  | SkipLength startLineLen =>
      match bodyLengths p with
      | [] => None
      | (_, total) :: q =>
          let skip := total - startLineLen - 2 in
          Some (set_task (SkipChunk skip) (set_bodyLengths q p))
      end
  | SkipChunk skip =>
      '(_, rest) ← NextChunk skip (input p);
      Some (set_task AtStartLine (set_input rest p))
  | InHeaders msg buffer headers =>
      '(line, rest) ← NextLine (input p);
      let p := set_input rest p in
      match line with
      | EmptyString =>
          match flushBuffer p buffer headers with
          | Ok headers => Some (endOfHeaders msg headers p)
          | Fail _ => None
          | Panic x => Some (set_task (Crashed x) p)
          end
      | String c _ =>
          if negb (Contains abnfWs (of_byte c)) then
            match flushBuffer p buffer headers with
            | Ok headers => Some (set_task (InHeaders msg line headers) p)
            | Fail _ => None
            | Panic x => Some (set_task (Crashed x) p)
            end
          else if len buffer >? 0 then
            Some (set_task (InHeaders msg (buffer ++ " " ++ line)%string headers) p)
          else Some (set_task (InHeaders msg buffer headers) p)
      end
  | BodyLength msg =>
      match bodyLengths p with
      | [] => None
      | (l, _) :: q => Some (set_task (AtBody msg l) (set_bodyLengths q p))
      end
  | AtBody msg contentLength =>
      '(body, rest) ← NextChunk contentLength (input p);
      let p := set_input rest p in
      let msg := if negb (String.eqb (TrimSpace body) EmptyString)
                 then SetBody body msg else msg in
      Some (set_task AtStartLine (send_output msg p))
  | Crashed _ => None
  end.

(** The parse task run until it suspends. *)
Fixpoint parse (fuel : nat) (p : parser) : parser :=
  match fuel with
  | O => p
  | S fuel' =>
      match parse_step p with
      | Some p' => parse fuel' p'
      | None => p
      end
  end.


(** A sequence of [p.Write] calls, the results dropped. *)
Fixpoint WriteAll (ds : list string) (p : parser) : parser :=
  match ds with
  | [] => p
  | d :: ds' => WriteAll ds' (fst (Write d p))
  end.


(** A parameter whose value is present has a key that is not empty. *)
Definition valued_key_ok (kv : string * MaybeString) : Prop :=
  snd kv <> None -> fst kv <> EmptyString.

(** A parameter with no double quote in its key or in its value. *)
Definition quote_free (kv : string * MaybeString) : Prop :=
  mem_byte dquote (fst kv) = false /\
  match snd kv with Some v => mem_byte dquote v = false | None => True end.

(** A hop with a protocol name, a version and a transport that are not
    empty, a host that holds no colon and a port of 16 bits. *)
Definition hop_ok (h : ViaHop) : Prop :=
  ProtocolName h <> EmptyString /\ ProtocolVersion h <> EmptyString /\
  Transport h <> EmptyString /\ mem_byte colon (HopHost h) = false /\
  match HopPort h with Some v => 0 <= v <= 65535 | None => True end.

(** A Contact header; one with the wildcard address has no display name
    and no parameters. *)
Definition contact_ok (h : Header) : Prop :=
  match h with
  | ContactHeader d WildcardUri p => d = None /\ p = []
  | ContactHeader _ (SipUriPtr _) _ => True
  | _ => False
  end.

(** The text of a sequence of lines, each ended by CRLF. *)
Fixpoint block (lines : list string) : string :=
  match lines with
  | [] => EmptyString
  | l :: lines' => (l ++ CRLF ++ block lines')%string
  end.

(** The headers of a sequence of header lines: those of every line that
    parses, in order. *)
Definition headers_of (p : parser) (lines : list string) : list Header :=
  flat_map (fun l => match parseHeader p l with Ok hs => hs | _ => [] end) lines.

(** A header line that is complete in itself: free of CRLF, not empty,
    not a continuation line (its first byte is no ABNF white space), and
    taken by its header parser without a panic. *)
Definition header_line (p : parser) (l : string) : bool :=
  negb (Contains l CRLF) &&
  match l with
  | String c _ => negb (Contains abnfWs (of_byte c))
  | EmptyString => false
  end &&
  negb (is_panic (parseHeader p l)).

End Syntax.

(* ===================================================================== *)
(** ** Package [transport]: the connection pool and its handlers         *)
(* ===================================================================== *)

Module Transport.

(** [ConnKey] is a [net.Addr]; it is identified here by its address text. *)
Definition ConnKey := string.

(** Modelled from the spec: [Connection] is declared outside the pool
    file; the pool only stores and returns the connection object, which is
    identified here by [conn_id]. *)
Record Connection := mkConnection {
  conn_id : nat;
  conn_IsStream : bool
}.

(** Instants ([time.Time]) and durations ([time.Duration]) in nanoseconds. *)
Definition Time := Z.
Definition Duration := Z.

(** [connectionHandler]: [timer] holds the duration the expiry timer was
    last armed with, [cancelled] whether the pool has cancelled its
    context. *)
Record connectionHandler := mkHandler {
  key : ConnKey;
  connection : Connection;
  timer : Duration;
  expiryTime : Time;
  cancelled : bool
}.

(** [NewConnectionHandler(ctx, key, conn, ttl, ...)], with [now] the
    reading of [timing.Now()]. *)
Definition NewConnectionHandler (k : ConnKey) (conn : Connection)
    (ttl : Duration) (now : Time) : connectionHandler :=
  mkHandler k conn ttl (now + ttl) false.

Definition Key (h : connectionHandler) : ConnKey := key h.
Definition Connection_ (h : connectionHandler) : Connection := connection h.

(** [handler.Expiries()] *)
Definition Expiries (h : connectionHandler) : Time := expiryTime h.

(** [handler.Update(ttl)]: resets the timeout timer; [now] is the reading
    of [timing.Now()]. *)
Definition Update (ttl : Duration) (now : Time) (h : connectionHandler)
    : connectionHandler :=
  mkHandler (key h) (connection h) ttl (now + ttl) (cancelled h).

(** [handler.Cancel()] *)
Definition Cancel (h : connectionHandler) : connectionHandler :=
  mkHandler (key h) (connection h) (timer h) (expiryTime h) true.

(** [connectionPool]: [ctxErr] is [pool.ctx.Err()], non-nil once the
    parent context has been cancelled; [serving] lists the keys whose
    handler task the pool has started, [dropped] the handlers it has
    cancelled. *)
Record connectionPool := mkPool {
  ctxErr : option error;
  store : gmap ConnKey connectionHandler;
  serving : list ConnKey;
  dropped : list connectionHandler
}.

(** [NewConnectionPool(ctx, output, errs)] *)
Definition NewConnectionPool : connectionPool := mkPool None ∅ [] [].

Definition getHandler (k : ConnKey) (pool : connectionPool)
    : option connectionHandler := store pool !! k.

Definition addHandler (k : ConnKey) (h : connectionHandler)
    (pool : connectionPool) : connectionPool :=
  mkPool (ctxErr pool) (<[k := h]> (store pool)) (serving pool) (dropped pool).

Definition dropHandler (k : ConnKey) (pool : connectionPool) : connectionPool :=
  mkPool (ctxErr pool) (delete k (store pool)) (serving pool) (dropped pool).

(** [pool.Add(key, connection, ttl)]: the pool and the error returned. *)
Definition Add (k : ConnKey) (conn : Connection) (ttl : Duration) (now : Time)
    (pool : connectionPool) : connectionPool * option error :=
  match ctxErr pool with
  | Some e => (pool, Some e)
  | None =>
      match getHandler k pool with
      | None =>
          let handler := NewConnectionHandler k conn ttl now in
          let pool := addHandler k handler pool in
          (mkPool (ctxErr pool) (store pool) (serving pool ++ [k]) (dropped pool),
           None)
      | Some handler =>
          (addHandler k (Update ttl now handler) pool, None)
      end
  end.

(** [pool.Get(key)] *)
Definition Get (k : ConnKey) (pool : connectionPool) : option Connection :=
  match getHandler k pool with
  | Some handler => Some (Connection_ handler)
  | None => None
  end.

(** [pool.Drop(key)] *)
Definition Drop (k : ConnKey) (pool : connectionPool) : connectionPool * bool :=
  match getHandler k pool with
  | Some handler =>
      let pool := dropHandler k pool in
      (mkPool (ctxErr pool) (store pool) (serving pool)
              (dropped pool ++ [Cancel handler]), true)
  | None => (pool, false)
  end.

(** The expiry instants observed through [Expiries()] after each of a
    sequence of [Update] calls, given as (reading of the clock, ttl). *)
Fixpoint expiries_after (calls : list (Time * Duration)) (h : connectionHandler)
    : list Time :=
  match calls with
  | [] => []
  | (now, ttl) :: calls' =>
      let h' := Update ttl now h in
      Expiries h' :: expiries_after calls' h'
  end.

(** Every call of a sequence of [Update] calls sets an expiry instant that
    is not before the one in force, [prev], when the call is made. *)
Fixpoint moves_forward (prev : Time) (calls : list (Time * Duration)) : Prop :=
  match calls with
  | [] => True
  | (now, ttl) :: calls' => prev <= now + ttl /\ moves_forward (now + ttl) calls'
  end.

(** [pool.allHandlers()]: the handlers of the keys of the store (Go ranges
    over the map in an unspecified order). *)
Definition allHandlers (pool : connectionPool) : list connectionHandler :=
  omap (fun kv => getHandler (fst kv) pool) (map_to_list (store pool)).

(** [pool.dispose()]: drops every handler by its own key.  The channels
    the source closes afterwards are not part of the state. *)
Definition dispose (pool : connectionPool) : connectionPool :=
  fold_left (fun p h => fst (Drop (Key h) p)) (allHandlers pool) pool.

(** Every handler of the store sits under its own key. *)
Definition well_keyed (pool : connectionPool) : Prop :=
  forall k h, getHandler k pool = Some h -> Key h = k.

(** A call of the pool's interface made at the clock reading [now]. *)
Inductive poolCall : Type :=
| CallAdd (k : ConnKey) (conn : Connection) (ttl : Duration) (now : Time)
| CallDrop (k : ConnKey).

Definition call (c : poolCall) (pool : connectionPool) : connectionPool :=
  match c with
  | CallAdd k conn ttl now => fst (Add k conn ttl now pool)
  | CallDrop k => fst (Drop k pool)
  end.

Definition calls (cs : list poolCall) (pool : connectionPool) : connectionPool :=
  fold_left (fun p c => call c p) cs pool.

(** What the pool keeps true of its handlers: each sits under its own key,
    has not been cancelled and has had its serving task started; the handlers
    the pool has let go of have all been cancelled. *)
Definition pool_inv (pool : connectionPool) : Prop :=
  (forall k h, getHandler k pool = Some h ->
     Key h = k /\ cancelled h = false /\ In k (serving pool)) /\
  Forall (fun h => cancelled h = true) (dropped pool).

End Transport.

(* ===================================================================== *)
(** ** Package [transaction]: the client transaction                     *)
(* ===================================================================== *)

Module Transaction.

Definition Duration := Z.

(** Modelled from the spec: the time constants are declared outside
    [client_tx.go].  The specification gives the RFC 3261 defaults
    [T1 = 500ms], [T2 = 4s], [Timer_A = T1], [Timer_B = 64*T1] and
    [Timer_D = 32s]; a [time.Duration] counts nanoseconds. *)
Definition Millisecond : Duration := 1000000.
Definition T1 : Duration := 500 * Millisecond.
Definition T2 : Duration := 4000 * Millisecond.
Definition Timer_A : Duration := T1.
Definition Timer_B : Duration := 64 * T1.
Definition Timer_D : Duration := 32000 * Millisecond.

(** A [time.Duration] is an [int64]: arithmetic wraps around. *)
Definition wrap64 (z : Z) : Z := (z + 2 ^ 63) mod 2 ^ 64 - 2 ^ 63.

(** FSM states. *)
Inductive state : Type :=
| client_state_calling
| client_state_proceeding
| client_state_completed
| client_state_terminated.

(** FSM inputs. *)
Inductive input : Type :=
| client_input_1xx
| client_input_2xx
| client_input_300_plus
| client_input_timer_a
| client_input_timer_b
| client_input_timer_d
| client_input_transport_err
| client_input_delete.

(** Modelled from the spec: [timing.Timer] is declared outside
    [client_tx.go].  A timer is absent ([nil]), armed with a duration, has
    fired, or has been stopped; [AfterFunc] and [Reset] arm it. *)
Inductive Timer : Type :=
| NilTimer
| Armed (d : Duration)
| Fired
| StoppedTimer.

Definition Timer_Reset (d : Duration) (t : Timer) : go Timer :=
  match t with
  | NilTimer => Panic NilDereference
  | _ => Ok (Armed d)
  end.

(** Errors the transaction hands to its consumer or caller. *)
Inductive txError : Type :=
| UnexpectedMessageError
| TxTimeoutError
| TxTransportError (cause : option error).

(** Modelled from the spec: the transport layer [transport.Layer] is
    declared outside [client_tx.go]; [IsReliable] tells whether a transport
    token names a reliable transport. *)
Record Layer := mkLayer { IsReliable : string -> bool }.

(** [clientTx], with the fields of the embedded [commonTx] the client
    transaction uses ([key], [origin], [dest], [tpl], [lastResp],
    [lastErr]) and the FSM it points to: [fsm_invite] tells which of the two
    tables [initFSM] installed, [fsm_state] is the FSM's current state. *)
Record clientTx := mkClientTx {
  key : string * string;
  origin : Request;
  dest : string;
  tpl : Layer;
  lastResp : option Response;
  lastErr : option error;
  fsm_invite : bool;
  fsm_state : state;
  timer_a_time : Duration;
  timer_a : Timer;
  timer_b : Timer;
  timer_d_time : Duration;
  timer_d : Timer;
  reliable : bool
}.

Definition set_lastResp (v : option Response) (tx : clientTx) : clientTx :=
  mkClientTx (key tx) (origin tx) (dest tx) (tpl tx) v (lastErr tx) (fsm_invite tx)
    (fsm_state tx) (timer_a_time tx) (timer_a tx) (timer_b tx) (timer_d_time tx)
    (timer_d tx) (reliable tx).
Definition set_lastErr (v : option error) (tx : clientTx) : clientTx :=
  mkClientTx (key tx) (origin tx) (dest tx) (tpl tx) (lastResp tx) v (fsm_invite tx)
    (fsm_state tx) (timer_a_time tx) (timer_a tx) (timer_b tx) (timer_d_time tx)
    (timer_d tx) (reliable tx).
Definition set_fsm_state (v : state) (tx : clientTx) : clientTx :=
  mkClientTx (key tx) (origin tx) (dest tx) (tpl tx) (lastResp tx) (lastErr tx)
    (fsm_invite tx) v (timer_a_time tx) (timer_a tx) (timer_b tx) (timer_d_time tx)
    (timer_d tx) (reliable tx).
Definition set_timer_a (d : Duration) (t : Timer) (tx : clientTx) : clientTx :=
  mkClientTx (key tx) (origin tx) (dest tx) (tpl tx) (lastResp tx) (lastErr tx)
    (fsm_invite tx) (fsm_state tx) d t (timer_b tx) (timer_d_time tx)
    (timer_d tx) (reliable tx).
Definition set_timer_b (t : Timer) (tx : clientTx) : clientTx :=
  mkClientTx (key tx) (origin tx) (dest tx) (tpl tx) (lastResp tx) (lastErr tx)
    (fsm_invite tx) (fsm_state tx) (timer_a_time tx) (timer_a tx) t (timer_d_time tx)
    (timer_d tx) (reliable tx).
Definition set_timer_d (t : Timer) (tx : clientTx) : clientTx :=
  mkClientTx (key tx) (origin tx) (dest tx) (tpl tx) (lastResp tx) (lastErr tx)
    (fsm_invite tx) (fsm_state tx) (timer_a_time tx) (timer_a tx) (timer_b tx)
    (timer_d_time tx) t (reliable tx).

(** What surrounds a transaction: [sendResults] scripts the results of the
    coming [tpl.Send] calls ([nil] once exhausted), [sent] records the calls
    made, [msgs] and [errs] what has been sent down the consumer's two
    channels, [deleted] the calls of [tx.delete()]. *)
Record world := mkWorld {
  sendResults : list (option error);
  sent : list (string * Message * option error);
  msgs : list Response;
  errs : list txError;
  deleted : nat
}.

Definition newWorld (script : list (option error)) : world :=
  mkWorld script [] [] [] O.

(** [tx.tpl.Send(dest, msg)] *)
Definition Send (d : string) (m : Message) (w : world) : world * option error :=
  let r := match sendResults w with r :: _ => r | [] => None end in
  (mkWorld (tl (sendResults w)) (sent w ++ [(d, m, r)]) (msgs w) (errs w) (deleted w), r).

Definition send_msgs (r : Response) (w : world) : world :=
  mkWorld (sendResults w) (sent w) (msgs w ++ [r]) (errs w) (deleted w).
Definition send_errs (e : txError) (w : world) : world :=
  mkWorld (sendResults w) (sent w) (msgs w) (errs w ++ [e]) (deleted w).

(** Modelled from the spec: [transportError], [timeoutError] and [delete]
    belong to the embedded [commonTx], declared outside [client_tx.go].
    Timer B yields a timeout error to the caller, a transport error wraps the
    underlying I/O error, and [delete] requests the transaction's deletion. *)
Definition transportError (tx : clientTx) (w : world) : world :=
  send_errs (TxTransportError (lastErr tx)) w.
Definition timeoutError (tx : clientTx) (w : world) : world :=
  send_errs TxTimeoutError w.
Definition delete_ (tx : clientTx) (w : world) : world :=
  mkWorld (sendResults w) (sent w) (msgs w) (errs w) (S (deleted w)).

(** What an action leaves behind: the transaction, the world, the inputs
    it has spun into the FSM while running, and the input it returns
    ([fsm.NO_INPUT] is [None]). *)
Definition effect := (clientTx * world * list input * option input)%type.

(** [tx.resend()] *)
Definition resend (tx : clientTx) (w : world) : clientTx * world * list input :=
  let '(w, e) := Send (dest tx) (MsgRequest (origin tx)) w in
  let tx := set_lastErr e tx in
  match e with
  | Some _ => (tx, w, [client_input_transport_err])
  | None => (tx, w, [])
  end.

(** [tx.passUp()] *)
Definition passUp (tx : clientTx) (w : world) : world :=
  match lastResp tx with
  | Some r => send_msgs r w
  | None => w
  end.

(** [tx.ack()].  The method has a value receiver, [func (tx clientTx) ack()]:
    it runs on a copy of the transaction, which it returns here as its first
    result; its callers go on with the transaction they hold.  No ACK is sent
    when the original request has no CSeq or no Via. *)
Definition ack (tx : clientTx) (w : world) : go (clientTx * world * list input) :=
  let ack := NewRequest ACK (Recipient (origin tx)) (ReqSipVersion (origin tx))
                        [] EmptyString in
  let ack := CopyHeaders "From" (MsgRequest (origin tx)) ack in
  let ack := CopyHeaders "Call-ID" (MsgRequest (origin tx)) ack in
  let ack := CopyHeaders "Route" (MsgRequest (origin tx)) ack in
  match Message_CSeq (MsgRequest (origin tx)) with
  | None => Ok (tx, w, [])
  | Some (seqNo, _) =>
      let ack := AppendHeader (CSeq seqNo ACK) ack in
      match Message_Via (MsgRequest (origin tx)) with
      | None => Ok (tx, w, [])
      | Some via =>
          let ack := AppendHeader (Header_Clone (ViaHeader via)) ack in
          match lastResp tx with
          | None => Panic NilDereference
          | Some resp =>
              let ack := CopyHeaders "To" (MsgResponse resp) ack in
              let '(w, err) := Send (dest tx) ack w in
              match err with
              | Some e => Ok (set_lastErr (Some e) tx, w, [client_input_transport_err])
              | None => Ok (tx, w, [])
              end
          end
      end
  end.

(** An [fsm.Action]: a method value of the transaction, run on the
    transaction and the world. *)
Definition Action := clientTx -> world -> go effect.

(** [fsm.NO_ACTION] *)
Definition NO_ACTION : Action := fun tx w => Ok (tx, w, [], None).

Definition act_invite_resend : Action := fun tx w =>
  let d := wrap64 (timer_a_time tx * 2) in
  t ← Timer_Reset d (timer_a tx);
  let tx := set_timer_a d t tx in
  let '(tx, w, spun) := resend tx w in
  Ok (tx, w, spun, None).

Definition act_non_invite_resend : Action := fun tx w =>
  let d := wrap64 (timer_a_time tx * 2) in
  (* For non-INVITE, cap timer A at T2 seconds. *)
  let d := if d >? T2 then T2 else d in
  t ← Timer_Reset d (timer_a tx);
  let tx := set_timer_a d t tx in
  let '(tx, w, spun) := resend tx w in
  Ok (tx, w, spun, None).

Definition act_passup : Action := fun tx w =>
  Ok (tx, passUp tx w, [], None).

Definition act_invite_final : Action := fun tx w =>
  let w := passUp tx w in
  '(_, w, spun) ← ack tx w;
  let tx := set_timer_d (Armed (timer_d_time tx)) tx in
  Ok (tx, w, spun, None).

Definition act_non_invite_final : Action := fun tx w =>
  let w := passUp tx w in
  let tx := set_timer_d (Armed (timer_d_time tx)) tx in
  Ok (tx, w, [], None).

Definition act_ack : Action := fun tx w =>
  '(_, w, spun) ← ack tx w;
  Ok (tx, w, spun, None).

Definition act_trans_err : Action := fun tx w =>
  Ok (tx, transportError tx w, [], Some client_input_delete).

Definition act_timeout : Action := fun tx w =>
  Ok (tx, timeoutError tx w, [], Some client_input_delete).

Definition act_passup_delete : Action := fun tx w =>
  Ok (tx, passUp tx w, [], Some client_input_delete).

Definition act_delete : Action := fun tx w =>
  Ok (tx, delete_ tx w, [], None).

(** [fsm.Outcome]: the next state and the action to run. *)
Definition Outcome := (state * Action)%type.

(** The table [initInviteFSM] defines: the [Outcomes] map of each state.
    An input absent from a state's map has no outcome. *)
Definition inviteFSM (s : state) (i : input) : option Outcome :=
  match s, i with
  | client_state_calling, client_input_1xx => Some (client_state_proceeding, act_passup)
  | client_state_calling, client_input_2xx => Some (client_state_terminated, act_passup_delete)
  | client_state_calling, client_input_300_plus => Some (client_state_completed, act_invite_final)
  | client_state_calling, client_input_timer_a => Some (client_state_calling, act_invite_resend)
  | client_state_calling, client_input_timer_b => Some (client_state_terminated, act_timeout)
  | client_state_calling, client_input_transport_err => Some (client_state_terminated, act_trans_err)
  | client_state_proceeding, client_input_1xx => Some (client_state_proceeding, act_passup)
  | client_state_proceeding, client_input_2xx => Some (client_state_terminated, act_passup_delete)
  | client_state_proceeding, client_input_300_plus => Some (client_state_completed, act_invite_final)
  | client_state_proceeding, client_input_timer_a => Some (client_state_proceeding, NO_ACTION)
  | client_state_proceeding, client_input_timer_b => Some (client_state_proceeding, NO_ACTION)
  | client_state_completed, client_input_1xx => Some (client_state_completed, NO_ACTION)
  | client_state_completed, client_input_2xx => Some (client_state_completed, NO_ACTION)
  | client_state_completed, client_input_300_plus => Some (client_state_completed, act_ack)
  | client_state_completed, client_input_transport_err => Some (client_state_terminated, act_trans_err)
  | client_state_completed, client_input_timer_a => Some (client_state_completed, NO_ACTION)
  | client_state_completed, client_input_timer_b => Some (client_state_completed, NO_ACTION)
  | client_state_completed, client_input_timer_d => Some (client_state_terminated, act_delete)
  | client_state_terminated, client_input_1xx => Some (client_state_terminated, NO_ACTION)
  | client_state_terminated, client_input_2xx => Some (client_state_terminated, NO_ACTION)
  | client_state_terminated, client_input_300_plus => Some (client_state_terminated, NO_ACTION)
  | client_state_terminated, client_input_timer_a => Some (client_state_terminated, NO_ACTION)
  | client_state_terminated, client_input_timer_b => Some (client_state_terminated, NO_ACTION)
  | client_state_terminated, client_input_timer_d => Some (client_state_terminated, NO_ACTION)
  | client_state_terminated, client_input_delete => Some (client_state_terminated, act_delete)
  | _, _ => None
  end.

(** The table [initNonInviteFSM] defines. *)
Definition nonInviteFSM (s : state) (i : input) : option Outcome :=
  match s, i with
  | client_state_calling, client_input_1xx => Some (client_state_proceeding, act_passup)
  | client_state_calling, client_input_2xx => Some (client_state_completed, act_non_invite_final)
  | client_state_calling, client_input_300_plus => Some (client_state_completed, act_non_invite_final)
  | client_state_calling, client_input_timer_a => Some (client_state_calling, act_non_invite_resend)
  | client_state_calling, client_input_timer_b => Some (client_state_terminated, act_timeout)
  | client_state_calling, client_input_transport_err => Some (client_state_terminated, act_trans_err)
  | client_state_proceeding, client_input_1xx => Some (client_state_proceeding, act_passup)
  | client_state_proceeding, client_input_2xx => Some (client_state_completed, act_non_invite_final)
  | client_state_proceeding, client_input_300_plus => Some (client_state_completed, act_non_invite_final)
  | client_state_proceeding, client_input_timer_a => Some (client_state_proceeding, act_non_invite_resend)
  | client_state_proceeding, client_input_timer_b => Some (client_state_terminated, act_timeout)
  | client_state_proceeding, client_input_transport_err => Some (client_state_terminated, act_trans_err)
  | client_state_completed, client_input_1xx => Some (client_state_completed, NO_ACTION)
  | client_state_completed, client_input_2xx => Some (client_state_completed, NO_ACTION)
  | client_state_completed, client_input_300_plus => Some (client_state_completed, NO_ACTION)
  | client_state_completed, client_input_timer_d => Some (client_state_terminated, act_delete)
  | client_state_completed, client_input_timer_a => Some (client_state_completed, NO_ACTION)
  | client_state_completed, client_input_timer_b => Some (client_state_completed, NO_ACTION)
  | client_state_terminated, client_input_1xx => Some (client_state_terminated, NO_ACTION)
  | client_state_terminated, client_input_2xx => Some (client_state_terminated, NO_ACTION)
  | client_state_terminated, client_input_300_plus => Some (client_state_terminated, NO_ACTION)
  | client_state_terminated, client_input_timer_a => Some (client_state_terminated, NO_ACTION)
  | client_state_terminated, client_input_timer_b => Some (client_state_terminated, NO_ACTION)
  | client_state_terminated, client_input_timer_d => Some (client_state_terminated, NO_ACTION)
  | client_state_terminated, client_input_delete => Some (client_state_terminated, act_delete)
  | _, _ => None
  end.

(** The table [initFSM] installed. *)
Definition fsm_outcomes (tx : clientTx) : state -> input -> option Outcome :=
  if fsm_invite tx then inviteFSM else nonInviteFSM.

(** Modelled from the spec: the FSM engine is a third-party package.  The
    specification describes [spin()] as the serialising point of an event
    queue of typed inputs: an input spun while another is being handled is
    queued and handled next, a cell of the table is (next state, action), and
    an input outside the table is a no-op.  [spin_loop] handles the queue,
    one input per round, and returns what is left of it when the rounds run
    out. *)
Fixpoint spin_loop (rounds : nat) (queue : list input) (tx : clientTx) (w : world)
    : go (clientTx * world * list input) :=
  match rounds, queue with
  | _, [] => Ok (tx, w, [])
  | O, _ => Ok (tx, w, queue)
  | S rounds', i :: queue' =>
      match fsm_outcomes tx (fsm_state tx) i with
      | None => spin_loop rounds' queue' tx w
      | Some (next, act) =>
          '(tx, w, spun, ret) ← act tx w;
          let tx := set_fsm_state next tx in
          let ret := match ret with Some r => [r] | None => [] end in
          spin_loop rounds' (queue' ++ spun ++ ret) tx w
      end
  end.

(** [tx.fsm.Spin(input)]: an input leads to at most a transport error and
    a delete after it, so four rounds drain the queue ([spin_loop_drains]). *)
Definition Spin (i : input) (tx : clientTx) (w : world) : go (clientTx * world) :=
  '(tx, w, _) ← spin_loop 4 [i] tx w;
  Ok (tx, w).

(** Modelled from the spec: [IsProvisional] and [IsSuccess] are declared in
    package [core]; a response is 1xx for 100-199 and 2xx for 200-299. *)
Definition IsProvisional (res : Response) : bool :=
  (100 <=? StatusCode res) && (StatusCode res <=? 199).
Definition IsSuccess (res : Response) : bool :=
  (200 <=? StatusCode res) && (StatusCode res <=? 299).

(** [tx.Receive(msg)]: the transaction, the world and the error returned. *)
Definition Receive (msg : Message) (tx : clientTx) (w : world)
    : go (clientTx * world * option txError) :=
  match msg with
  | MsgRequest _ => Ok (tx, w, Some UnexpectedMessageError)
  | MsgResponse res =>
      let tx := set_lastResp (Some res) tx in
      let input :=
        if IsProvisional res then client_input_1xx
        else if IsSuccess res then client_input_2xx
        else client_input_300_plus in
      '(tx, w) ← Spin input tx w;
      Ok (tx, w, None)
  end.

(** Modelled from the spec: the transaction key of RFC 3261 17.1.3, the
    branch parameter of the top Via with the CSeq method ([makeClientTxKey]
    is declared outside [client_tx.go]). *)
Definition makeClientTxKey (origin_ : Request) : go (string * string) :=
  match Message_ViaHop (MsgRequest origin_), Message_CSeq (MsgRequest origin_) with
  | Some hop, Some (_, method) =>
      match Params_Get "branch" (HopParams hop) with
      | Some (Some branch) => Ok (branch, method)
      | _ => Fail (Errorf "no branch parameter on top Via header")
      end
  | _, _ => Fail (Errorf "no Via or CSeq header on request")
  end.

(** Modelled from the spec: [Request.IsInvite()] of package [core]. *)
Definition IsInvite (r : Request) : bool := String.eqb (Method r) INVITE.

(** [NewClientTx(origin, dest, tpl, msgs, errs, cancel)] *)
Definition NewClientTx (origin_ : Request) (dest_ : string) (tpl_ : Layer)
    : go clientTx :=
  key_ ← makeClientTxKey origin_;
  let reliable_ :=
    match Message_ViaHop (MsgRequest origin_) with
    | Some viaHop => IsReliable tpl_ (Transport viaHop)
    | None => false
    end in
  let '(timer_a_time_, timer_a_) :=
    if negb reliable_ then (Timer_A, Armed Timer_A) else (0, NilTimer) in
  let timer_d_time_ := if reliable_ then 0 else Timer_D in
  Ok (mkClientTx key_ origin_ dest_ tpl_ None None (IsInvite origin_)
        client_state_calling timer_a_time_ timer_a_ (Armed Timer_B)
        timer_d_time_ NilTimer reliable_).

(** What reaches a transaction from outside: a message handed to
    [Receive], or one of its timers firing.  A timer fires only while it is
    armed, and then runs the function it was given, which spins the timer's
    input. *)
Inductive stimulus : Type :=
| Received (msg : Message)
| TimerA
| TimerB
| TimerD.

Definition deliver (s : stimulus) (tx : clientTx) (w : world)
    : go (clientTx * world) :=
  match s with
  | Received msg => '(tx, w, _) ← Receive msg tx w; Ok (tx, w)
  | TimerA =>
      match timer_a tx with
      | Armed _ => Spin client_input_timer_a (set_timer_a (timer_a_time tx) Fired tx) w
      | _ => Ok (tx, w)
      end
  | TimerB =>
      match timer_b tx with
      | Armed _ => Spin client_input_timer_b (set_timer_b Fired tx) w
      | _ => Ok (tx, w)
      end
  | TimerD =>
      match timer_d tx with
      | Armed _ => Spin client_input_timer_d (set_timer_d Fired tx) w
      | _ => Ok (tx, w)
      end
  end.

Fixpoint run (ss : list stimulus) (tx : clientTx) (w : world)
    : go (clientTx * world) :=
  match ss with
  | [] => Ok (tx, w)
  | s :: ss' => '(tx, w) ← deliver s tx w; run ss' tx w
  end.

(** A final response is one that is not provisional. *)
Definition is_final (r : Response) : bool := negb (IsProvisional r).

(** The terminal signals that have reached the consumer: final responses
    passed up, and errors (timeout or transport error). *)
Definition final_responses (w : world) : nat :=
  List.length (List.filter is_final (msgs w)).
Definition terminal_signals (w : world) : nat :=
  (final_responses w + List.length (errs w))%nat.

(** The period of timer A after [n] firings of timer A on a transaction
    whose sends succeed, [None] if the transaction no longer runs. *)
Fixpoint period_after (n : nat) (tx : clientTx) (w : world) : option Duration :=
  match n with
  | O => Some (timer_a_time tx)
  | S n' =>
      match deliver TimerA tx w with
      | Ok (tx', w') => period_after n' tx' w'
      | _ => None
      end
  end.

(** What the state of the FSM says about the signals that have reached the
    consumer; [invite] tells which table the transaction runs. *)
Definition signals_bound (invite : bool) (tx : clientTx) (w : world) : Prop :=
  fsm_invite tx = invite /\
  match fsm_state tx with
  | client_state_calling | client_state_proceeding =>
      final_responses w = O /\ errs w = []
  | client_state_completed =>
      (final_responses w <= 1)%nat /\ errs w = []
  | client_state_terminated =>
      (final_responses w <= 1)%nat /\ (List.length (errs w) <= 1)%nat /\
      (invite = false -> (terminal_signals w <= 1)%nat)
  end.

(** The ACK of [tx.ack()] for a transaction whose original request has the
    CSeq number [seqNo] and the top Via [via], answering [res]. *)
Definition ack_request (tx : clientTx) (seqNo : Z) (via : list ViaHop)
    (res : Response) : Message :=
  NewRequest ACK (Recipient (origin tx)) (ReqSipVersion (origin tx))
    (GetHeaders "From" (MsgRequest (origin tx))
     ++ GetHeaders "Call-ID" (MsgRequest (origin tx))
     ++ GetHeaders "Route" (MsgRequest (origin tx))
     ++ [CSeq seqNo ACK; ViaHeader via]
     ++ GetHeaders "To" (MsgResponse res))%list
    EmptyString.

(** The order in which the states of a client transaction follow each
    other. *)
Definition rank (s : state) : nat :=
  match s with
  | client_state_calling => 0
  | client_state_proceeding => 1
  | client_state_completed => 2
  | client_state_terminated => 3
  end.

(** Whether a message handed to the transport is an ACK request. *)
Definition is_ack (m : Message) : bool :=
  match m with
  | MsgRequest r => String.eqb (Method r) ACK
  | MsgResponse _ => false
  end.

(** What a transaction may hand to the transport: the original request
    (a retransmission, which needs timer A: [nil_a] tells that the
    transaction has none) or, on an INVITE transaction, an ACK; always to the
    transaction's destination. *)
Definition send_ok (invite nil_a : bool) (o : Request) (d : string)
    (e : string * Message * option error) : Prop :=
  fst (fst e) = d /\
  (snd (fst e) = MsgRequest o /\ nil_a = false \/
   is_ack (snd (fst e)) = true /\ invite = true).

(** The calls of [tx.delete()] follow the state: none before the
    transaction is terminated, one from then on. *)
Definition deleted_inv (tx : clientTx) (w : world) : Prop :=
  deleted w = match fsm_state tx with
              | client_state_terminated => 1%nat
              | _ => 0%nat
              end.

End Transaction.

(* ===================================================================== *)
(** ** Concrete inputs used by the examples below                        *)
(* ===================================================================== *)

Module Examples.
Import Str Syntax.

Definition line (s : string) : string := (s ++ CRLF)%string.

(** A response without a Content-Length header, and a well-formed one. *)
Definition resp_no_length : string :=
  (line "SIP/2.0 200 OK" ++ CRLF)%string.
Definition resp_ping : string :=
  (line "SIP/2.0 200 OK" ++ line "Content-Length: 4" ++ CRLF ++ "ping")%string.

(** A request whose Contact header has a white-space-only section. *)
Definition req_blank_contact : string :=
  (line "INVITE sip:bob@example.com SIP/2.0"
   ++ line "Contact: sip:a@b, ,sip:c@d" ++ CRLF)%string.

(** A request with no blank line after its headers. *)
Definition req_no_blank_line : string :=
  (line "OPTIONS sip:bob@example.com SIP/2.0" ++ line "Call-ID: a@b")%string.

Definition bob : Uri :=
  SipUriPtr (mkSipUri false (Some "bob") None "example.com" None [] []).
Definition alice : Uri :=
  SipUriPtr (mkSipUri false (Some "alice") None "example.com" None [] []).

Definition top_via : list ViaHop :=
  [mkViaHop "SIP" "2.0" "UDP" "client.example.com" (Some 5060)
            [("branch", Some "z9hG4bK-1")]].

Definition request_headers (method : string) : list Header :=
  [ ViaHeader top_via;
    GenericHeader "Route" "<sip:proxy.example.com;lr>";
    ToHeader None bob [];
    FromHeader None alice [("tag", Some "1")];
    CallID "a@b";
    CSeq 1 method ].

(** An INVITE and an OPTIONS request sent over UDP. *)
Definition invite : Request :=
  mkRequest "INVITE" bob "SIP/2.0" (request_headers "INVITE") EmptyString.
Definition options : Request :=
  mkRequest "OPTIONS" bob "SIP/2.0" (request_headers "OPTIONS") EmptyString.

(** The 404 answer to it, with the tag the server put on To. *)
Definition not_found : Response :=
  mkResponse "SIP/2.0" 404 "Not Found"
    [ ViaHeader top_via;
      ToHeader None bob [("tag", Some "9")];
      FromHeader None alice [("tag", Some "1")];
      CallID "a@b";
      CSeq 1 "INVITE" ]
    EmptyString.

(** A transport layer on which only TCP and TLS are reliable. *)
Definition udp_layer : Transaction.Layer :=
  Transaction.mkLayer (fun t => String.eqb t "TCP" || String.eqb t "TLS").

Definition io_error : error := Errorf "write: connection refused".

(** The transactions [NewClientTx] creates for the two requests. *)
Definition invite_tx : Transaction.clientTx :=
  Transaction.mkClientTx ("z9hG4bK-1", "INVITE") invite "example.com:5060" udp_layer
    None None true Transaction.client_state_calling
    Transaction.Timer_A (Transaction.Armed Transaction.Timer_A)
    (Transaction.Armed Transaction.Timer_B) Transaction.Timer_D
    Transaction.NilTimer false.
Definition options_tx : Transaction.clientTx :=
  Transaction.mkClientTx ("z9hG4bK-1", "OPTIONS") options "example.com:5060" udp_layer
    None None false Transaction.client_state_calling
    Transaction.Timer_A (Transaction.Armed Transaction.Timer_A)
    (Transaction.Armed Transaction.Timer_B) Transaction.Timer_D
    Transaction.NilTimer false.

Definition conn1 : Transport.Connection := Transport.mkConnection 1 true.
Definition conn2 : Transport.Connection := Transport.mkConnection 2 true.

End Examples.

(* ===================================================================== *)
(** ** Facts about the string functions                                  *)
(* ===================================================================== *)

Module StrFacts.
Import Str.

Lemma eqb_byte_true (a b : byte) : eqb_byte a b = true <-> a = b.
Proof. unfold eqb_byte. apply Ascii.eqb_eq. Qed.

Lemma len_nonneg (s : string) : 0 <= len s.
Proof. unfold len. lia. Qed.

Lemma len_app (a b : string) : len (a ++ b)%string = len a + len b.
Proof.
  assert (H : String.length (a ++ b)%string
              = (String.length a + String.length b)%nat).
  { induction a as [|c a IH]; simpl; [reflexivity|]. now rewrite IH. }
  unfold len. rewrite H. lia.
Qed.

Lemma at_head (c : byte) (s : string) : at_ (String c s) 0 = Ok c.
Proof.
  unfold at_.
  replace (0 <? len (String c s)) with true
    by (symmetry; apply Z.ltb_lt; unfold len; cbn [String.length]; lia).
  reflexivity.
Qed.

Lemma HasPrefix_app (p r : string) : HasPrefix (p ++ r)%string p = true.
Proof.
  induction p as [|c p IH]; simpl.
  - destruct r; reflexivity.
  - rewrite IH. unfold eqb_byte. rewrite Ascii.eqb_refl. reflexivity.
Qed.

Lemma HasPrefix_true (s p : string) :
  HasPrefix s p = true -> exists r, s = (p ++ r)%string.
Proof.
  revert s. induction p as [|c p IH]; intros s H.
  - exists s. reflexivity.
  - destruct s as [|d s]; simpl in H; [discriminate|].
    apply andb_prop in H as [Hc Hp].
    apply eqb_byte_true in Hc. subst d.
    destruct (IH s Hp) as [r ->]. exists r. reflexivity.
Qed.

(** [strings.Index] returns [-1] on a text in which the pattern does not
    occur. *)
Lemma index_nat_absent (s sub : string) :
  (forall pre post, s <> (pre ++ sub ++ post)%string) ->
  index_nat s sub = None.
Proof.
  induction s as [|c s IH]; intros Habs.
  - cbn [index_nat]. destruct (HasPrefix EmptyString sub) eqn:Hp; [|reflexivity].
    apply HasPrefix_true in Hp as [r Hr].
    exfalso. apply (Habs EmptyString r). exact Hr.
  - cbn [index_nat]. destruct (HasPrefix (String c s) sub) eqn:Hp.
    + apply HasPrefix_true in Hp as [r Hr].
      exfalso. apply (Habs EmptyString r). exact Hr.
    + rewrite IH; [reflexivity|].
      intros pre post Heq. apply (Habs (String c pre) post).
      simpl. rewrite Heq. reflexivity.
Qed.

(** ... and the offset of an occurrence otherwise. *)
Lemma index_nat_found (s sub : string) (n : nat) :
  index_nat s sub = Some n ->
  exists post, drop n s = (sub ++ post)%string.
Proof.
  revert n. induction s as [|c s IH]; intros n H; cbn [index_nat] in H.
  - destruct (HasPrefix EmptyString sub) eqn:Hp; [|discriminate].
    injection H as <-. apply HasPrefix_true in Hp as [r Hr]. exists r. exact Hr.
  - destruct (HasPrefix (String c s) sub) eqn:Hp.
    + injection H as <-. apply HasPrefix_true in Hp as [r Hr]. exists r. exact Hr.
    + destruct (index_nat s sub) as [m|] eqn:Hm; [|discriminate].
      injection H as <-. simpl. apply IH. reflexivity.
Qed.

Lemma Index_absent (s sub : string) :
  (forall pre post, s <> (pre ++ sub ++ post)%string) -> Index s sub = -1.
Proof. intros H. unfold Index. rewrite (index_nat_absent _ _ H). reflexivity. Qed.

Lemma Split_nonempty (s : string) (sep : byte) :
  exists p ps, Split s sep = p :: ps.
Proof.
  induction s as [|c s IH]; simpl.
  - eauto.
  - destruct (eqb_byte c sep); [eauto|].
    destruct IH as (p & ps & ->). eauto.
Qed.

(** Splitting a text at the first separator. *)
Lemma Split_app (a b : string) (sep : byte) :
  mem_byte sep a = false ->
  Split (a ++ String sep b)%string sep = a :: Split b sep.
Proof.
  induction a as [|c a IH]; simpl; intros H.
  - unfold eqb_byte. rewrite Ascii.eqb_refl. reflexivity.
  - apply orb_false_elim in H as [Hc Ha].
    replace (eqb_byte c sep) with false.
    + rewrite (IH Ha). reflexivity.
    + unfold eqb_byte in *. rewrite Ascii.eqb_sym. symmetry. exact Hc.
Qed.

Lemma decimal_nonneg (s : string) (acc : Z) :
  0 <= acc -> all_digits s = true -> 0 <= decimal acc s.
Proof.
  revert acc. induction s as [|c s IH]; simpl; intros acc Hacc Hd; [lia|].
  apply andb_prop in Hd as [Hc Hs]. apply IH; [|exact Hs].
  unfold is_digit in Hc. apply andb_prop in Hc as [Hlo _].
  apply Z.leb_le in Hlo. lia.
Qed.

(** [strconv.ParseUint(s, 10, bits)] yields a value of [bits] bits. *)
Lemma ParseUint_range (s : string) (bits v : Z) :
  ParseUint s bits = Ok v -> 0 <= v < 2 ^ bits.
Proof.
  unfold ParseUint. destruct s as [|c s]; [discriminate|].
  destruct (all_digits (String c s)) eqn:Hd; [|discriminate].
  destruct (decimal 0 (String c s) <? 2 ^ bits) eqn:Hlt; [|discriminate].
  intros [= <-]. apply Z.ltb_lt in Hlt.
  pose proof (decimal_nonneg (String c s) 0 (Z.le_refl 0) Hd) as Hnn.
  split; [exact Hnn|exact Hlt].
Qed.

End StrFacts.

(* ===================================================================== *)
(** ** The parser                                                        *)
(* ===================================================================== *)

Module ParserProps.
Import Str Syntax StrFacts Examples.

Lemma index_nat_present (pre sub post : string) :
  index_nat (pre ++ sub ++ post)%string sub <> None.
Proof.
  induction pre as [|c pre IH].
  - change (EmptyString ++ sub ++ post)%string with (sub ++ post)%string.
    destruct (sub ++ post)%string eqn:E; cbn [index_nat];
      rewrite <- E, HasPrefix_app; discriminate.
  - change (String c pre ++ sub ++ post)%string
      with (String c (pre ++ sub ++ post)%string).
    cbn [index_nat].
    destruct (HasPrefix (String c (pre ++ sub ++ post)) sub); [discriminate|].
    destruct (index_nat (pre ++ sub ++ post) sub); [discriminate|].
    exfalso. apply IH. reflexivity.
Qed.

(** A text on which [strings.Index] answers [-1] holds no occurrence. *)
Lemma index_nat_None_absent (s sub : string) :
  index_nat s sub = None ->
  forall pre post, s <> (pre ++ sub ++ post)%string.
Proof.
  intros H pre post ->. exact (index_nat_present pre sub post H).
Qed.

(** [Write] never looks at the terminal error: on a parser that is not
    stopped it queues the data and reports it accepted. *)
Lemma Write_ignores_terminal_error (p : parser) (data : string) (e : option error) :
  snd (Write data (setError e p)) = snd (Write data p) /\
  (stopped p = false -> snd (Write data (setError e p)) = Ok (len data)).
Proof.
  unfold Write, setError. simpl.
  destruct (stopped p); split; try reflexivity; discriminate.
Qed.

(** C1 (evaluation of the code at the failing input): in stream mode a
    response without Content-Length makes the parse task record the terminal
    MalformedMessage error and wait for more input; the next [Write], made
    with the error still recorded and before any [Reset], returns
    [n = len(data)] with a nil error instead of the recorded error, and the
    message it carries is parsed and published. *)
Theorem Write_after_terminal_error :
  let p1 := parse 100 (fst (Write resp_no_length (NewParser true))) in
  let malformed :=
    MalformedMessageError
      (Errorf "missing required 'Content-Length' header; parser: %s") in
  getError p1 = Some malformed /\
  errs p1 = [malformed] /\
  output p1 = [] /\
  parse_step p1 = None /\
  snd (Write resp_ping p1) = Ok (len resp_ping) /\
  getError (fst (Write resp_ping p1)) = Some malformed /\
  output (parse 100 (fst (Write resp_ping p1)))
    = [NewResponse "SIP/2.0" 200 "OK" [ContentLength 4] "ping"].
Proof. vm_compute. repeat split; reflexivity. Qed.

(** A section that is not empty but holds white space only passes the
    emptiness check of [parseAddressValue] and is then indexed at 0 after
    trimming. *)
Lemma parseAddressValue_blank (s : string) :
  s <> EmptyString -> TrimSpace s = EmptyString ->
  parseAddressValue s = Panic (IndexOutOfRange 0 0).
Proof.
  intros Hne Htrim. unfold parseAddressValue.
  destruct s as [|c s]; [contradiction|].
  replace (len (String c s) =? 0) with false.
  - rewrite Htrim. reflexivity.
  - symmetry. apply Z.eqb_neq. unfold len. simpl. lia.
Qed.

(** C3 (evaluation of the code at the failing input): an address header
    with a white-space-only section between two valid addresses makes
    [parseAddressValue] index an empty string; the panic is not turned into
    an error by [parseAddressValues], [parseAddressHeader] or the parse task,
    which dies without publishing a message or an error.  (The header
    "a@b, ,c@d" itself is rejected with an error at its first section.) *)
Theorem address_header_blank_section_panics :
  parseAddressValue " " = Panic (IndexOutOfRange 0 0) /\
  parseAddressValues "sip:a@b, ,sip:c@d" = Panic (IndexOutOfRange 0 0) /\
  parseAddressHeader "contact" "sip:a@b, ,sip:c@d" = Panic (IndexOutOfRange 0 0) /\
  (let p := parse 100 (fst (Write req_blank_contact (NewParser false))) in
   task p = Crashed (IndexOutOfRange 0 0) /\ parse_step p = None /\
   output p = [] /\ errs p = []) /\
  parseAddressHeader "contact" "a@b, ,c@d" = Fail (Errorf "no ':' in URI %s").
Proof. vm_compute. repeat split; reflexivity. Qed.

(** C7 (counterexample): the parser accepts the status line
    "SIP/2.0 700 X" with status code 700, above 699; and for
    "SIP/2.0 404 Not Found" the reason phrase it returns is "NotFound". *)
Lemma parseStatusLine_counterexample :
  parseStartLine "SIP/2.0 700 X" = Ok (NewResponse "SIP/2.0" 700 "X" [] EmptyString) /\
  parseStatusLine "SIP/2.0 700 X" = Ok ("SIP/2.0", 700, "X") /\
  ~ (0 <= 700 <= 699) /\
  parseStatusLine "SIP/2.0 404 Not Found" = Ok ("SIP/2.0", 404, "NotFound") /\
  "NotFound" <> "Not Found".
Proof.
  split; [vm_compute; reflexivity|].
  split; [vm_compute; reflexivity|].
  split; [lia|].
  split; [vm_compute; reflexivity|discriminate].
Qed.

(** C7 (amended): a status line the parser accepts has at least three
    space-separated fields; the SIP version is the first, and the status
    code is the decimal value of the second and lies in 0..65535.  Every
    line made of a space-free version, a space, a decimal code below 65536,
    a space and any further text, whatever the number of spaces in it, is
    accepted. *)
Theorem parseStatusLine_accepted :
  (forall (statusLine v r : string) (c : Z),
      parseStatusLine statusLine = Ok (v, c, r) ->
      0 <= c <= 65535 /\
      exists p1 rest,
        Split statusLine space = v :: p1 :: rest /\ rest <> [] /\
        ParseUint p1 16 = Ok c) /\
  (forall (v code reason : string) (c : Z),
      mem_byte space v = false -> mem_byte space code = false ->
      ParseUint code 16 = Ok c ->
      exists r,
        parseStatusLine (v ++ String space (code ++ String space reason))%string
        = Ok (v, c, r)).
Proof.
  split.
  - intros statusLine v r c H. unfold parseStatusLine in H.
    destruct (Split statusLine space) as [|p0 [|p1 [|p2 rest]]] eqn:Hs;
      try discriminate.
    destruct (ParseUint p1 16) as [c'| |] eqn:Hc; try discriminate.
    simpl in H. injection H as <- <- _.
    split.
    + apply ParseUint_range in Hc. lia.
    + exists p1, (p2 :: rest). repeat split; [discriminate|exact Hc].
  - intros v code reason c Hv Hcode Hc.
    unfold parseStatusLine.
    rewrite (Split_app v _ space Hv), (Split_app code _ space Hcode).
    destruct (Split_nonempty reason space) as (p & ps & ->).
    rewrite Hc. simpl. eauto.
Qed.

Lemma parseStatusLine_accepted_witness :
  (0 <= 404 <= 65535) /\
  exists r, parseStatusLine "SIP/2.0 404 Not Very  Found" = Ok ("SIP/2.0", 404, r).
Proof.
  split.
  - apply (proj1 parseStatusLine_accepted "SIP/2.0 404 Not Found" "SIP/2.0" "NotFound" 404).
    vm_compute. reflexivity.
  - apply (proj2 parseStatusLine_accepted "SIP/2.0" "404" "Not Very  Found" 404);
      vm_compute; reflexivity.
Defined.

(** With singletons permitted, a source made of the start delimiter alone
    yields the empty key, whatever the separator, the end delimiter and the
    quoting mode. *)
Lemma parseParams_lone_start (start sep end_ : byte) (quoteValues : bool) :
  start <> zero ->
  parseParams (String start EmptyString) start sep end_ quoteValues true
  = Ok ([(EmptyString, None)], 1).
Proof.
  intros Hstart. unfold parseParams.
  change (len (String start EmptyString) =? 0) with false. cbv iota.
  replace (eqb_byte start zero) with false
    by (symmetry; apply Ascii.eqb_neq; exact Hstart).
  rewrite at_head. cbn. unfold eqb_byte. rewrite Ascii.eqb_refl. reflexivity.
Qed.

Lemma Params_Add_has_value (k v : string) (ps : Params) :
  Forall has_value ps -> Forall has_value (Params_Add k (Some v) ps).
Proof.
  induction ps as [|[k' v'] ps IH]; intros H; cbn.
  - constructor; [discriminate|constructor].
  - inversion H as [|? ? Hkv Hps]; subst.
    destruct (String.eqb k k'); constructor; auto. discriminate.
Qed.

Lemma parseLoop_has_value (sep end_ : byte) (quoteValues : bool) (rest : string) :
  forall st st',
    parseLoop sep end_ quoteValues false rest st = Ok st' ->
    Forall has_value (pp_params st) -> Forall has_value (pp_params st').
Proof.
  induction rest as [|c rest IH]; intros st st' H Hst; cbn in H.
  - injection H as <-. exact Hst.
  - rewrite andb_false_r in H.
    repeat match type of H with
           | (if ?b then _ else _) = _ => destruct b
           end;
      try discriminate H;
      try (injection H as <-; exact Hst);
      try (apply IH in H; [exact H|]; cbn; try exact Hst;
           apply Params_Add_has_value; exact Hst).
Qed.

(** With singletons disallowed, every key of an accepted parameter list
    has a value: a valueless key is rejected with an error. *)
Lemma parseParams_no_valueless_key (source : string) (start sep end_ : byte)
    (quoteValues : bool) (ps : Params) (n : Z) :
  parseParams source start sep end_ quoteValues false = Ok (ps, n) ->
  Forall has_value ps.
Proof.
  unfold parseParams. destruct (len source =? 0).
  - intros [= <- _]. constructor.
  - destruct (if negb (eqb_byte start zero) then _ else _) as [consumed| |];
      cbn; try discriminate.
    destruct (parseLoop _ _ _ _ _ _) as [st| |] eqn:Hloop; cbn; try discriminate.
    apply parseLoop_has_value in Hloop; [|constructor].
    rewrite andb_false_r.
    destruct (pp_inQuotes st); [discriminate|].
    destruct (pp_parsingKey st); [discriminate|].
    intros [= <- _]. apply Params_Add_has_value. exact Hloop.
Qed.

(** C8 (evaluation of the code at the failing input): with singletons
    permitted, an empty key ended by the separator or by the end of the input
    is added to the result with a nil value, and no error is returned; a To
    header with a trailing ';' gets a parameter with the empty key. *)
Theorem parseParams_empty_key :
  parseParams ";" semicolon semicolon zero true true
    = Ok ([(EmptyString, None)], 1) /\
  parseParams ";a=b;;c" semicolon semicolon zero true true
    = Ok ([("a", Some "b"); (EmptyString, None); ("c", None)], 7) /\
  parseParams ";a=b;" semicolon semicolon comma true true
    = Ok ([("a", Some "b"); (EmptyString, None)], 5) /\
  parseAddressHeader "to" "<sip:bob@example.com>;"
    = Ok [ToHeader None bob [(EmptyString, None)]].
Proof. vm_compute. repeat split; reflexivity. Qed.

(** C10: in datagram mode, a [Write] on a running parser whose data holds
    no CRLF CRLF queues for the parse task the body length [len(data) - 3]
    ([strings.Index] answers -1, so the body is taken to start at offset 3),
    and returns no error; the length is positive as soon as the data has
    more than three bytes. *)
Theorem Write_without_blank_line (p : parser) (data : string) :
  streamed p = false -> stopped p = false ->
  (forall pre post, data <> (pre ++ (CRLF ++ CRLF) ++ post)%string) ->
  getBodyLength data = len data - 3 /\
  snd (Write data p) = Ok (len data) /\
  bodyLengths (fst (Write data p)) = (bodyLengths p ++ [(len data - 3, len data)])%list /\
  (3 < len data -> 0 < getBodyLength data).
Proof.
  intros Hstream Hrun Habs.
  assert (Hlen : getBodyLength data = len data - 3).
  { unfold getBodyLength. rewrite (Index_absent _ _ Habs). lia. }
  unfold Write. rewrite Hrun, Hstream. simpl. rewrite Hlen.
  repeat split; try reflexivity. lia.
Qed.

Lemma Write_without_blank_line_witness :
  getBodyLength req_no_blank_line = len req_no_blank_line - 3 /\
  snd (Write req_no_blank_line (NewParser false)) = Ok (len req_no_blank_line) /\
  bodyLengths (fst (Write req_no_blank_line (NewParser false)))
    = [(len req_no_blank_line - 3, len req_no_blank_line)] /\
  0 < getBodyLength req_no_blank_line.
Proof.
  destruct (Write_without_blank_line (NewParser false) req_no_blank_line)
    as (H1 & H2 & H3 & H4).
  - reflexivity.
  - reflexivity.
  - apply index_nat_None_absent. vm_compute. reflexivity.
  - split; [exact H1|]. split; [exact H2|]. split; [exact H3|].
    apply H4. vm_compute. reflexivity.
Defined.

(** What becomes of the spurious length: a datagram request written
    without its blank line, followed by a write of the blank line alone,
    leaves the parse task waiting for a body of [len(data) - 3] bytes. *)
Example datagram_without_blank_line :
  let p1 := parse 100 (fst (Write req_no_blank_line (NewParser false))) in
  let p2 := parse 100 (fst (Write CRLF p1)) in
  (exists msg, task p2 = AtBody msg (len req_no_blank_line - 3)) /\
  input p2 = EmptyString /\ output p2 = [] /\ errs p2 = [].
Proof.
  vm_compute. split; [eexists; reflexivity|]. repeat split; reflexivity.
Qed.

End ParserProps.

(* ===================================================================== *)
(** ** The connection pool                                               *)
(* ===================================================================== *)

Module PoolProps.
Import Transport Examples.

Lemma Get_addHandler (k : ConnKey) (h : connectionHandler) (pool : connectionPool) :
  Get k (addHandler k h pool) = Some (Connection_ h).
Proof.
  unfold Get, getHandler, addHandler. simpl.
  rewrite lookup_insert_eq. reflexivity.
Qed.

(** C4 (counterexample): a key bound to [conn1] stays bound to it when
    [Add] is called for the same key with [conn2]; the call succeeds and
    [Get] then returns [conn1], not [conn2]. *)
Lemma Add_known_key_keeps_connection :
  let pool1 := fst (Add "10.0.0.1:5060" conn1 30 0 NewConnectionPool) in
  let r := Add "10.0.0.1:5060" conn2 30 1 pool1 in
  snd r = None /\
  Get "10.0.0.1:5060" (fst r) = Some conn1 /\
  Get "10.0.0.1:5060" (fst r) <> Some conn2.
Proof.
  vm_compute. split; [reflexivity|]. split; [reflexivity|discriminate].
Qed.

(** C4 (amended): [Add] fails exactly when the pool's parent cancellation
    has fired; right after a successful [Add(k, c, ttl)], [Get(k)] returns
    [(c, true)] if [k] was not in the pool, and otherwise the connection [k]
    was already bound to (the existing handler only gets its expiry
    updated). *)
Theorem Add_then_Get (pool : connectionPool) (k : ConnKey) (c : Connection)
    (ttl : Duration) (now : Time) :
  (snd (Add k c ttl now pool) <> None <-> ctxErr pool <> None) /\
  (snd (Add k c ttl now pool) = None ->
   Get k (fst (Add k c ttl now pool))
   = Some (match Get k pool with Some c0 => c0 | None => c end)).
Proof.
  unfold Add. destruct (ctxErr pool) as [e|] eqn:Hctx.
  - simpl. split; [split; intros _; discriminate|discriminate].
  - unfold Get at 2. destruct (getHandler k pool) as [h|] eqn:Hk; simpl.
    + split; [split; intros H; contradiction|]. intros _.
      rewrite Get_addHandler. reflexivity.
    + split; [split; intros H; contradiction|]. intros _.
      unfold Get, getHandler. simpl. rewrite lookup_insert_eq. reflexivity.
Qed.

Lemma Add_then_Get_witness :
  Get "10.0.0.1:5060" (fst (Add "10.0.0.1:5060" conn1 30 0 NewConnectionPool))
  = Some conn1.
Proof.
  apply (proj2 (Add_then_Get NewConnectionPool "10.0.0.1:5060" conn1 30 0)).
  reflexivity.
Defined.

Lemma expiries_after_eq (calls : list (Time * Duration)) (h : connectionHandler) :
  expiries_after calls h = map (fun c => fst c + snd c) calls.
Proof.
  revert h. induction calls as [|[now ttl] calls IH]; intros h; simpl.
  - reflexivity.
  - rewrite IH. reflexivity.
Qed.

Lemma moves_forward_sorted (prev : Time) (calls : list (Time * Duration)) :
  moves_forward prev calls <->
  Sorted Z.le (prev :: map (fun c => fst c + snd c) calls).
Proof.
  revert prev. induction calls as [|[now ttl] calls IH]; intros prev; simpl.
  - split; [intros _; repeat constructor|trivial].
  - split.
    + intros [Hle Hrest]. constructor.
      * apply IH. exact Hrest.
      * constructor. exact Hle.
    + intros H. inversion H as [|? ? Hs Hhd]; subst.
      inversion Hhd; subst. split; [assumption|]. apply IH. exact Hs.
Qed.

(** C9 (counterexample): a handler created with a ttl of 60 expires at
    instant 60; [Update(10)] at instant 1 moves its expiry back to 11. *)
Lemma Update_moves_expiry_back :
  let h := NewConnectionHandler "10.0.0.1:5060" conn1 60 0 in
  Expiries h = 60 /\
  Expiries (Update 10 1 h) = 11 /\
  ~ (Expiries h <= Expiries (Update 10 1 h)) /\
  expiries_after [(1, 60); (2, 10)] h = [61; 12].
Proof.
  vm_compute. repeat split; try reflexivity. intros H. apply H. reflexivity.
Qed.

(** C9 (amended): [Update(ttl)] sets the expiry instant to the reading of
    the clock plus [ttl], whatever it was before.  The instants observed
    after a sequence of [Update] calls never go back exactly when every call
    is made with [now + ttl] at or after the expiry instant then in force. *)
Theorem Update_expiry (h : connectionHandler) (calls : list (Time * Duration)) :
  (forall ttl now, Expiries (Update ttl now h) = now + ttl) /\
  expiries_after calls h = map (fun c => fst c + snd c) calls /\
  (StronglySorted Z.le (Expiries h :: expiries_after calls h) <->
   moves_forward (Expiries h) calls).
Proof.
  split; [reflexivity|]. split; [apply expiries_after_eq|].
  rewrite expiries_after_eq, moves_forward_sorted. split.
  - apply StronglySorted_Sorted.
  - apply Sorted_StronglySorted. intros x y z. apply Z.le_trans.
Qed.

End PoolProps.

(* ===================================================================== *)
(** ** The client transaction                                            *)
(* ===================================================================== *)

Module TransactionProps.
Import Transaction Examples.

Local Arguments CopyHeaders : simpl never.
Local Arguments AppendHeader : simpl never.
Local Arguments NewRequest : simpl never.
Local Arguments Message_CSeq : simpl never.
Local Arguments Message_Via : simpl never.
Local Arguments final_responses : simpl never.
Local Arguments terminal_signals : simpl never.
Local Arguments is_final : simpl never.
Local Arguments wrap64 : simpl never.
Local Arguments Z.mul : simpl never.
Local Arguments Z.gtb : simpl never.

(** Runs the FSM on a transaction and a world given by their fields. *)
Ltac step_fsm :=
  cbn;
  unfold act_invite_final, act_ack, act_invite_resend, act_non_invite_resend,
         act_non_invite_final, act_passup, act_passup_delete, act_trans_err,
         act_timeout, act_delete, NO_ACTION, ack, resend, passUp, Timer_Reset;
  cbn.
Ltac run_fsm := repeat (progress step_fsm).
Ltac run_fsm_with Hcseq Hvia :=
  repeat (progress (step_fsm; rewrite ?Hcseq, ?Hvia)).

(** Counts the signals of a world given by its fields. *)
Ltac count_signals :=
  unfold terminal_signals, final_responses, delete_, transportError,
    timeoutError, send_msgs, send_errs in *;
  cbn [msgs errs fsm_invite fsm_state set_fsm_state set_lastResp set_lastErr
       set_timer_a set_timer_b set_timer_d fst snd] in *;
  repeat match goal with
         | H : _ /\ _ |- _ => destruct H
         end;
  subst;
  rewrite ?List.filter_app, ?List.length_app;
  cbn [List.filter List.length app];
  repeat match goal with
         | H : is_final _ = _ |- _ => rewrite H
         end;
  cbn [List.length];
  repeat split; try reflexivity; try lia; try (intros; first [lia|congruence]).

Ltac break_match :=
  match goal with
  | H : context [match ?x with _ => _ end] |- _ =>
      first [is_var x
            | match x with Message_CSeq _ => idtac | Message_Via _ => idtac end];
      destruct x eqn:?
  end.

(** Four rounds drain the queue of [Spin]. *)
Lemma spin_loop_drains i tx w tx' w' q :
  spin_loop 4 [i] tx w = Ok (tx', w', q) -> q = [].
Proof.
  destruct tx as [k o d t lr le inv st tat ta tb tdt td rel].
  destruct w as [sr se ms es del].
  destruct i, inv, st; intros H.
  all: repeat (cbn in H;
    unfold act_invite_final, act_ack, act_invite_resend, act_non_invite_resend,
           act_non_invite_final, act_passup, act_passup_delete, act_trans_err,
           act_timeout, act_delete, NO_ACTION, ack, resend, passUp, Timer_Reset in H;
    cbn in H; try break_match; try discriminate H).
  all: injection H as _ _ <-; reflexivity.
Qed.

(** Every stimulus is handled without a panic and keeps the bound. *)
Lemma deliver_bound b s tx w :
  signals_bound b tx w ->
  exists tx' w', deliver s tx w = Ok (tx', w') /\ signals_bound b tx' w'.
Proof.
  destruct tx as [k o d t lr le inv st tat ta tb tdt td rel].
  destruct w as [sr se ms es del].
  unfold signals_bound. cbn [fsm_invite fsm_state errs].
  intros [Hb H]. subst inv.
  destruct s as [[req|res]| | |].
  - eexists _, _; split; [reflexivity|]; split; [reflexivity|exact H].
  - assert (Hf : is_final res = negb (IsProvisional res)) by reflexivity.
    destruct (Message_CSeq (MsgRequest o)) as [[n m]|] eqn:Hcseq;
    destruct (Message_Via (MsgRequest o)) as [via|] eqn:Hvia;
    destruct sr as [|[e|] sr];
    unfold deliver, Receive;
    (destruct (IsProvisional res) eqn:Hp; [|destruct (IsSuccess res) eqn:Hs]);
    cbn [negb] in Hf;
    destruct b, st; run_fsm_with Hcseq Hvia;
    (eexists _, _; (split; [reflexivity|]); cbn; solve [count_signals]).
  - destruct sr as [|[e|] sr]; unfold deliver; cbn; destruct ta;
      try (eexists _, _; split; [reflexivity|]; split; [reflexivity|exact H]);
      destruct b, st; run_fsm;
      (eexists _, _; (split; [reflexivity|]); cbn; solve [count_signals]).
  - unfold deliver; cbn; destruct tb;
      try (eexists _, _; split; [reflexivity|]; split; [reflexivity|exact H]);
      destruct b, st; run_fsm;
      (eexists _, _; (split; [reflexivity|]); cbn; solve [count_signals]).
  - unfold deliver; cbn; destruct td;
      try (eexists _, _; split; [reflexivity|]; split; [reflexivity|exact H]);
      destruct b, st; run_fsm;
      (eexists _, _; (split; [reflexivity|]); cbn; solve [count_signals]).
Qed.

Lemma run_bound b ss tx w :
  signals_bound b tx w ->
  exists tx' w', run ss tx w = Ok (tx', w') /\ signals_bound b tx' w'.
Proof.
  revert tx w. induction ss as [|s ss IH]; intros tx w H.
  - exists tx, w. split; [reflexivity|exact H].
  - destruct (deliver_bound b s tx w H) as (tx1 & w1 & Hd & H1).
    destruct (IH tx1 w1 H1) as (tx2 & w2 & Hr & H2).
    exists tx2, w2. split; [|exact H2].
    cbn [run]. rewrite Hd. exact Hr.
Qed.

Lemma NewClientTx_bound origin_ dest_ tpl_ tx script :
  NewClientTx origin_ dest_ tpl_ = Ok tx ->
  signals_bound (IsInvite origin_) tx (newWorld script).
Proof.
  unfold NewClientTx. destruct (makeClientTxKey origin_) as [k| |]; try discriminate.
  cbn. destruct (negb _); intros [= <-]; repeat split.
Qed.

Lemma signals_bound_le b tx w :
  signals_bound b tx w ->
  (final_responses w <= 1)%nat /\ (List.length (errs w) <= 1)%nat /\
  (b = false -> (terminal_signals w <= 1)%nat).
Proof.
  unfold signals_bound, terminal_signals. intros [_ H].
  destruct (fsm_state tx); destruct H as (H1 & H2); try destruct H2 as (H2 & H3);
    try rewrite H2; cbn [List.length]; repeat split; try lia.
  all: try (intros Hb; specialize (H3 Hb)); lia.
Qed.

(** A response handed to a terminated transaction is recorded as the last
    response and nothing else happens. *)
Lemma Receive_terminated tx w res :
  fsm_state tx = client_state_terminated ->
  Receive (MsgResponse res) tx w = Ok (set_lastResp (Some res) tx, w, None).
Proof.
  destruct tx as [k o d t lr le inv st tat ta tb tdt td rel]. cbn [fsm_state].
  intros ->. unfold Receive.
  destruct (IsProvisional res), (IsSuccess res), inv; reflexivity.
Qed.

(** C2 (counterexample): an INVITE transaction that receives a 404 while
    the transport refuses the ACK passes the final response up and then
    reports a transport error: two terminal signals reach the consumer. *)
Lemma invite_final_then_transport_error :
  NewClientTx invite "example.com:5060" udp_layer = Ok invite_tx /\
  exists tx' w',
    run [Received (MsgResponse not_found)] invite_tx (newWorld [Some io_error])
      = Ok (tx', w') /\
    msgs w' = [not_found] /\
    errs w' = [TxTransportError None] /\
    terminal_signals w' = 2%nat.
Proof.
  split; [vm_compute; reflexivity|].
  eexists _, _. split; [vm_compute; reflexivity|].
  vm_compute. repeat split; reflexivity.
Qed.

(** C2 (amended): for every created client transaction and every sequence
    of received messages and timer firings, at most one final response and at
    most one error (timeout or transport error) reach the consumer, and at
    most one terminal signal in all when the transaction is not an INVITE
    one (an INVITE transaction can report a transport error after its 3xx+
    final response).  A response delivered to a terminated transaction runs
    no action and produces no output. *)
Theorem client_tx_terminal_signals (origin_ : Request) (dest_ : string)
    (tpl_ : Layer) (script : list (option error)) (ss : list stimulus)
    (tx : clientTx) :
  NewClientTx origin_ dest_ tpl_ = Ok tx ->
  (exists tx' w',
      run ss tx (newWorld script) = Ok (tx', w') /\
      (final_responses w' <= 1)%nat /\
      (List.length (errs w') <= 1)%nat /\
      (IsInvite origin_ = false -> (terminal_signals w' <= 1)%nat)) /\
  (forall (tx1 : clientTx) (w1 : world) (res : Response),
      fsm_state tx1 = client_state_terminated ->
      Receive (MsgResponse res) tx1 w1 = Ok (set_lastResp (Some res) tx1, w1, None) /\
      forall i, In i [client_input_1xx; client_input_2xx; client_input_300_plus] ->
                fsm_outcomes tx1 client_state_terminated i
                = Some (client_state_terminated, NO_ACTION)).
Proof.
  intros Hnew. split.
  - pose proof (NewClientTx_bound _ _ _ _ script Hnew) as H0.
    destruct (run_bound _ ss _ _ H0) as (tx' & w' & Hrun & H1).
    exists tx', w'. split; [exact Hrun|]. exact (signals_bound_le _ _ _ H1).
  - intros tx1 w1 res Hst. split; [exact (Receive_terminated tx1 w1 res Hst)|].
    intros i Hi. unfold fsm_outcomes.
    destruct (fsm_invite tx1); cbn in Hi;
      destruct Hi as [<-|[<-|[<-|[]]]]; reflexivity.
Qed.

Lemma client_tx_terminal_signals_witness :
  (exists tx' w',
      run [Received (MsgResponse not_found); TimerD; Received (MsgResponse not_found)]
          options_tx (newWorld [Some io_error]) = Ok (tx', w') /\
      (final_responses w' <= 1)%nat /\
      (List.length (errs w') <= 1)%nat /\
      (IsInvite options = false -> (terminal_signals w' <= 1)%nat)) /\
  (forall (tx1 : clientTx) (w1 : world) (res : Response),
      fsm_state tx1 = client_state_terminated ->
      Receive (MsgResponse res) tx1 w1 = Ok (set_lastResp (Some res) tx1, w1, None) /\
      forall i, In i [client_input_1xx; client_input_2xx; client_input_300_plus] ->
                fsm_outcomes tx1 client_state_terminated i
                = Some (client_state_terminated, NO_ACTION)).
Proof.
  apply (client_tx_terminal_signals options "example.com:5060" udp_layer).
  vm_compute. reflexivity.
Defined.

Lemma wrap64_small z : - 2 ^ 63 <= z < 2 ^ 63 -> wrap64 z = z.
Proof. intros H. unfold wrap64. rewrite Z.mod_small; lia. Qed.

Lemma wrap64_range z : - 2 ^ 63 <= wrap64 z < 2 ^ 63.
Proof.
  unfold wrap64. pose proof (Z.mod_pos_bound (z + 2 ^ 63) (2 ^ 64)). lia.
Qed.

Lemma wrap64_mul a b : wrap64 (wrap64 a * b) = wrap64 (a * b).
Proof.
  unfold wrap64. f_equal.
  rewrite (Z.mod_eq (a + 2 ^ 63) (2 ^ 64)) by lia.
  replace ((a + 2 ^ 63 - 2 ^ 64 * ((a + 2 ^ 63) / 2 ^ 64) - 2 ^ 63) * b + 2 ^ 63)
    with (a * b + 2 ^ 63 + (- ((a + 2 ^ 63) / 2 ^ 64) * b) * 2 ^ 64) by ring.
  apply Z_mod_plus_full.
Qed.

Lemma T1_T2 : 0 < T1 /\ T1 <= T2 /\ T2 < 2 ^ 62.
Proof. vm_compute. repeat split; congruence. Qed.

Lemma T1_doubled (n : nat) : (n <= 34)%nat -> wrap64 (T1 * 2 ^ Z.of_nat n) = T1 * 2 ^ Z.of_nat n.
Proof.
  intros Hn. apply wrap64_small.
  assert (H34 : 2 ^ Z.of_nat n <= 2 ^ 34) by (apply Z.pow_le_mono_r; lia).
  assert (H0 : 0 < 2 ^ Z.of_nat n) by (apply Z.pow_pos_nonneg; lia).
  change (2 ^ 34) with 17179869184 in H34.
  change T1 with 500000000.
  change (2 ^ 63) with 9223372036854775808. lia.
Qed.

Local Opaque T2.

Lemma cap_T2 t :
  0 <= t < 2 ^ 62 ->
  (if wrap64 (t * 2) >? T2 then T2 else wrap64 (t * 2)) = Z.min (2 * t) T2.
Proof.
  intros Ht. rewrite wrap64_small by lia.
  destruct (Z.gtb_spec (t * 2) T2); lia.
Qed.

(** One firing of timer A on a non-INVITE transaction in calling or
    proceeding. *)
Lemma fire_a_non_invite tx w p :
  fsm_invite tx = false ->
  fsm_state tx = client_state_calling \/ fsm_state tx = client_state_proceeding ->
  timer_a tx = Armed p ->
  0 <= timer_a_time tx < 2 ^ 62 ->
  exists tx' w',
    deliver TimerA tx w = Ok (tx', w') /\
    timer_a_time tx' = Z.min (2 * timer_a_time tx) T2 /\
    timer_a tx' = Armed (timer_a_time tx') /\
    exists r, sent w' = (sent w ++ [(dest tx, MsgRequest (origin tx), r)])%list.
Proof.
  destruct tx as [k o d t lr le inv st tat ta tb tdt td rel].
  destruct w as [sr se ms es del].
  cbn [fsm_invite fsm_state timer_a timer_a_time dest origin sent].
  intros -> Hst -> Ht.
  pose proof (cap_T2 tat Ht) as Hcap.
  destruct Hst as [-> | ->]; destruct sr as [|[e|] sr];
    run_fsm; rewrite ?Hcap;
    (eexists _, _; split; [reflexivity|]); cbn; rewrite ?Hcap; eauto.
Qed.

(** One firing of timer A on an INVITE transaction in calling. *)
Lemma fire_a_invite tx w p :
  fsm_invite tx = true ->
  fsm_state tx = client_state_calling ->
  timer_a tx = Armed p ->
  0 <= timer_a_time tx < 2 ^ 62 ->
  exists tx' w',
    deliver TimerA tx w = Ok (tx', w') /\
    timer_a_time tx' = 2 * timer_a_time tx /\
    timer_a tx' = Armed (timer_a_time tx') /\
    exists r, sent w' = (sent w ++ [(dest tx, MsgRequest (origin tx), r)])%list.
Proof.
  destruct tx as [k o d t lr le inv st tat ta tb tdt td rel].
  destruct w as [sr se ms es del].
  cbn [fsm_invite fsm_state timer_a timer_a_time dest origin sent].
  intros -> -> -> Ht.
  assert (Hw : wrap64 (tat * 2) = 2 * tat) by (rewrite wrap64_small; lia).
  destruct sr as [|[e|] sr];
    run_fsm; rewrite ?Hw;
    (eexists _, _; split; [reflexivity|]); cbn; rewrite ?Hw; eauto.
Qed.

(** One firing of timer A in calling while the transport accepts the
    retransmission: the transaction stays in calling with timer A armed. *)
Lemma fire_a_quiet tx w p :
  fsm_state tx = client_state_calling ->
  timer_a tx = Armed p ->
  sendResults w = [] ->
  exists tx' w',
    deliver TimerA tx w = Ok (tx', w') /\
    fsm_invite tx' = fsm_invite tx /\
    fsm_state tx' = client_state_calling /\
    timer_a tx' = Armed (timer_a_time tx') /\
    sendResults w' = [] /\
    timer_a_time tx'
    = if fsm_invite tx then wrap64 (timer_a_time tx * 2)
      else if wrap64 (timer_a_time tx * 2) >? T2 then T2
           else wrap64 (timer_a_time tx * 2).
Proof.
  destruct tx as [k o d t lr le inv st tat ta tb tdt td rel].
  destruct w as [sr se ms es del].
  cbn [fsm_invite fsm_state timer_a timer_a_time sendResults].
  intros -> -> ->.
  destruct inv; run_fsm; eexists _, _; (split; [reflexivity|]); cbn; auto.
Qed.

Lemma period_after_invite (n : nat) : forall tx w p,
  fsm_invite tx = true ->
  fsm_state tx = client_state_calling ->
  timer_a tx = Armed p ->
  sendResults w = [] ->
  - 2 ^ 63 <= timer_a_time tx < 2 ^ 63 ->
  period_after n tx w = Some (wrap64 (timer_a_time tx * 2 ^ Z.of_nat n)).
Proof.
  induction n as [|n IH]; intros tx w p Hinv Hst Hta Hw Ht.
  - cbn [period_after]. change (2 ^ Z.of_nat 0) with 1.
    rewrite Z.mul_1_r, wrap64_small by exact Ht. reflexivity.
  - destruct (fire_a_quiet tx w p Hst Hta Hw)
      as (tx' & w' & Hd & Hinv' & Hst' & Hta' & Hw' & Ht').
    cbn [period_after]. rewrite Hd.
    rewrite Hinv in *.
    rewrite (IH tx' w' _ Hinv' Hst' Hta' Hw') by (rewrite Ht'; apply wrap64_range).
    rewrite Ht', wrap64_mul, Nat2Z.inj_succ, Z.pow_succ_r by lia.
    f_equal. f_equal. ring.
Qed.

Lemma period_after_non_invite (n : nat) : forall tx w p,
  fsm_invite tx = false ->
  fsm_state tx = client_state_calling ->
  timer_a tx = Armed p ->
  sendResults w = [] ->
  0 < timer_a_time tx <= T2 ->
  period_after n tx w = Some (Z.min (timer_a_time tx * 2 ^ Z.of_nat n) T2).
Proof.
  pose proof T1_T2 as (_ & _ & HT2).
  induction n as [|n IH]; intros tx w p Hinv Hst Hta Hw Ht.
  - cbn [period_after]. change (2 ^ Z.of_nat 0) with 1.
    rewrite Z.mul_1_r. f_equal. lia.
  - destruct (fire_a_quiet tx w p Hst Hta Hw)
      as (tx' & w' & Hd & Hinv' & Hst' & Hta' & Hw' & Ht').
    cbn [period_after]. rewrite Hd.
    rewrite Hinv in *. rewrite cap_T2 in Ht' by lia.
    rewrite (IH tx' w' _ Hinv' Hst' Hta' Hw') by lia.
    rewrite Ht', Nat2Z.inj_succ, Z.pow_succ_r by lia.
    assert (H1 : 1 <= 2 ^ Z.of_nat n)
      by (pose proof (Z.pow_pos_nonneg 2 (Z.of_nat n)); lia).
    f_equal.
    destruct (Z.le_gt_cases (2 * timer_a_time tx) T2) as [Hle|Hgt].
    + rewrite (Z.min_l (2 * timer_a_time tx) T2) by exact Hle. f_equal. ring.
    + rewrite (Z.min_r (2 * timer_a_time tx) T2) by lia.
      rewrite !Z.min_r; [reflexivity| nia | nia].
Qed.

Local Transparent T2.

Lemma NewClientTx_unreliable origin_ dest_ tpl_ tx :
  NewClientTx origin_ dest_ tpl_ = Ok tx ->
  reliable tx = false ->
  fsm_invite tx = IsInvite origin_ /\
  fsm_state tx = client_state_calling /\
  timer_a tx = Armed T1 /\
  timer_a_time tx = T1.
Proof.
  unfold NewClientTx. destruct (makeClientTxKey origin_) as [k| |]; try discriminate.
  cbn. destruct (match Message_ViaHop (MsgRequest origin_) with
                 | Some viaHop => IsReliable tpl_ (Transport viaHop)
                 | None => false
                 end); cbn; intros [= <-]; cbn; intros Hrel;
    [discriminate|repeat split].
Qed.

(** C5: on every firing of timer A, a non-INVITE transaction in calling or
    proceeding doubles the period of timer A, caps it at T2, restarts the
    timer with it and retransmits the request; an INVITE transaction in
    calling doubles it with no cap.  So, while the transport accepts the
    retransmissions, the period after [n] firings is [min(2^n*T1, T2)] for a
    non-INVITE transaction and [2^n*T1] for an INVITE one (as an [int64]
    count of nanoseconds, exact up to the 34th firing). *)
Theorem timer_a_schedule :
  (forall tx w p,
      fsm_invite tx = false ->
      fsm_state tx = client_state_calling \/ fsm_state tx = client_state_proceeding ->
      timer_a tx = Armed p ->
      0 <= timer_a_time tx < 2 ^ 62 ->
      exists tx' w',
        deliver TimerA tx w = Ok (tx', w') /\
        timer_a_time tx' = Z.min (2 * timer_a_time tx) T2 /\
        timer_a tx' = Armed (timer_a_time tx') /\
        exists r, sent w' = (sent w ++ [(dest tx, MsgRequest (origin tx), r)])%list) /\
  (forall tx w p,
      fsm_invite tx = true ->
      fsm_state tx = client_state_calling ->
      timer_a tx = Armed p ->
      0 <= timer_a_time tx < 2 ^ 62 ->
      exists tx' w',
        deliver TimerA tx w = Ok (tx', w') /\
        timer_a_time tx' = 2 * timer_a_time tx /\
        timer_a tx' = Armed (timer_a_time tx') /\
        exists r, sent w' = (sent w ++ [(dest tx, MsgRequest (origin tx), r)])%list) /\
  (forall origin_ dest_ tpl_ tx (n : nat),
      NewClientTx origin_ dest_ tpl_ = Ok tx ->
      reliable tx = false ->
      period_after n tx (newWorld [])
      = Some (if IsInvite origin_ then wrap64 (T1 * 2 ^ Z.of_nat n)
              else Z.min (T1 * 2 ^ Z.of_nat n) T2)) /\
  (forall n : nat, (n <= 34)%nat ->
      wrap64 (T1 * 2 ^ Z.of_nat n) = T1 * 2 ^ Z.of_nat n).
Proof.
  split; [exact fire_a_non_invite|]. split; [exact fire_a_invite|].
  split; [|exact T1_doubled].
  intros origin_ dest_ tpl_ tx n Hnew Hrel.
  destruct (NewClientTx_unreliable _ _ _ _ Hnew Hrel) as (Hinv & Hst & Hta & Ht).
  pose proof T1_T2 as (HT1 & HT12 & HT2).
  destruct (IsInvite origin_).
  - rewrite (period_after_invite n tx (newWorld []) T1 Hinv Hst Hta eq_refl)
      by (rewrite Ht; lia).
    rewrite Ht. reflexivity.
  - rewrite (period_after_non_invite n tx (newWorld []) T1 Hinv Hst Hta eq_refl)
      by (rewrite Ht; lia).
    rewrite Ht. reflexivity.
Qed.

Lemma timer_a_schedule_witness :
  (exists tx' w',
      deliver TimerA options_tx (newWorld []) = Ok (tx', w') /\
      timer_a_time tx' = 1000000000 /\
      timer_a tx' = Armed (timer_a_time tx') /\
      exists r, sent w'
                = [("example.com:5060", MsgRequest options, r)]) /\
  (exists tx' w',
      deliver TimerA invite_tx (newWorld []) = Ok (tx', w') /\
      timer_a_time tx' = 1000000000 /\
      timer_a tx' = Armed (timer_a_time tx') /\
      exists r, sent w'
                = [("example.com:5060", MsgRequest invite, r)]) /\
  period_after 4 options_tx (newWorld []) = Some T2 /\
  period_after 4 invite_tx (newWorld []) = Some (16 * T1) /\
  wrap64 (T1 * 2 ^ 34) = T1 * 2 ^ 34.
Proof.
  destruct timer_a_schedule as (H1 & H2 & H3 & H4).
  split; [|split; [|split; [|split]]].
  - apply (H1 options_tx (newWorld []) Timer_A);
      [reflexivity | left; reflexivity | reflexivity | vm_compute; split; congruence].
  - apply (H2 invite_tx (newWorld []) Timer_A);
      [reflexivity | reflexivity | reflexivity | vm_compute; split; congruence].
  - apply (H3 options "example.com:5060" udp_layer options_tx 4%nat);
      vm_compute; reflexivity.
  - apply (H3 invite "example.com:5060" udp_layer invite_tx 4%nat);
      vm_compute; reflexivity.
  - apply (H4 34%nat). lia.
Defined.

Lemma CopyHeaders_request (name : string) (from : Message) (r : Request) :
  CopyHeaders name from (MsgRequest r)
  = MsgRequest (mkRequest (Method r) (Recipient r) (ReqSipVersion r)
                          (ReqHeaders r ++ GetHeaders name from) (ReqBody r)).
Proof.
  unfold CopyHeaders. generalize (GetHeaders name from) as l.
  intros l. revert r. induction l as [|h l IH]; intros [m rc v hs b].
  - cbn. rewrite app_nil_r. reflexivity.
  - cbn [fold_left]. unfold AppendHeader at 2. cbn.
    rewrite IH. cbn. rewrite <- app_assoc. reflexivity.
Qed.

(** The request [tx.ack()] builds is the ACK the specification describes. *)
Lemma ack_builds_ack_request (tx : clientTx) (seqNo : Z) (via : list ViaHop)
    (res : Response) :
  CopyHeaders "To" (MsgResponse res)
    (AppendHeader (Header_Clone (ViaHeader via))
       (AppendHeader (CSeq seqNo ACK)
          (CopyHeaders "Route" (MsgRequest (origin tx))
             (CopyHeaders "Call-ID" (MsgRequest (origin tx))
                (CopyHeaders "From" (MsgRequest (origin tx))
                   (NewRequest ACK (Recipient (origin tx))
                      (ReqSipVersion (origin tx)) [] EmptyString))))))
  = ack_request tx seqNo via res.
Proof.
  unfold NewRequest, ack_request.
  rewrite !CopyHeaders_request. unfold AppendHeader. cbn.
  rewrite CopyHeaders_request. cbn. unfold NewRequest.
  rewrite <- !app_assoc. reflexivity.
Qed.

(** C6 (the code at the failing input): an INVITE transaction in calling
    that receives a 3xx+ final response passes it up and sends the ACK the
    specification describes; when the transport refuses the ACK, the action
    spins a transport error into the FSM, which reports it to the consumer,
    but the transaction's [lastErr] is left as it was: [ack] has a value
    receiver and assigns the error to its own copy of the transaction. *)
Theorem ack_failure_leaves_lastErr (tx : clientTx) (w : world) (res : Response)
    (seqNo : Z) (m : string) (via : list ViaHop) (e : error)
    (rest : list (option error)) :
  fsm_invite tx = true ->
  fsm_state tx = client_state_calling ->
  IsProvisional res = false ->
  IsSuccess res = false ->
  Message_CSeq (MsgRequest (origin tx)) = Some (seqNo, m) ->
  Message_Via (MsgRequest (origin tx)) = Some via ->
  sendResults w = Some e :: rest ->
  (exists tx1 w1,
      act_invite_final (set_lastResp (Some res) tx) w
        = Ok (tx1, w1, [client_input_transport_err], None) /\
      msgs w1 = (msgs w ++ [res])%list /\
      sent w1 = (sent w ++ [(dest tx, ack_request tx seqNo via res, Some e)])%list /\
      lastErr tx1 = lastErr tx /\
      timer_d tx1 = Armed (timer_d_time tx)) /\
  (exists tx' w',
      Receive (MsgResponse res) tx w = Ok (tx', w', None) /\
      msgs w' = (msgs w ++ [res])%list /\
      sent w' = (sent w ++ [(dest tx, ack_request tx seqNo via res, Some e)])%list /\
      lastErr tx' = lastErr tx /\
      errs w' = (errs w ++ [TxTransportError (lastErr tx)])%list).
Proof.
  intros Hinv Hst Hp Hs Hcseq Hvia Hw.
  pose proof (ack_builds_ack_request tx seqNo via res) as Hack.
  destruct tx as [k o d t lr le inv st tat ta tb tdt td rel].
  destruct w as [sr se ms es del].
  cbn [fsm_invite fsm_state origin sendResults dest lastErr msgs sent errs
       timer_d timer_d_time] in *.
  subst inv st sr. split.
  - run_fsm_with Hcseq Hvia. rewrite Hack.
    eexists _, _. split; [reflexivity|]. cbn. repeat split; reflexivity.
  - unfold Receive. rewrite Hp, Hs.
    run_fsm_with Hcseq Hvia. rewrite Hack.
    eexists _, _. split; [reflexivity|]. cbn. repeat split; reflexivity.
Qed.

Lemma ack_failure_leaves_lastErr_witness :
  (exists tx1 w1,
      act_invite_final (set_lastResp (Some not_found) invite_tx)
                       (newWorld [Some io_error])
        = Ok (tx1, w1, [client_input_transport_err], None) /\
      msgs w1 = [not_found] /\
      sent w1 = [("example.com:5060", ack_request invite_tx 1 top_via not_found,
                  Some io_error)] /\
      lastErr tx1 = None /\
      timer_d tx1 = Armed Timer_D) /\
  (exists tx' w',
      Receive (MsgResponse not_found) invite_tx (newWorld [Some io_error])
        = Ok (tx', w', None) /\
      msgs w' = [not_found] /\
      sent w' = [("example.com:5060", ack_request invite_tx 1 top_via not_found,
                  Some io_error)] /\
      lastErr tx' = None /\
      errs w' = [TxTransportError None]).
Proof.
  apply (ack_failure_leaves_lastErr invite_tx (newWorld [Some io_error]) not_found
           1 "INVITE" top_via io_error []); reflexivity.
Defined.

End TransactionProps.

(* ===================================================================== *)
(** ** More facts about strings and the result monad                     *)
(* ===================================================================== *)

Module StrMore.
Import Str StrFacts.

Lemma str_app_assoc (a b c : string) : ((a ++ b) ++ c = a ++ b ++ c)%string.
Proof.
  induction a as [|x a IH]; [reflexivity|].
  change (String x ((a ++ b) ++ c) = String x (a ++ b ++ c))%string.
  rewrite IH. reflexivity.
Qed.

Lemma str_app_nil_r (a : string) : (a ++ EmptyString)%string = a.
Proof.
  induction a as [|x a IH]; [reflexivity|].
  change (String x (a ++ EmptyString) = String x a)%string.
  rewrite IH. reflexivity.
Qed.

Lemma str_take_drop (n : nat) (s : string) : (take n s ++ drop n s)%string = s.
Proof.
  revert s. induction n as [|n IH]; intros [|c s]; try reflexivity.
  cbn [take drop]. change (String c (take n s) ++ drop n s)%string
    with (String c (take n s ++ drop n s)%string). f_equal. apply IH.
Qed.

Lemma str_length_take (n : nat) (s : string) :
  (n <= String.length s)%nat -> String.length (take n s) = n.
Proof.
  revert s. induction n as [|n IH]; intros [|c s]; cbn; intros H; try lia.
  rewrite IH; lia.
Qed.

Lemma str_length_drop (n : nat) (s : string) :
  String.length (drop n s) = (String.length s - n)%nat.
Proof.
  revert s. induction n as [|n IH]; intros [|c s]; cbn; try lia. apply IH.
Qed.

Lemma str_length_app (a b : string) :
  String.length (a ++ b)%string = (String.length a + String.length b)%nat.
Proof. induction a as [|c a IH]; simpl; [reflexivity|]. now rewrite IH. Qed.

Lemma str_take_all (s : string) : take (String.length s) s = s.
Proof. induction s as [|c s IH]; cbn; [reflexivity|]. now rewrite IH. Qed.

Lemma str_take_app (a b : string) : take (String.length a) (a ++ b)%string = a.
Proof. induction a as [|c a IH]; simpl; [destruct b; reflexivity|]. now rewrite IH. Qed.

Lemma str_drop_app (a b : string) : drop (String.length a) (a ++ b)%string = b.
Proof. induction a as [|c a IH]; simpl; [reflexivity|]. exact IH. Qed.

Lemma str_drop_drop (n m : nat) (s : string) : drop n (drop m s) = drop (m + n) s.
Proof.
  revert s. induction m as [|m IH]; intros s; [reflexivity|].
  destruct s as [|c s]; cbn.
  - destruct n; reflexivity.
  - apply IH.
Qed.

Lemma len_cons (c : byte) (s : string) : len (String c s) = 1 + len s.
Proof. unfold len. cbn [String.length]. lia. Qed.

Lemma len_drop (n : Z) (s : string) :
  0 <= n <= len s -> len (drop (Z.to_nat n) s) = len s - n.
Proof. intros H. unfold len in *. rewrite str_length_drop. lia. Qed.

Lemma mem_byte_app (c : byte) (a b : string) :
  mem_byte c (a ++ b)%string = mem_byte c a || mem_byte c b.
Proof.
  induction a as [|d a IH]; simpl; [reflexivity|].
  rewrite IH. apply orb_assoc.
Qed.

Lemma eqb_byte_sym (a b : byte) : eqb_byte a b = eqb_byte b a.
Proof. unfold eqb_byte. apply Ascii.eqb_sym. Qed.

Lemma HasPrefix_nil (s : string) : HasPrefix s EmptyString = true.
Proof. destruct s; reflexivity. Qed.

Lemma HasPrefix_length (s p : string) :
  HasPrefix s p = true -> (String.length p <= String.length s)%nat.
Proof.
  intros H. apply HasPrefix_true in H as [r ->]. rewrite str_length_app. lia.
Qed.

Lemma index_nat_bound (s sub : string) (n : nat) :
  index_nat s sub = Some n -> (n + String.length sub <= String.length s)%nat.
Proof.
  revert n. induction s as [|c s IH]; intros n H; cbn [index_nat] in H.
  - destruct (HasPrefix EmptyString sub) eqn:Hp; [|discriminate].
    injection H as <-. apply HasPrefix_length in Hp. lia.
  - destruct (HasPrefix (String c s) sub) eqn:Hp.
    + injection H as <-. apply HasPrefix_length in Hp. lia.
    + destruct (index_nat s sub) as [m|] eqn:Hm; [|discriminate].
      injection H as <-. specialize (IH m eq_refl). cbn [String.length]. lia.
Qed.

(** [strings.Index] answers [-1] or an offset at which the pattern fits. *)
Lemma Index_bound (s sub : string) :
  Index s sub = -1 \/ 0 <= Index s sub <= len s - len sub.
Proof.
  unfold Index. destruct (index_nat s sub) as [n|] eqn:H; [right|left; reflexivity].
  apply index_nat_bound in H. unfold len. lia.
Qed.

Lemma index_nat_cons_None (c : byte) (s sub : string) :
  index_nat (String c s) sub = None ->
  HasPrefix (String c s) sub = false /\ index_nat s sub = None.
Proof.
  cbn [index_nat]. destruct (HasPrefix (String c s) sub); [discriminate|].
  destruct (index_nat s sub); [discriminate|]. split; reflexivity.
Qed.

Lemma Contains_false (s sub : string) :
  Contains s sub = false <-> index_nat s sub = None.
Proof.
  unfold Contains, Index. destruct (index_nat s sub) as [n|]; split; intros H;
    try reflexivity; try discriminate.
  apply Z.leb_gt in H. lia.
Qed.

(** The first occurrence of a byte. *)
Lemma index_byte_found (s : string) (c : byte) (n : nat) :
  index_nat s (String c EmptyString) = Some n ->
  mem_byte c (take n s) = false /\
  drop n s = String c (drop (S n) s).
Proof.
  revert n. induction s as [|d s IH]; intros n H; cbn [index_nat] in H.
  - cbn in H. discriminate.
  - cbn [HasPrefix] in H. rewrite HasPrefix_nil, andb_true_r in H.
    destruct (eqb_byte c d) eqn:Hc.
    + injection H as <-. apply eqb_byte_true in Hc. subst d. split; reflexivity.
    + destruct (index_nat s (String c EmptyString)) as [m|] eqn:Hm; [|discriminate].
      injection H as <-. destruct (IH m eq_refl) as [H1 H2].
      split; [cbn; rewrite Hc, H1; reflexivity|exact H2].
Qed.

Lemma index_byte_absent (s : string) (c : byte) :
  index_nat s (String c EmptyString) = None -> mem_byte c s = false.
Proof.
  induction s as [|d s IH]; intros H; cbn [index_nat] in H; [reflexivity|].
  cbn [HasPrefix] in H. rewrite HasPrefix_nil, andb_true_r in H.
  destruct (eqb_byte c d) eqn:Hc; [discriminate|].
  destruct (index_nat s (String c EmptyString)) as [m|] eqn:Hm; [discriminate|].
  cbn. rewrite Hc, IH; reflexivity.
Qed.


Lemma Index_byte_found (s : string) (c : byte) :
  Index s (String c EmptyString) <> -1 ->
  0 <= Index s (String c EmptyString) < len s /\
  mem_byte c (take (Z.to_nat (Index s (String c EmptyString))) s) = false /\
  s = (take (Z.to_nat (Index s (String c EmptyString))) s
       ++ String c (drop (Z.to_nat (Index s (String c EmptyString) + 1)) s))%string.
Proof.
  unfold Index. destruct (index_nat s (String c EmptyString)) as [n|] eqn:Hn;
    [intros _|intros H; contradiction H; reflexivity].
  pose proof (index_nat_bound _ _ _ Hn) as Hb. cbn [String.length] in Hb.
  destruct (index_byte_found _ _ _ Hn) as [Hm Hd].
  split; [unfold len; lia|]. rewrite Nat2Z.id. split; [exact Hm|].
  replace (Z.to_nat (Z.of_nat n + 1)) with (S n) by lia.
  rewrite <- Hd. symmetry. apply str_take_drop.
Qed.

Lemma Index_byte_absent (s : string) (c : byte) :
  Index s (String c EmptyString) = -1 -> mem_byte c s = false.
Proof.
  unfold Index. destruct (index_nat s (String c EmptyString)) as [n|] eqn:Hn;
    [lia|intros _]. apply index_byte_absent. exact Hn.
Qed.

Lemma slice_ok (s : string) (lo hi : Z) :
  0 <= lo <= hi -> hi <= len s ->
  slice s lo hi = Ok (take (Z.to_nat (hi - lo)) (drop (Z.to_nat lo) s)).
Proof.
  intros H1 H2. unfold slice.
  replace (0 <=? lo) with true by (symmetry; apply Z.leb_le; lia).
  replace (lo <=? hi) with true by (symmetry; apply Z.leb_le; lia).
  replace (hi <=? len s) with true by (symmetry; apply Z.leb_le; lia).
  reflexivity.
Qed.

Lemma slice_to_ok (s : string) (hi : Z) :
  0 <= hi <= len s -> slice_to s hi = Ok (take (Z.to_nat hi) s).
Proof.
  intros H. unfold slice_to. rewrite slice_ok by lia.
  rewrite Z.sub_0_r. reflexivity.
Qed.

Lemma slice_from_ok (s : string) (lo : Z) :
  0 <= lo <= len s -> slice_from s lo = Ok (drop (Z.to_nat lo) s).
Proof.
  intros H. unfold slice_from. rewrite slice_ok by lia. f_equal.
  replace (Z.to_nat (len s - lo)) with (String.length (drop (Z.to_nat lo) s)).
  - apply str_take_all.
  - rewrite str_length_drop. unfold len. lia.
Qed.

Lemma at_no_panic (s : string) : len s <> 0 -> is_panic (at_ s 0) = false.
Proof.
  destruct s as [|c s]; [intros H; contradiction H; reflexivity|].
  intros _. rewrite at_head. reflexivity.
Qed.

Lemma get_at (s : string) (i : Z) (c : byte) :
  0 <= i < len s -> String.get (Z.to_nat i) s = Some c -> at_ s i = Ok c.
Proof.
  intros Hi Hg. unfold at_.
  replace (0 <=? i) with true by (symmetry; apply Z.leb_le; lia).
  replace (i <? len s) with true by (symmetry; apply Z.ltb_lt; lia).
  cbn [andb]. rewrite Hg. reflexivity.
Qed.

Lemma ParseUint_no_panic (s : string) (bits : Z) : is_panic (ParseUint s bits) = false.
Proof.
  unfold ParseUint. destruct s; [reflexivity|].
  destruct (all_digits _); [|reflexivity].
  destruct (_ <? _); reflexivity.
Qed.

(** A computation of the result monad that does not panic. *)
Lemma bind_no_panic {A B} (m : go A) (k : A -> go B) :
  is_panic m = false ->
  (forall a, m = Ok a -> is_panic (k a) = false) ->
  is_panic (mbind k m) = false.
Proof.
  intros Hm Hk. destruct m as [a|e|p]; cbn in *; [|reflexivity|discriminate].
  apply Hk. reflexivity.
Qed.

Lemma bind_Ok {A B} (m : go A) (k : A -> go B) (b : B) :
  mbind k m = Ok b -> exists a, m = Ok a /\ k a = Ok b.
Proof. destruct m as [a|e|p]; cbn; intros H; [eauto|discriminate|discriminate]. Qed.

(** [strings.Split] yields one field more than there are separators. *)
Lemma Split_length (s : string) (sep : byte) :
  Z.of_nat (List.length (Split s sep)) = Count s sep + 1.
Proof.
  induction s as [|c s IH]; cbn [Split Count]; [reflexivity|].
  destruct (eqb_byte c sep).
  - cbn [List.length]. rewrite Nat2Z.inj_succ. lia.
  - destruct (Split_nonempty s sep) as (p & ps & Hs). rewrite Hs in *.
    cbn [List.length] in *. rewrite ?Nat2Z.inj_succ in *. lia.
Qed.

Lemma Split_no_sep (s : string) (sep : byte) :
  mem_byte sep s = false -> Split s sep = [s].
Proof.
  induction s as [|c s IH]; cbn; intros H; [reflexivity|].
  apply orb_false_elim in H as [Hc Hs].
  replace (eqb_byte c sep) with false.
  - rewrite (IH Hs). reflexivity.
  - unfold eqb_byte in *. rewrite Ascii.eqb_sym. symmetry. exact Hc.
Qed.

End StrMore.

(* ===================================================================== *)
(** ** The parser: parameters, URIs and header values                    *)
(* ===================================================================== *)

Module ParserExtra.
Import Str Syntax StrFacts StrMore Examples.

Ltac break_if_in H :=
  repeat match type of H with
         | (if ?b then _ else _) = _ => destruct b eqn:?
         end.

(** Where the character loop of [parseParams] stops: at the end of the
    text, or in front of an end delimiter. *)
Lemma parseLoop_consumed (sep end_ : byte) (q ps : bool) (rest : string) :
  forall st st',
    parseLoop sep end_ q ps rest st = Ok st' ->
    let d := pp_consumed st' - pp_consumed st in
    0 <= d <= len rest /\
    (d = len rest \/ exists r, drop (Z.to_nat d) rest = String end_ r).
Proof.
  induction rest as [|c rest IH]; intros st st' H; cbn in H.
  - injection H as <-. cbn. rewrite Z.sub_diag. split; [unfold len; cbn; lia|].
    left. reflexivity.
  - rewrite len_cons. pose proof (len_nonneg rest) as Hn.
    assert (Hstep : forall st0, pp_consumed st0 = pp_consumed st ->
              parseLoop sep end_ q ps rest (pp_next st0) = Ok st' ->
              0 <= pp_consumed st' - pp_consumed st <= 1 + len rest /\
              (pp_consumed st' - pp_consumed st = 1 + len rest \/
               exists r, drop (Z.to_nat (pp_consumed st' - pp_consumed st))
                              (String c rest) = String end_ r)).
    { intros st0 H0 Hl. apply IH in Hl. cbn [pp_next pp_consumed] in Hl.
      rewrite H0 in Hl. destruct Hl as [Hb Hd]. split; [lia|].
      destruct Hd as [Hd|[r Hr]]; [left; lia|right].
      exists r.
      replace (Z.to_nat (pp_consumed st' - pp_consumed st))
        with (S (Z.to_nat (pp_consumed st' - (pp_consumed st + 1)))) by lia.
      exact Hr. }
    destruct (eqb_byte c end_) eqn:Hend.
    + destruct (pp_inQuotes st).
      * eapply Hstep; [|exact H]; reflexivity.
      * injection H as <-. rewrite Z.sub_diag. split; [lia|]. right.
        apply eqb_byte_true in Hend. subst c. exists rest. reflexivity.
    + break_if_in H; try discriminate H; (eapply Hstep; [|exact H]; reflexivity).
Qed.

Lemma parseLoop_no_panic (sep end_ : byte) (q ps : bool) (rest : string) :
  forall st, is_panic (parseLoop sep end_ q ps rest st) = false.
Proof.
  induction rest as [|c rest IH]; intros st; cbn; [reflexivity|].
  repeat match goal with
         | |- context [if ?b then _ else _] => destruct b
         end; try reflexivity; apply IH.
Qed.

Lemma parseParams_no_panic (source : string) (start sep end_ : byte) (q ps : bool) :
  is_panic (parseParams source start sep end_ q ps) = false.
Proof.
  unfold parseParams. destruct (len source =? 0) eqn:Hlen; [reflexivity|].
  apply bind_no_panic.
  - destruct (negb (eqb_byte start zero)); [|reflexivity].
    destruct source as [|c s]; [discriminate Hlen|].
    rewrite at_head. cbn. destruct (negb (eqb_byte c start)); reflexivity.
  - intros consumed _. apply bind_no_panic; [apply parseLoop_no_panic|].
    intros st _.
    repeat match goal with
           | |- context [if ?b then _ else _] => destruct b
           end; reflexivity.
Qed.

Lemma parseParams_consumed (source : string) (start sep end_ : byte) (q ps : bool)
    (params : Params) (n : Z) :
  parseParams source start sep end_ q ps = Ok (params, n) ->
  0 <= n <= len source /\
  (n = len source \/ exists r, drop (Z.to_nat n) source = String end_ r).
Proof.
  unfold parseParams. destruct (len source =? 0) eqn:Hlen.
  - intros [= _ <-]. apply Z.eqb_eq in Hlen. rewrite Hlen. split; [lia|left; reflexivity].
  - apply Z.eqb_neq in Hlen. intros H.
    apply bind_Ok in H as (consumed & Hc & H).
    apply bind_Ok in H as (st & Hloop & H).
    assert (Hcons : consumed = 0 \/ consumed = 1).
    { destruct (negb (eqb_byte start zero)); [|injection Hc as <-; left; reflexivity].
      apply bind_Ok in Hc as (c & _ & Hc).
      destruct (negb (eqb_byte c start)); [discriminate|].
      injection Hc as <-. right. reflexivity. }
    pose proof (len_nonneg source) as Hn.
    apply parseLoop_consumed in Hloop. cbn [pp_consumed] in Hloop.
    rewrite len_drop in Hloop by lia.
    rewrite str_drop_drop in Hloop.
    replace (Z.to_nat consumed + Z.to_nat (pp_consumed st - consumed))%nat
      with (Z.to_nat (pp_consumed st)) in Hloop by lia.
    assert (Hn' : n = pp_consumed st).
    { destruct (pp_inQuotes st); [discriminate|].
      destruct (pp_parsingKey st && ps); [injection H as _ <-; reflexivity|].
      destruct (pp_parsingKey st); [discriminate|].
      injection H as _ <-; reflexivity. }
    subst n. destruct Hloop as [Hb Hd]. split; [lia|].
    destruct Hd as [Hd|Hd]; [left; lia|right; exact Hd].
Qed.

(** X1: [parseParams] never panics, and the number of bytes it reports as
    consumed lies within the source: the parse stops at the end of the source
    or in front of an end delimiter. *)
Theorem parseParams_stops (source : string) (start sep end_ : byte) (q ps : bool) :
  is_panic (parseParams source start sep end_ q ps) = false /\
  forall params n,
    parseParams source start sep end_ q ps = Ok (params, n) ->
    0 <= n <= len source /\
    (n = len source \/ exists r, drop (Z.to_nat n) source = String end_ r).
Proof.
  split; [apply parseParams_no_panic|].
  intros params n H. exact (parseParams_consumed _ _ _ _ _ _ _ _ H).
Qed.

Lemma parseParams_stops_witness :
  0 <= 4 <= len ";a=b?x" /\
  (4 = len ";a=b?x" \/ exists r, drop (Z.to_nat 4) ";a=b?x" = String question r).
Proof.
  apply (proj2 (parseParams_stops ";a=b?x" semicolon semicolon question true true)
           [("a", Some "b")] 4).
  vm_compute. reflexivity.
Defined.

Lemma Params_Add_valued (k : string) (v : MaybeString) (ps : Params) :
  valued_key_ok (k, v) -> Forall valued_key_ok ps ->
  Forall valued_key_ok (Params_Add k v ps).
Proof.
  intros Hkv. induction ps as [|[k' v'] ps IH]; intros H; cbn.
  - constructor; [exact Hkv|constructor].
  - inversion H as [|? ? Hhd Htl]; subst.
    destruct (String.eqb k k'); constructor; auto.
Qed.

Lemma parseLoop_valued (sep end_ : byte) (q ps : bool) (rest : string) :
  forall st st',
    parseLoop sep end_ q ps rest st = Ok st' ->
    Forall valued_key_ok (pp_params st) ->
    (pp_parsingKey st = false -> pp_key st <> EmptyString) ->
    Forall valued_key_ok (pp_params st') /\
    (pp_parsingKey st' = false -> pp_key st' <> EmptyString).
Proof.
  induction rest as [|c rest IH]; intros st st' H Hps Hkey; cbn in H.
  - injection H as <-. split; assumption.
  - break_if_in H; try discriminate H;
      try (injection H as <-; split; assumption);
      apply IH in H; try exact H; cbn; try assumption;
      try (intros; discriminate).
    + apply Params_Add_valued; [intros H0; contradiction H0; reflexivity|exact Hps].
    + apply Params_Add_valued; [|exact Hps].
      intros _. apply Hkey. reflexivity.
    + intros _ Hb.
      match goal with
      | Hl : (len (pp_buffer st) =? 0) = false |- _ =>
          apply Z.eqb_neq in Hl; apply Hl; rewrite Hb; reflexivity
      end.
Qed.

Lemma parseParams_valued (source : string) (start sep end_ : byte) (q ps : bool)
    (params : Params) (n : Z) :
  parseParams source start sep end_ q ps = Ok (params, n) ->
  Forall valued_key_ok params.
Proof.
  unfold parseParams. destruct (len source =? 0).
  - intros [= <- _]. constructor.
  - intros H. apply bind_Ok in H as (consumed & _ & H).
    apply bind_Ok in H as (st & Hloop & H).
    apply parseLoop_valued in Hloop as [Hps Hkey];
      [|constructor|intros; discriminate].
    destruct (pp_inQuotes st); [discriminate|].
    destruct (pp_parsingKey st && ps).
    + injection H as <- _.
      apply Params_Add_valued; [intros H0; contradiction H0; reflexivity|exact Hps].
    + destruct (pp_parsingKey st); [discriminate|].
      injection H as <- _.
      apply Params_Add_valued; [|exact Hps]. intros _. apply Hkey. reflexivity.
Qed.

(** X2: in every parameter list [parseParams] accepts, a parameter that
    has a value has a key that is not empty (the empty key can only come
    without a value); and with singletons disallowed every parameter has a
    value. *)
Theorem parseParams_entries (source : string) (start sep end_ : byte) (q ps : bool)
    (params : Params) (n : Z) :
  parseParams source start sep end_ q ps = Ok (params, n) ->
  Forall valued_key_ok params /\
  (ps = false -> Forall has_value params).
Proof.
  intros H. split; [exact (parseParams_valued _ _ _ _ _ _ _ _ H)|].
  intros ->. exact (ParserProps.parseParams_no_valueless_key _ _ _ _ _ _ _ H).
Qed.

Lemma parseParams_entries_witness :
  Forall valued_key_ok [("a", Some "b"); ("c", None)] /\
  Forall has_value [("x", Some "1"); ("y", Some "2")].
Proof.
  split.
  - apply (parseParams_entries ";a=b;c" semicolon semicolon zero true true _ 6).
    vm_compute. reflexivity.
  - apply (parseParams_entries "?x=1&y=2" question ampersand zero true false _ 8).
    + vm_compute. reflexivity.
    + reflexivity.
Defined.

Lemma of_byte_quote (c : byte) :
  mem_byte dquote (of_byte c) = eqb_byte dquote c.
Proof.
  destruct c as [[] [] [] [] [] [] [] []]; vm_compute; reflexivity.
Qed.

Lemma Params_Add_quote_free (k : string) (v : MaybeString) (ps : Params) :
  quote_free (k, v) -> Forall quote_free ps -> Forall quote_free (Params_Add k v ps).
Proof.
  intros Hkv. induction ps as [|[k' v'] ps IH]; intros H; cbn.
  - constructor; [exact Hkv|constructor].
  - inversion H as [|? ? Hhd Htl]; subst.
    destruct (String.eqb k k'); constructor; auto.
Qed.

Lemma parseLoop_quote_free (sep end_ : byte) (ps : bool) (rest : string) :
  sep <> dquote -> end_ <> dquote ->
  forall st st',
    parseLoop sep end_ true ps rest st = Ok st' ->
    Forall quote_free (pp_params st) ->
    mem_byte dquote (pp_buffer st) = false ->
    mem_byte dquote (pp_key st) = false ->
    Forall quote_free (pp_params st') /\
    mem_byte dquote (pp_buffer st') = false /\
    mem_byte dquote (pp_key st') = false.
Proof.
  intros Hsep Hend.
  assert (Hs : mem_byte dquote (of_byte sep) = false).
  { rewrite of_byte_quote. apply Ascii.eqb_neq. congruence. }
  assert (He : mem_byte dquote (of_byte end_) = false).
  { rewrite of_byte_quote. apply Ascii.eqb_neq. congruence. }
  induction rest as [|c rest IH]; intros st st' H Hps Hbuf Hkey; cbn in H.
  - injection H as <-. repeat split; assumption.
  - break_if_in H; try discriminate H;
      try (injection H as <-; repeat split; assumption);
      apply IH in H; try exact H; cbn; try assumption; try reflexivity;
      rewrite ?mem_byte_app, ?Hbuf, ?Hs, ?He; try reflexivity.
    + apply Params_Add_quote_free; [split; [exact Hbuf|exact I]|exact Hps].
    + apply Params_Add_quote_free; [split; [exact Hkey|exact Hbuf]|exact Hps].
    + rewrite of_byte_quote, eqb_byte_sym.
      match goal with Hq : eqb_byte c dquote = false |- _ => rewrite Hq end.
      reflexivity.
Qed.

(** X3: with quoting enabled and a separator and an end delimiter other
    than the double quote, no key and no value of an accepted parameter list
    holds a double quote: the quotes around a value are left out. *)
Theorem parseParams_unquotes (source : string) (start sep end_ : byte) (ps : bool)
    (params : Params) (n : Z) :
  sep <> dquote -> end_ <> dquote ->
  parseParams source start sep end_ true ps = Ok (params, n) ->
  Forall quote_free params.
Proof.
  intros Hsep Hend. unfold parseParams. destruct (len source =? 0).
  - intros [= <- _]. constructor.
  - intros H. apply bind_Ok in H as (consumed & _ & H).
    apply bind_Ok in H as (st & Hloop & H).
    apply (parseLoop_quote_free sep end_ ps _ Hsep Hend) in Hloop
      as (Hps & Hbuf & Hkey); [|constructor|reflexivity|reflexivity].
    destruct (pp_inQuotes st); [discriminate|].
    destruct (pp_parsingKey st && ps).
    + injection H as <- _. apply Params_Add_quote_free; [split; [exact Hbuf|exact I]|exact Hps].
    + destruct (pp_parsingKey st); [discriminate|].
      injection H as <- _.
      apply Params_Add_quote_free; [split; [exact Hkey|exact Hbuf]|exact Hps].
Qed.

Lemma parseParams_unquotes_witness :
  Forall quote_free [("a", Some "x;y"); ("b", None)].
Proof.
  apply (parseParams_unquotes (";a=" ++ dquote_s ++ "x;y" ++ dquote_s ++ ";b")
           semicolon semicolon zero true _ 10).
  - discriminate.
  - discriminate.
  - vm_compute. reflexivity.
Defined.

(** [parseHostPort]: the host is the text before the first colon and holds
    no colon; the port, when there is one, is the decimal number after it and
    fits in 16 bits. *)
Lemma parseHostPort_ok (raw h : string) (p : option Z) :
  parseHostPort raw = Ok (h, p) ->
  mem_byte colon h = false /\
  match p with
  | None => h = raw
  | Some v =>
      0 <= v <= 65535 /\
      exists portText, raw = (h ++ String colon portText)%string /\
                       ParseUint portText 16 = Ok v
  end.
Proof.
  unfold parseHostPort. change ":" with (String colon EmptyString).
  destruct (Index raw (String colon EmptyString) =? -1) eqn:Hi.
  - apply Z.eqb_eq in Hi. intros [= <- <-].
    split; [apply Index_byte_absent; exact Hi|reflexivity].
  - apply Z.eqb_neq in Hi. destruct (Index_byte_found raw colon Hi) as (Hb & Hm & Hs).
    rewrite slice_to_ok, slice_from_ok by lia. cbn.
    destruct (ParseUint _ 16) as [v| |] eqn:Hv; cbn; try discriminate.
    intros [= <- <-]. split; [exact Hm|]. split.
    + apply ParseUint_range in Hv. change (2 ^ 16) with 65536 in Hv. lia.
    + eexists. split; [exact Hs|exact Hv].
Qed.

Lemma parseHostPort_no_panic (raw : string) : is_panic (parseHostPort raw) = false.
Proof.
  unfold parseHostPort. change ":" with (String colon EmptyString).
  destruct (Index raw (String colon EmptyString) =? -1) eqn:Hi; [reflexivity|].
  apply Z.eqb_neq in Hi. destruct (Index_byte_found raw colon Hi) as (Hb & Hm & Hs).
  rewrite slice_to_ok, slice_from_ok by lia. cbn.
  apply bind_no_panic; [apply ParseUint_no_panic|reflexivity].
Qed.

(** X4: [parseHostPort] never panics; the host it returns is the text
    before the first colon of the input (the whole input when there is none,
    and then there is no port), and the port is the decimal number written
    after that colon, between 0 and 65535. *)
Theorem parseHostPort_result (raw : string) :
  is_panic (parseHostPort raw) = false /\
  forall h p,
    parseHostPort raw = Ok (h, p) ->
    mem_byte colon h = false /\
    match p with
    | None => h = raw
    | Some v =>
        0 <= v <= 65535 /\
        exists portText, raw = (h ++ String colon portText)%string /\
                         ParseUint portText 16 = Ok v
    end.
Proof.
  split; [apply parseHostPort_no_panic|].
  intros h p H. exact (parseHostPort_ok raw h p H).
Qed.

Lemma parseHostPort_result_witness :
  mem_byte colon "example.com" = false /\
  (0 <= 5060 <= 65535 /\
   exists portText, "example.com:5060" = ("example.com" ++ String colon portText)%string /\
                    ParseUint portText 16 = Ok 5060).
Proof.
  apply (proj2 (parseHostPort_result "example.com:5060") "example.com" (Some 5060)).
  vm_compute. reflexivity.
Defined.

(** The part of [ParseSipUri] after the scheme and its colon. *)
Lemma sip_uri_rest_no_panic (isEncrypted : bool) (uriStr : string) :
  is_panic
    (let endOfUserInfoPart := Index uriStr "@" in
      '(user, password, uriStr) ←
         (if negb (endOfUserInfoPart =? -1) then
            let endOfUsernamePart := Index uriStr ":" in
            let endOfUsernamePart :=
              if endOfUsernamePart >? endOfUserInfoPart then -1
              else endOfUsernamePart in
            '(user, password) ←
               (if endOfUsernamePart =? -1 then
                  u ← slice_to uriStr endOfUserInfoPart;
                  Ok (Some u, None)
                else
                  u ← slice_to uriStr endOfUsernamePart;
                  p ← slice uriStr (endOfUsernamePart + 1) endOfUserInfoPart;
                  Ok (Some u, Some p));
            r ← slice_from uriStr (endOfUserInfoPart + 1);
            Ok (user, password, r)
          else Ok (None, None, uriStr));
      let endOfUriPart := Index uriStr ";" in
      let endOfUriPart :=
        if endOfUriPart =? -1 then Index uriStr "?" else endOfUriPart in
      let endOfUriPart :=
        if endOfUriPart =? -1 then len uriStr else endOfUriPart in
      hostport ← slice_to uriStr endOfUriPart;
      uriStr' ← slice_from uriStr endOfUriPart;
      '(host, port) ← parseHostPort hostport;
      let uriStr := uriStr' in
      if len uriStr =? 0 then
        Ok (mkSipUri isEncrypted user password host port NewParams NewParams)
      else
        c ← at_ uriStr 0;
        '(uriParams, n) ←
           (if eqb_byte c semicolon then
              parseParams uriStr semicolon semicolon question true true
            else Ok (NewParams, 0));
        uriStr ← slice_from uriStr n;
        '(headers, n) ← parseParams uriStr question ampersand zero true false;
        uriStr ← slice_from uriStr n;
        if len uriStr >? 0 then
          Fail (Errorf "internal error: parse of SIP uri ended early! '%s'")
        else
          Ok (mkSipUri isEncrypted user password host port uriParams headers))
  = false.
Proof.
  cbv zeta. apply bind_no_panic.
  - destruct (negb (Index uriStr "@" =? -1)) eqn:Hat; [|reflexivity].
    apply negb_true_iff, Z.eqb_neq in Hat.
    change "@" with (String (ch "@") EmptyString) in *.
    destruct (Index_byte_found uriStr _ Hat) as (Hb & _ & Hs).
    set (a := Index uriStr (String (ch "@") EmptyString)) in *.
    apply bind_no_panic.
    + destruct (Index uriStr ":" >? a) eqn:Hgt.
      * cbn. rewrite slice_to_ok by lia. reflexivity.
      * rewrite Z.gtb_ltb in Hgt. apply Z.ltb_ge in Hgt.
        destruct (Index uriStr ":" =? -1) eqn:Hc.
        -- rewrite slice_to_ok by lia. reflexivity.
        -- apply Z.eqb_neq in Hc. change ":" with (String colon EmptyString) in *.
           destruct (Index_byte_found uriStr _ Hc) as (Hb' & _ & Hs').
           set (b := Index uriStr (String colon EmptyString)) in *.
           assert (Hne : b <> a).
           { intros Heq. rewrite Heq in Hs'. rewrite Hs' in Hs at 1.
             assert (Hd : forall x y u v : string, forall c d : byte,
                        (x ++ String c u)%string = (y ++ String d v)%string ->
                        String.length x = String.length y -> c = d).
             { induction x as [|e x IHx]; intros [|f y] u v c d; simpl;
                 intros E L; try discriminate.
               - injection E as -> _. reflexivity.
               - injection E as _ E. injection L as L. exact (IHx _ _ _ _ _ E L). }
             apply Hd in Hs; [discriminate Hs|reflexivity]. }
           rewrite slice_to_ok by lia. cbn.
           rewrite slice_ok by lia. reflexivity.
    + intros [user password] _. rewrite slice_from_ok by lia. reflexivity.
  - intros [[user password] u] _.
    pose proof (len_nonneg u) as Hlen.
    assert (He : 0 <= (if (if Index u ";" =? -1 then Index u "?" else Index u ";") =? -1
                       then len u
                       else if Index u ";" =? -1 then Index u "?" else Index u ";")
                 <= len u).
    { pose proof (Index_bound u ";") as H1. pose proof (Index_bound u "?") as H2.
      pose proof (len_nonneg ";") as H3. pose proof (len_nonneg "?") as H4.
      destruct (Index u ";" =? -1) eqn:E1.
      - destruct (Index u "?" =? -1) eqn:E2; [lia|].
        apply Z.eqb_neq in E2. lia.
      - rewrite E1. apply Z.eqb_neq in E1. lia. }
    set (e := if (if Index u ";" =? -1 then Index u "?" else Index u ";") =? -1
              then len u
              else if Index u ";" =? -1 then Index u "?" else Index u ";") in *.
    rewrite slice_to_ok, slice_from_ok by lia. cbn.
    apply bind_no_panic; [apply parseHostPort_no_panic|].
    intros [host port] _.
    destruct (len (drop (Z.to_nat e) u) =? 0) eqn:Hl; [reflexivity|].
    apply Z.eqb_neq in Hl.
    set (t := drop (Z.to_nat e) u) in *.
    apply bind_no_panic; [apply at_no_panic; exact Hl|].
    intros c _. apply bind_no_panic.
    + destruct (eqb_byte c _); [apply parseParams_no_panic|reflexivity].
    + intros [uriParams n] Hn.
      assert (Hnb : 0 <= n <= len t).
      { destruct (eqb_byte c _).
        - apply parseParams_consumed in Hn. lia.
        - injection Hn as _ <-. pose proof (len_nonneg t). lia. }
      rewrite slice_from_ok by lia. cbn.
      apply bind_no_panic; [apply parseParams_no_panic|].
      intros [headers m] Hm. apply parseParams_consumed in Hm.
      rewrite slice_from_ok by lia. cbn.
      destruct (_ >? 0); reflexivity.
Qed.

Lemma ToLower_cons (c : byte) (s : string) :
  ToLower (String c s)
  = String (if is_upper c then chr (code c + 32) else c) (ToLower s).
Proof. reflexivity. Qed.

(** [ParseSipUri] on a text that starts with the scheme [sip] or [sips]
    followed by a colon. *)
Lemma ParseSipUri_no_panic (scheme rest : string) :
  ToLower scheme = "sip" \/ ToLower scheme = "sips" ->
  is_panic (ParseSipUri (scheme ++ String colon rest)%string) = false.
Proof.
  intros Hs.
  assert (Hcolon : ToLower (String colon EmptyString) = ":") by reflexivity.
  pose proof (len_nonneg rest) as Hr.
  destruct Hs as [Hs|Hs].
  - destruct scheme as [|a [|b [|c [|d sc]]]]; try discriminate Hs.
    unfold ParseSipUri.
    change (String a (String b (String c EmptyString)) ++ String colon rest)%string
      with (String a (String b (String c (String colon rest)))).
    rewrite slice_to_ok by (rewrite ?len_cons; lia).
    change (Z.to_nat 3) with 3%nat. cbn [take mbind go_bind Go.bind].
    rewrite Hs. cbn [String.eqb Ascii.eqb Bool.eqb negb].
    change (if String.eqb "sip" "sip" then false else true) with false.
    cbv iota.
    rewrite slice_from_ok by (rewrite ?len_cons; lia).
    change (Z.to_nat 3) with 3%nat. cbn [drop mbind go_bind Go.bind].
    rewrite slice_ok by (rewrite ?len_cons; lia).
    change (Z.to_nat (1 - 0)) with 1%nat. change (Z.to_nat 0) with 0%nat.
    cbn [take drop mbind go_bind Go.bind]. rewrite Hcolon.
    change (String.eqb ":" "s") with false. cbv iota.
    cbn [mbind go_bind Go.bind]. rewrite at_head. cbn [mbind go_bind Go.bind].
    unfold eqb_byte at 1. rewrite Ascii.eqb_refl. cbn [negb].
    rewrite slice_from_ok by (rewrite ?len_cons; lia).
    change (Z.to_nat 1) with 1%nat. cbn [drop mbind go_bind Go.bind].
    apply sip_uri_rest_no_panic.
  - destruct scheme as [|a [|b [|c [|d [|e sc]]]]]; try discriminate Hs.
    rewrite !ToLower_cons in Hs. injection Hs as Ha Hb Hc Hd.
    unfold ParseSipUri.
    change (String a (String b (String c (String d EmptyString))) ++ String colon rest)%string
      with (String a (String b (String c (String d (String colon rest))))).
    rewrite slice_to_ok by (rewrite ?len_cons; lia).
    change (Z.to_nat 3) with 3%nat. cbn [take mbind go_bind Go.bind].
    rewrite !ToLower_cons, Ha, Hb, Hc.
    change (ToLower EmptyString) with EmptyString.
    change (if negb (String.eqb "sip" "sip") then ?x else ?y) with y.
    rewrite slice_from_ok by (rewrite ?len_cons; lia).
    change (Z.to_nat 3) with 3%nat. cbn [drop mbind go_bind Go.bind].
    rewrite slice_ok by (rewrite ?len_cons; lia).
    change (Z.to_nat (1 - 0)) with 1%nat. change (Z.to_nat 0) with 0%nat.
    cbn [take drop mbind go_bind Go.bind].
    rewrite ToLower_cons, Hd. change (ToLower EmptyString) with EmptyString.
    change (String.eqb "s" "s") with true. cbv iota.
    rewrite slice_from_ok by (rewrite ?len_cons; lia).
    change (Z.to_nat 1) with 1%nat. cbn [drop mbind go_bind Go.bind].
    rewrite at_head. cbn [mbind go_bind Go.bind].
    unfold eqb_byte at 1. rewrite Ascii.eqb_refl. cbn [negb].
    rewrite slice_from_ok by (rewrite ?len_cons; lia).
    change (Z.to_nat 1) with 1%nat. cbn [drop mbind go_bind Go.bind].
    apply sip_uri_rest_no_panic.
Qed.

Lemma ParseUri_no_panic (uriStr : string) : is_panic (ParseUri uriStr) = false.
Proof.
  unfold ParseUri. destruct (String.eqb (TrimSpace uriStr) "*"); [reflexivity|].
  change ":" with (String colon EmptyString).
  destruct (Index uriStr (String colon EmptyString) =? -1) eqn:Hi; [reflexivity|].
  apply Z.eqb_neq in Hi. destruct (Index_byte_found uriStr colon Hi) as (Hb & _ & Hs).
  rewrite slice_to_ok by lia. cbn [mbind go_bind Go.bind].
  set (scheme := take (Z.to_nat (Index uriStr (String colon EmptyString))) uriStr) in *.
  destruct (String.eqb (ToLower scheme) "sip") eqn:H1.
  - apply String.eqb_eq in H1. apply bind_no_panic; [|reflexivity].
    rewrite Hs. apply ParseSipUri_no_panic. left. exact H1.
  - destruct (String.eqb (ToLower scheme) "sips") eqn:H2; [|reflexivity].
    apply String.eqb_eq in H2. apply bind_no_panic; [|reflexivity].
    rewrite Hs. apply ParseSipUri_no_panic. right. exact H2.
Qed.

(** X5: [ParseUri] returns a URI or an error and never panics, on every
    ASCII text (on such a text the embedding of [strings.ToLower] is exact):
    it hands to [ParseSipUri] only a text that starts with the scheme and a
    colon.  [ParseSipUri] called on its own panics on every text shorter than
    three bytes. *)
Theorem ParseUri_never_panics :
  (forall uriStr, ascii_only uriStr = true -> is_panic (ParseUri uriStr) = false) /\
  (forall s, len s < 3 -> ParseSipUri s = Panic (SliceOutOfRange 0 3 (len s))).
Proof.
  split.
  - intros uriStr _. apply ParseUri_no_panic.
  - intros s H. unfold ParseSipUri, slice_to, slice.
    replace (3 <=? len s) with false by (symmetry; apply Z.leb_gt; exact H).
    reflexivity.
Qed.

Lemma ParseUri_never_panics_witness :
  is_panic (ParseUri "sip:bob:secret@example.com:5060;transport=udp?subject=x") = false /\
  ParseSipUri "si" = Panic (SliceOutOfRange 0 3 (len "si")).
Proof.
  split.
  - apply (proj1 ParseUri_never_panics). reflexivity.
  - apply (proj2 ParseUri_never_panics). reflexivity.
Defined.

Lemma isRequest_fields (l : string) :
  isRequest l = true ->
  exists p0 p1 p2,
    Split l space = [p0; p1; p2] /\
    parseRequestLine l = (recipient ← ParseUri p1; Ok (ToUpper p0, recipient, p2)).
Proof.
  unfold isRequest, parseRequestLine.
  destruct (Count l space =? 2) eqn:Hc; [|discriminate].
  apply Z.eqb_eq in Hc. pose proof (Split_length l space) as Hl.
  rewrite Hc in Hl.
  destruct (Split l space) as [|p0 [|p1 [|p2 [|p3 ps]]]]; cbn in Hl; try lia.
  intros _. exists p0, p1, p2. split; reflexivity.
Qed.

Lemma isResponse_fields (l : string) :
  isResponse l = true ->
  exists p0 p1 rest,
    Split l space = p0 :: p1 :: rest /\ rest <> [] /\
    parseStatusLine l
    = (statusCode ← ParseUint p1 16; Ok (p0, statusCode, Join rest EmptyString)).
Proof.
  unfold isResponse, parseStatusLine.
  destruct (Count l space <? 2) eqn:Hc; [discriminate|].
  destruct (Split l space) as [|p0 [|p1 [|p2 ps]]]; try discriminate.
  intros _. exists p0, p1, (p2 :: ps). repeat split. discriminate.
Qed.

Lemma parseStartLine_no_panic (l : string) : is_panic (parseStartLine l) = false.
Proof.
  unfold parseStartLine. destruct (isRequest l) eqn:Hq.
  - destruct (isRequest_fields l Hq) as (p0 & p1 & p2 & _ & ->).
    apply bind_no_panic.
    + apply bind_no_panic; [apply ParseUri_no_panic|reflexivity].
    + intros [[m r] v] _. reflexivity.
  - destruct (isResponse l) eqn:Hr; [|reflexivity].
    destruct (isResponse_fields l Hr) as (p0 & p1 & rest & _ & _ & ->).
    apply bind_no_panic.
    + apply bind_no_panic; [apply ParseUint_no_panic|reflexivity].
    + intros [[m r] v] _. reflexivity.
Qed.

(** X6: a start line that passes [isRequest] has exactly three fields, so
    [parseRequestLine] can only fail on its URI; one that passes [isResponse]
    has at least three, so [parseStatusLine] can only fail on its status
    code: the field-count errors of the two functions are out of reach of the
    parse task.  The start line of an ASCII text is parsed without a panic. *)
Theorem start_line_fields (l : string) :
  (isRequest l = true ->
   exists p0 p1 p2,
     Split l space = [p0; p1; p2] /\
     parseRequestLine l = (recipient ← ParseUri p1; Ok (ToUpper p0, recipient, p2))) /\
  (isResponse l = true ->
   exists p0 p1 rest,
     Split l space = p0 :: p1 :: rest /\ rest <> [] /\
     parseStatusLine l
     = (statusCode ← ParseUint p1 16; Ok (p0, statusCode, Join rest EmptyString))) /\
  (ascii_only l = true -> is_panic (parseStartLine l) = false).
Proof.
  split; [apply isRequest_fields|]. split; [apply isResponse_fields|].
  intros _. apply parseStartLine_no_panic.
Qed.

Lemma start_line_fields_witness :
  (exists p0 p1 p2,
     Split "INVITE sip:bob@example.com SIP/2.0" space = [p0; p1; p2] /\
     parseRequestLine "INVITE sip:bob@example.com SIP/2.0"
     = (recipient ← ParseUri p1; Ok (ToUpper p0, recipient, p2))) /\
  (exists p0 p1 rest,
     Split "SIP/2.0 486 Busy Here" space = p0 :: p1 :: rest /\ rest <> [] /\
     parseStatusLine "SIP/2.0 486 Busy Here"
     = (statusCode ← ParseUint p1 16; Ok (p0, statusCode, Join rest EmptyString))) /\
  is_panic (parseStartLine "INVITE sip:bob@example.com SIP/2.0") = false.
Proof.
  split; [|split].
  - apply (proj1 (start_line_fields "INVITE sip:bob@example.com SIP/2.0")).
    reflexivity.
  - apply (proj1 (proj2 (start_line_fields "SIP/2.0 486 Busy Here"))).
    reflexivity.
  - apply (proj2 (proj2 (start_line_fields "INVITE sip:bob@example.com SIP/2.0"))).
    reflexivity.
Defined.

Lemma ParseUri_wildcard : ParseUri "*" = Ok WildcardUri.
Proof. vm_compute. reflexivity. Qed.

Lemma parseRequestLine_star (m v : string) :
  mem_byte space m = false -> mem_byte space v = false ->
  parseRequestLine (m ++ String space (String (ch "*") (String space v)))%string
  = Ok (ToUpper m, WildcardUri, v).
Proof.
  intros Hm Hv. unfold parseRequestLine.
  rewrite (Split_app m _ space Hm).
  change (String (ch "*") (String space v))
    with (String (ch "*") EmptyString ++ String space v)%string.
  rewrite (Split_app (String (ch "*") EmptyString) v space eq_refl).
  rewrite (Split_no_sep v space Hv).
  change (String (ch "*") EmptyString) with "*". rewrite ParseUri_wildcard.
  reflexivity.
Qed.

(** X7: a request line whose target is the wildcard [*] is accepted:
    [parseRequestLine] returns the wildcard as the recipient with no error
    (its type switch tests for a pointer type, and [ParseUri] returns the
    wildcard as a value), and the parse task then builds the request. *)
Theorem request_line_wildcard (m v : string) :
  mem_byte space m = false -> mem_byte space v = false ->
  let l := (m ++ String space (String (ch "*") (String space v)))%string in
  parseRequestLine l = Ok (ToUpper m, WildcardUri, v) /\
  (isRequest l = true ->
   parseStartLine l = Ok (NewRequest (ToUpper m) WildcardUri v [] EmptyString)).
Proof.
  intros Hm Hv l. pose proof (parseRequestLine_star m v Hm Hv) as H.
  split; [exact H|]. intros Hq. unfold parseStartLine. rewrite Hq.
  fold l in H. rewrite H. reflexivity.
Qed.

Lemma request_line_wildcard_witness :
  parseRequestLine "OPTIONS * SIP/2.0" = Ok ("OPTIONS", WildcardUri, "SIP/2.0") /\
  parseStartLine "OPTIONS * SIP/2.0"
  = Ok (NewRequest "OPTIONS" WildcardUri "SIP/2.0" [] EmptyString).
Proof.
  destruct (request_line_wildcard "OPTIONS" "SIP/2.0") as [H1 H2];
    [reflexivity|reflexivity|].
  split; [exact H1|]. apply H2. reflexivity.
Defined.

(** X8: the numeric headers.  An accepted CSeq header is one header whose
    sequence number lies between 0 and 2^31 - 1 and whose method holds no
    semicolon; an accepted Max-Forwards or Content-Length header is one
    header whose value is the decimal number of the trimmed text and is below
    2^32. *)
Theorem numeric_headers :
  (forall name text hs,
      parseCSeq name text = Ok hs ->
      exists n m, hs = [CSeq n m] /\ 0 <= n <= maxCseq /\ Contains m ";" = false) /\
  (forall name text hs,
      parseMaxForwards name text = Ok hs ->
      exists n, hs = [MaxForwards n] /\ 0 <= n < 2 ^ 32 /\
                ParseUint (TrimSpace text) 32 = Ok n) /\
  (forall name text hs,
      parseContentLength name text = Ok hs ->
      exists n, hs = [ContentLength n] /\ 0 <= n < 2 ^ 32 /\
                ParseUint (TrimSpace text) 32 = Ok n).
Proof.
  split; [|split].
  - intros name text hs. unfold parseCSeq.
    destruct (splitByWhitespace text) as [|p0 [|p1 [|p2 ps]]]; try discriminate.
    intros H. apply bind_Ok in H as (n & Hn & H).
    destruct (n >? maxCseq) eqn:Hmax; [discriminate|].
    destruct (Contains (TrimSpace p1) ";") eqn:Hc; [discriminate|].
    injection H as <-. exists n, (TrimSpace p1).
    apply ParseUint_range in Hn. rewrite Z.gtb_ltb in Hmax. apply Z.ltb_ge in Hmax.
    repeat split; [lia|exact Hmax|exact Hc].
  - intros name text hs. unfold parseMaxForwards. intros H.
    apply bind_Ok in H as (n & Hn & H).
    injection H as <-. exists n. split; [reflexivity|].
    split; [exact (ParseUint_range _ _ _ Hn)|exact Hn].
  - intros name text hs. unfold parseContentLength. intros H.
    apply bind_Ok in H as (n & Hn & H).
    injection H as <-. exists n. split; [reflexivity|].
    split; [exact (ParseUint_range _ _ _ Hn)|exact Hn].
Qed.

Lemma numeric_headers_witness :
  (exists n m, [CSeq 2147483647 "INVITE"] = [CSeq n m] /\ 0 <= n <= maxCseq /\
               Contains m ";" = false) /\
  (exists n, [MaxForwards 70] = [MaxForwards n] /\ 0 <= n < 2 ^ 32 /\
             ParseUint (TrimSpace " 70 ") 32 = Ok n) /\
  (exists n, [ContentLength 4] = [ContentLength n] /\ 0 <= n < 2 ^ 32 /\
             ParseUint (TrimSpace "4") 32 = Ok n).
Proof.
  destruct numeric_headers as (H1 & H2 & H3).
  split; [|split].
  - apply (H1 "cseq" "2147483647  INVITE"). vm_compute. reflexivity.
  - apply (H2 "max-forwards" " 70 "). vm_compute. reflexivity.
  - apply (H3 "l" "4"). vm_compute. reflexivity.
Defined.

Lemma len_zero (s : string) : (len s =? 0) = false -> s <> EmptyString.
Proof. intros H ->. discriminate H. Qed.

Lemma parseViaHop_ok (section : string) (err : option error) (hop : ViaHop)
    (err' : option error) :
  parseViaHop section err = Ok (hop, err') -> hop_ok hop /\ err = None.
Proof.
  unfold parseViaHop.
  destruct (Split section slash) as [|p0 [|p1 [|p2 rest]]]; try discriminate.
  cbv zeta. intros H.
  apply bind_Ok in H as (tail & Htail & H).
  destruct (_ =? 0); [discriminate|]. destruct (_ =? 1); [discriminate|].
  apply bind_Ok in H as (transport & Htr & H).
  destruct (len (TrimSpace p0) =? 0) eqn:H0; [discriminate|].
  destruct (len (TrimSpace p1) =? 0) eqn:H1; [discriminate|].
  destruct (len (TrimSpace transport) =? 0) eqn:H2; [discriminate|].
  destruct err as [e|]; [discriminate|].
  apply len_zero in H0, H1, H2.
  apply bind_Ok in H as (viaBody & Hbody & H).
  destruct (Index viaBody ";" =? -1).
  - apply bind_Ok in H as ([host port] & Hhp & H). injection H as <- <-.
    apply parseHostPort_ok in Hhp as [Hh Hp].
    split; [|reflexivity]. unfold hop_ok. cbn.
    repeat split; try assumption. destruct port as [v|]; [apply Hp|exact I].
  - apply bind_Ok in H as (hostport & Hhostport & H).
    apply bind_Ok in H as ([host port] & Hhp & H).
    apply bind_Ok in H as (ptext & Hptext & H).
    apply parseHostPort_ok in Hhp as [Hh Hp].
    destruct (parseParams ptext _ _ _ _ _) as [[params n]| |]; try discriminate;
      injection H as <- <-; (split; [|reflexivity]); unfold hop_ok; cbn;
      repeat split; try assumption; destruct port as [v|]; try apply Hp; exact I.
Qed.

Lemma viaLoop_ok (sections : list string) :
  forall via err hs,
    viaLoop sections via err = Ok hs ->
    exists hops,
      hs = [ViaHeader (via ++ hops)] /\
      List.length hops = List.length sections /\
      Forall hop_ok hops.
Proof.
  induction sections as [|s sections IH]; intros via err hs H; cbn in H.
  - destruct err; [discriminate|]. injection H as <-.
    exists []. rewrite app_nil_r. repeat split. constructor.
  - apply bind_Ok in H as ([hop err'] & Hhop & H).
    apply parseViaHop_ok in Hhop as [Hok _].
    apply IH in H as (hops & -> & Hlen & Hall).
    exists (hop :: hops). rewrite <- app_assoc. cbn. repeat split.
    + rewrite Hlen. reflexivity.
    + constructor; assumption.
Qed.

(** X9: an accepted Via header line yields exactly one Via header, with
    one hop per comma-separated section of the text (commas inside quotes
    included); every hop has a protocol name, a version and a transport that
    are not empty, a host without a colon and a port between 0 and 65535. *)
Theorem parseViaHeader_hops (name text : string) (hs : list Header) :
  parseViaHeader name text = Ok hs ->
  exists hops,
    hs = [ViaHeader hops] /\
    Z.of_nat (List.length hops) = Count text comma + 1 /\
    Forall hop_ok hops.
Proof.
  unfold parseViaHeader. intros H. apply viaLoop_ok in H as (hops & -> & Hlen & Hall).
  exists hops. rewrite Hlen, Split_length. repeat split. exact Hall.
Qed.

Lemma parseViaHeader_hops_witness :
  exists hops,
    [ViaHeader [mkViaHop "SIP" "2.0" "UDP" "a.example.com" (Some 5060)
                         [("branch", Some "z9hG4bK1")];
                mkViaHop "SIP" "2.0" "TCP" "b.example.com" None []]]
    = [ViaHeader hops] /\
    Z.of_nat (List.length hops)
    = Count "SIP/2.0/UDP a.example.com:5060;branch=z9hG4bK1, SIP/2.0/TCP b.example.com"
            comma + 1 /\
    Forall hop_ok hops.
Proof.
  apply (parseViaHeader_hops "via"
           "SIP/2.0/UDP a.example.com:5060;branch=z9hG4bK1, SIP/2.0/TCP b.example.com").
  vm_compute. reflexivity.
Defined.

Lemma addressHeaders_to (name : string) (vals : list (MaybeString * Uri * Params)) :
  String.eqb name "to" || String.eqb name "t" = true ->
  forall idx headers hs,
    0 <= idx ->
    addressHeaders name idx vals headers = Ok hs ->
    vals = [] /\ hs = headers \/
    idx = 0 /\ exists d u p, vals = [(d, SipUriPtr u, p)] /\
                             hs = (headers ++ [ToHeader d (SipUriPtr u) p])%list.
Proof.
  intros Hname. destruct vals as [|[[d u] p] vals]; intros idx headers hs Hidx H.
  - injection H as <-. left. split; reflexivity.
  - right. cbn [addressHeaders] in H. rewrite Hname in H.
    destruct (idx >? 0) eqn:Hi; [discriminate|].
    rewrite Z.gtb_ltb in Hi. apply Z.ltb_ge in Hi.
    destruct u as [u|]; [|discriminate]. cbn in H.
    destruct vals as [|[[d' u'] p'] vals].
    + injection H as <-. split; [lia|]. eauto.
    + cbn [addressHeaders] in H. rewrite Hname in H.
      replace (idx + 1 >? 0) with true in H; [discriminate|].
      symmetry. rewrite Z.gtb_ltb. apply Z.ltb_lt. lia.
Qed.

Lemma addressHeaders_from (name : string) (vals : list (MaybeString * Uri * Params)) :
  String.eqb name "to" || String.eqb name "t" = false ->
  String.eqb name "from" || String.eqb name "f" = true ->
  forall idx headers hs,
    0 <= idx ->
    addressHeaders name idx vals headers = Ok hs ->
    vals = [] /\ hs = headers \/
    idx = 0 /\ exists d u p, vals = [(d, SipUriPtr u, p)] /\
                             hs = (headers ++ [FromHeader d (SipUriPtr u) p])%list.
Proof.
  intros Hto Hname. destruct vals as [|[[d u] p] vals]; intros idx headers hs Hidx H.
  - injection H as <-. left. split; reflexivity.
  - right. cbn [addressHeaders] in H. rewrite Hto, Hname in H.
    destruct (idx >? 0) eqn:Hi; [discriminate|].
    rewrite Z.gtb_ltb in Hi. apply Z.ltb_ge in Hi.
    destruct u as [u|]; [|discriminate]. cbn in H.
    destruct vals as [|[[d' u'] p'] vals].
    + injection H as <-. split; [lia|]. eauto.
    + cbn [addressHeaders] in H. rewrite Hto, Hname in H.
      replace (idx + 1 >? 0) with true in H; [discriminate|].
      symmetry. rewrite Z.gtb_ltb. apply Z.ltb_lt. lia.
Qed.

Lemma addressHeaders_contact (name : string) (vals : list (MaybeString * Uri * Params)) :
  String.eqb name "to" || String.eqb name "t" = false ->
  String.eqb name "from" || String.eqb name "f" = false ->
  String.eqb name "contact" || String.eqb name "m" = true ->
  forall idx headers hs,
    addressHeaders name idx vals headers = Ok hs ->
    Forall contact_ok headers ->
    Forall contact_ok hs /\
    List.length hs = (List.length headers + List.length vals)%nat.
Proof.
  intros Hto Hfrom Hname.
  induction vals as [|[[d u] p] vals IH]; intros idx headers hs H Hall.
  - injection H as <-. split; [exact Hall|]. cbn. lia.
  - cbn [addressHeaders] in H. rewrite Hto, Hfrom, Hname in H.
    destruct u as [u|].
    + cbn in H. apply IH in H.
      * rewrite List.length_app in H. cbn in *. split; [apply H|]. lia.
      * apply Forall_app. split; [exact Hall|]. constructor; [exact I|constructor].
    + destruct (Params_Length p >? 0) eqn:Hp; [discriminate|].
      destruct d as [d|]; [discriminate|]. cbn in H. apply IH in H.
      * rewrite List.length_app in H. cbn in *. split; [apply H|]. lia.
      * apply Forall_app. split; [exact Hall|]. constructor; [|constructor].
        cbn. split; [reflexivity|].
        destruct p; [reflexivity|]. unfold Params_Length in Hp. cbn in Hp.
        rewrite Z.gtb_ltb in Hp. apply Z.ltb_ge in Hp. lia.
Qed.

(** X10: the shape of an accepted address header.  A To or From line
    yields no header or exactly one, whose address is a SIP URI and never the
    wildcard; a Contact line yields only Contact headers, and one with the
    wildcard address has neither display name nor parameters. *)
Theorem address_header_shape (text : string) (hs : list Header) :
  (forall name, name = "to" \/ name = "t" ->
     parseAddressHeader name text = Ok hs ->
     hs = [] \/ exists d u p, hs = [ToHeader d (SipUriPtr u) p]) /\
  (forall name, name = "from" \/ name = "f" ->
     parseAddressHeader name text = Ok hs ->
     hs = [] \/ exists d u p, hs = [FromHeader d (SipUriPtr u) p]) /\
  (forall name, name = "contact" \/ name = "m" ->
     parseAddressHeader name text = Ok hs ->
     Forall contact_ok hs).
Proof.
  split; [|split]; intros name Hname H; unfold parseAddressHeader in H.
  - assert (Hb : String.eqb name "to" || String.eqb name "t" = true)
      by (destruct Hname as [-> | ->]; reflexivity).
    replace (is_address_name name) with true in H
      by (destruct Hname as [-> | ->]; reflexivity).
    apply bind_Ok in H as (vals & _ & H).
    apply (addressHeaders_to name vals Hb) in H; [|lia].
    destruct H as [[_ ->]|(_ & d & u & p & _ & ->)]; [left; reflexivity|right; eauto].
  - assert (Hb : String.eqb name "from" || String.eqb name "f" = true)
      by (destruct Hname as [-> | ->]; reflexivity).
    assert (Hb' : String.eqb name "to" || String.eqb name "t" = false)
      by (destruct Hname as [-> | ->]; reflexivity).
    replace (is_address_name name) with true in H
      by (destruct Hname as [-> | ->]; reflexivity).
    apply bind_Ok in H as (vals & _ & H).
    apply (addressHeaders_from name vals Hb' Hb) in H; [|lia].
    destruct H as [[_ ->]|(_ & d & u & p & _ & ->)]; [left; reflexivity|right; eauto].
  - assert (Hb : String.eqb name "contact" || String.eqb name "m" = true)
      by (destruct Hname as [-> | ->]; reflexivity).
    assert (Hb' : String.eqb name "to" || String.eqb name "t" = false)
      by (destruct Hname as [-> | ->]; reflexivity).
    assert (Hb'' : String.eqb name "from" || String.eqb name "f" = false)
      by (destruct Hname as [-> | ->]; reflexivity).
    replace (is_address_name name) with true in H
      by (destruct Hname as [-> | ->]; reflexivity).
    apply bind_Ok in H as (vals & _ & H).
    apply (addressHeaders_contact name vals Hb' Hb'' Hb) in H; [apply H|constructor].
Qed.

Lemma address_header_shape_witness :
  ([ToHeader (Some "Bob") bob [("tag", Some "1")]] = []
   \/ exists d u p, [ToHeader (Some "Bob") bob [("tag", Some "1")]]
                    = [ToHeader d (SipUriPtr u) p]) /\
  Forall contact_ok [ContactHeader None WildcardUri []].
Proof.
  split.
  - apply (proj1 (address_header_shape "Bob <sip:bob@example.com>;tag=1" _) "to").
    + left. reflexivity.
    + vm_compute. reflexivity.
  - apply (proj2 (proj2 (address_header_shape " * " _)) "contact").
    + left. reflexivity.
    + vm_compute. reflexivity.
Defined.

(** An unclosed bracket or quote: the loop of [parseAddressValues] never
    reaches a top-level comma. *)
Lemma addressLoop_unclosed (addresses rest : string) :
  mem_byte rangle rest = false -> mem_byte dquote rest = false ->
  forall idx prevIdx acc inBrackets inQuotes,
    inBrackets || inQuotes = true ->
    addressLoop addresses rest idx prevIdx inBrackets inQuotes acc = Ok acc.
Proof.
  induction rest as [|c rest IH]; intros Hr Hq idx prevIdx acc b q Hb;
    [reflexivity|].
  cbn in Hr, Hq. apply orb_false_elim in Hr as [Hr1 Hr2].
  apply orb_false_elim in Hq as [Hq1 Hq2].
  assert (Hcr : eqb_byte c rangle = false)
    by (unfold eqb_byte in *; rewrite Ascii.eqb_sym; exact Hr1).
  assert (Hcq : eqb_byte c dquote = false)
    by (unfold eqb_byte in *; rewrite Ascii.eqb_sym; exact Hq1).
  cbn [addressLoop]. rewrite Hcr, Hcq. cbn [andb].
  destruct (eqb_byte c langle && negb q) eqn:Hl.
  - apply IH; [assumption|assumption|reflexivity].
  - replace (negb q && negb b && eqb_byte c comma) with false.
    + apply IH; assumption.
    + destruct b, q; try reflexivity. discriminate Hb.
Qed.

(** X11: an address header whose text opens a bracket or a quote that is
    never closed yields no header and no error: [parseAddressValues] returns
    an empty list, and the header line is dropped silently. *)
Theorem address_header_unclosed (open : byte) (t name : string) :
  open = langle \/ open = dquote ->
  mem_byte rangle t = false -> mem_byte dquote t = false ->
  parseAddressValues (String open t) = Ok [] /\
  parseAddressHeader name (String open t) = Ok [].
Proof.
  intros Ho Hr Hq.
  assert (H : parseAddressValues (String open t) = Ok []).
  { unfold parseAddressValues.
    change (String open t ++ ",")%string with (String open (t ++ ","))%string.
    assert (Hr' : mem_byte rangle (t ++ ",") = false)
      by (rewrite mem_byte_app, Hr; reflexivity).
    assert (Hq' : mem_byte dquote (t ++ ",") = false)
      by (rewrite mem_byte_app, Hq; reflexivity).
    destruct Ho as [-> | ->]; cbn [addressLoop].
    - change (eqb_byte langle langle && negb false) with true. cbv iota.
      apply addressLoop_unclosed; [exact Hr'|exact Hq'|reflexivity].
    - change (eqb_byte dquote langle && negb false) with false.
      change (eqb_byte dquote rangle && negb false) with false.
      change (eqb_byte dquote dquote) with true. cbv iota.
      apply addressLoop_unclosed; [exact Hr'|exact Hq'|reflexivity]. }
  split; [exact H|]. unfold parseAddressHeader. rewrite H.
  destruct (is_address_name name); reflexivity.
Qed.

Lemma address_header_unclosed_witness :
  parseAddressValues "<sip:bob@example.com;tag=1" = Ok [] /\
  parseAddressHeader "to" "<sip:bob@example.com;tag=1" = Ok [].
Proof.
  apply (address_header_unclosed langle "sip:bob@example.com;tag=1" "to").
  - left. reflexivity.
  - reflexivity.
  - reflexivity.
Defined.

(** X12: for a datagram that holds a blank line (CRLF CRLF),
    [getBodyLength] is the number of bytes after the first one: the datagram
    is a head, CRLF CRLF and a body of that length, where the head is as long
    as the offset [strings.Index] finds; the length lies between 0 and
    [len(data) - 4]. *)
Theorem getBodyLength_blank_line (data : string) :
  Index data (CRLF ++ CRLF) <> -1 ->
  exists head body,
    data = (head ++ (CRLF ++ CRLF) ++ body)%string /\
    len head = Index data (CRLF ++ CRLF) /\
    getBodyLength data = len body /\
    0 <= getBodyLength data <= len data - 4.
Proof.
  unfold getBodyLength, Index.
  destruct (index_nat data (CRLF ++ CRLF)) as [n|] eqn:Hn;
    [intros _|intros H; contradiction H; reflexivity].
  pose proof (index_nat_bound _ _ _ Hn) as Hb.
  destruct (index_nat_found _ _ _ Hn) as [post Hpost].
  exists (take n data), post.
  assert (Hd : data = (take n data ++ (CRLF ++ CRLF) ++ post)%string).
  { rewrite <- Hpost. symmetry. apply str_take_drop. }
  assert (Hl : len (take n data) = Z.of_nat n).
  { unfold len. rewrite str_length_take; [reflexivity|lia]. }
  split; [exact Hd|]. split; [exact Hl|].
  assert (Hlen : len data = Z.of_nat n + 4 + len post).
  { rewrite Hd at 1. rewrite !len_app, Hl. change (len CRLF) with 2. lia. }
  pose proof (len_nonneg post). split; lia.
Qed.

Lemma getBodyLength_blank_line_witness :
  exists head body,
    resp_ping = (head ++ (CRLF ++ CRLF) ++ body)%string /\
    len head = Index resp_ping (CRLF ++ CRLF) /\
    getBodyLength resp_ping = len body /\
    0 <= getBodyLength resp_ping <= len resp_ping - 4.
Proof.
  apply (getBodyLength_blank_line resp_ping). vm_compute. discriminate.
Defined.

Lemma Contains_of_byte (t c : byte) :
  code t < 128 -> Contains (of_byte t) (of_byte c) = eqb_byte c t.
Proof.
  intros Ht. unfold of_byte at 1.
  replace (code t <? 128) with true by (symmetry; apply Z.ltb_lt; exact Ht).
  cbv zeta iota. unfold of_byte. cbv zeta.
  destruct (code c <? 128) eqn:Hc.
  - unfold Contains, Index. cbn [index_nat HasPrefix].
    destruct (eqb_byte c t); reflexivity.
  - unfold Contains, Index. cbn [index_nat HasPrefix].
    rewrite andb_false_r.
    assert (Hne : eqb_byte c t = false).
    { apply Ascii.eqb_neq. intros ->. apply Z.ltb_ge in Hc. lia. }
    rewrite Hne. reflexivity.
Qed.

Lemma findLoop_sound (ends : gmap byte byte) (t : byte) (text : string) :
  code t < 128 ->
  forall idx escaped endEscape,
    let r := findLoop ends (of_byte t) text idx escaped endEscape in
    r = -1 \/
    (idx <= r < idx + len text /\
     String.get (Z.to_nat (r - idx)) text = Some t).
Proof.
  intros Ht. induction text as [|c text IH]; intros idx escaped endEscape;
    [left; reflexivity|].
  cbn [findLoop]. rewrite (Contains_of_byte t c Ht), len_cons.
  pose proof (len_nonneg text) as Hn.
  assert (Hstep : forall r,
            r = -1 \/ idx + 1 <= r < idx + 1 + len text /\
                      String.get (Z.to_nat (r - (idx + 1))) text = Some t ->
            r = -1 \/ idx <= r < idx + (1 + len text) /\
                      String.get (Z.to_nat (r - idx)) (String c text) = Some t).
  { intros r [Hr|[Hb Hg]]; [left; exact Hr|right]. split; [lia|].
    replace (Z.to_nat (r - idx)) with (S (Z.to_nat (r - (idx + 1)))) by lia.
    exact Hg. }
  destruct (negb escaped && eqb_byte c t) eqn:Hhit.
  - right. apply andb_prop in Hhit as [_ Hc]. apply eqb_byte_true in Hc. subst c.
    split; [lia|]. rewrite Z.sub_diag. reflexivity.
  - destruct escaped; [apply Hstep, IH|].
    destruct (ends !! c); apply Hstep, IH.
Qed.

Lemma findLoop_absent (ends : gmap byte byte) (t : byte) (text : string) :
  code t < 128 -> mem_byte t text = false ->
  forall idx escaped endEscape,
    findLoop ends (of_byte t) text idx escaped endEscape = -1.
Proof.
  intros Ht. induction text as [|c text IH]; intros Hm idx escaped endEscape;
    [reflexivity|].
  cbn in Hm. apply orb_false_elim in Hm as [Hc Hm].
  cbn [findLoop]. rewrite (Contains_of_byte t c Ht).
  replace (eqb_byte c t) with false
    by (unfold eqb_byte in *; rewrite Ascii.eqb_sym; symmetry; exact Hc).
  rewrite andb_false_r.
  destruct escaped; [apply IH; exact Hm|].
  destruct (ends !! c); apply IH; exact Hm.
Qed.

Lemma findLoop_no_delims (t : byte) (text : string) :
  code t < 128 ->
  forall idx,
    findLoop ∅ (of_byte t) text idx false zero
    = match index_nat text (String t EmptyString) with
      | Some n => idx + Z.of_nat n
      | None => -1
      end.
Proof.
  intros Ht. induction text as [|c text IH]; intros idx; [reflexivity|].
  cbn [findLoop index_nat HasPrefix]. rewrite (Contains_of_byte t c Ht).
  rewrite HasPrefix_nil, andb_true_r. cbn [negb andb].
  replace (eqb_byte t c) with (eqb_byte c t)
    by (unfold eqb_byte; apply Ascii.eqb_sym).
  destruct (eqb_byte c t); [lia|].
  rewrite lookup_empty, IH.
  destruct (index_nat text (String t EmptyString)); cbn; lia.
Qed.

(** X13: for an ASCII target, [findUnescaped] answers [-1] or the index of
    an occurrence of the target in the text; it answers [-1] when the target
    does not occur; and with no delimiters it is [strings.Index]. *)
Theorem findUnescaped_result (text : string) (target : byte)
    (delims : list delimiter) :
  code target < 128 ->
  (findUnescaped text target delims = -1 \/
   0 <= findUnescaped text target delims < len text /\
   at_ text (findUnescaped text target delims) = Ok target) /\
  (mem_byte target text = false -> findUnescaped text target delims = -1) /\
  findUnescaped text target [] = Index text (String target EmptyString).
Proof.
  intros Ht. unfold findUnescaped, findAnyUnescaped. split; [|split].
  - destruct (findLoop_sound (endChars delims) target text Ht 0 false zero)
      as [H|[Hb Hg]]; [left; exact H|right].
    rewrite Z.sub_0_r in Hg. split; [lia|]. apply get_at; [lia|exact Hg].
  - intros Hm. apply findLoop_absent; assumption.
  - cbn [endChars fold_left]. rewrite (findLoop_no_delims target text Ht).
    unfold Index. destruct (index_nat text (String target EmptyString)); reflexivity.
Qed.

Lemma findUnescaped_result_witness :
  let text := (dquote_s ++ "a<b" ++ dquote_s ++ " <sip:a@b>")%string in
  (findUnescaped text langle [quotesDelim] = -1 \/
   0 <= findUnescaped text langle [quotesDelim] < len text /\
   at_ text (findUnescaped text langle [quotesDelim]) = Ok langle) /\
  (mem_byte langle text = false -> findUnescaped text langle [quotesDelim] = -1) /\
  findUnescaped text langle [] = Index text (String langle EmptyString).
Proof.
  apply (findUnescaped_result
           (dquote_s ++ "a<b" ++ dquote_s ++ " <sip:a@b>")%string langle [quotesDelim]).
  vm_compute. reflexivity.
Defined.





End ParserExtra.

(* ===================================================================== *)
(** ** The parser: [Write] and the parse task                            *)
(* ===================================================================== *)

Module TaskExtra.
Import Str Syntax StrFacts StrMore Examples.

Local Arguments parseHeader : simpl never.
Local Arguments parseStartLine : simpl never.
Local Arguments NextLine : simpl never.
Local Arguments NextChunk : simpl never.
Local Arguments TrimSpace : simpl never.
Local Arguments getBodyLength : simpl never.
Local Arguments len : simpl never.
Local Arguments Z.sub : simpl never.
Local Arguments Z.add : simpl never.

Lemma Write_fields (d : string) (p : parser) :
  stopped p = false ->
  fst (Write d p)
  = mkParser (headerParsers p) (streamed p) (input p ++ d)%string
      (bodyLengths p ++ (if streamed p then [] else [(getBodyLength d, len d)]))%list
      (output p) (errs p) (terminalErr p) false (task p).
Proof.
  intros Hrun. unfold Write. rewrite Hrun.
  destruct p as [hp str inp bl out er te st tk]. cbn in *. subst st.
  destruct str; cbn; rewrite ?app_nil_r; reflexivity.
Qed.

Lemma concat_cons (d : string) (ds : list string) :
  String.concat EmptyString (d :: ds) = (d ++ String.concat EmptyString ds)%string.
Proof. destruct ds; simpl; [symmetry; apply str_app_nil_r|reflexivity]. Qed.

(** X15: a sequence of [Write] calls on a parser that has not been
    stopped appends the data to the parser buffer in the order written, none
    lost; in datagram mode it queues one (body length, total length) entry
    per call, in that order, and in stream mode none; the output, the errors,
    the terminal error and the parse task are left alone. *)
Theorem WriteAll_queue (ds : list string) (p : parser) :
  stopped p = false ->
  WriteAll ds p
  = mkParser (headerParsers p) (streamed p)
      (input p ++ String.concat EmptyString ds)%string
      (bodyLengths p
       ++ (if streamed p then []
           else map (fun d => (getBodyLength d, len d)) ds))%list
      (output p) (errs p) (terminalErr p) false (task p).
Proof.
  revert p. induction ds as [|d ds IH]; intros p Hrun.
  - destruct p as [hp str inp bl out er te st tk]. cbn in *. subst st.
    rewrite str_app_nil_r. destruct str; rewrite app_nil_r; reflexivity.
  - cbn [WriteAll]. rewrite (Write_fields d p Hrun), IH by reflexivity.
    cbn [headerParsers streamed input bodyLengths output errs terminalErr task].
    rewrite concat_cons, str_app_assoc.
    destruct (streamed p); cbn [map]; rewrite <- ?app_assoc; reflexivity.
Qed.

Lemma WriteAll_queue_witness :
  WriteAll [resp_ping; resp_no_length] (NewParser false)
  = mkParser (headerParsers (NewParser false)) false
      (EmptyString ++ String.concat EmptyString [resp_ping; resp_no_length])%string
      ([] ++ map (fun d => (getBodyLength d, len d)) [resp_ping; resp_no_length])%list
      [] [] None false AtStartLine.
Proof.
  apply (WriteAll_queue [resp_ping; resp_no_length] (NewParser false)).
  reflexivity.
Defined.

(** A line free of CRLF, followed by CRLF: no CRLF starts inside it. *)
Lemma no_prefix_CRLF (c : byte) (l t : string) :
  index_nat (String c l) CRLF = None ->
  HasPrefix (String c (l ++ CRLF ++ t)) CRLF = false.
Proof.
  intros H. apply index_nat_cons_None in H as [H _].
  unfold CRLF in *. cbn [HasPrefix] in *.
  destruct (eqb_byte (chr 13) c); [|reflexivity]. cbn [andb] in *.
  destruct l as [|d l].
  - reflexivity.
  - change (String d l ++ String (chr 13) (String (chr 10) EmptyString) ++ t)%string
      with (String d (l ++ String (chr 13) (String (chr 10) EmptyString) ++ t)%string).
    cbn [HasPrefix] in *.
    destruct (eqb_byte (chr 10) d); [|reflexivity].
    cbn [andb] in *. rewrite HasPrefix_nil in H. discriminate H.
Qed.

Lemma index_CRLF_app (l rest : string) :
  index_nat l CRLF = None ->
  index_nat (l ++ CRLF ++ rest)%string CRLF = Some (String.length l).
Proof.
  induction l as [|c l IH]; intros H.
  - change (EmptyString ++ CRLF ++ rest)%string
      with (String (chr 13) (String (chr 10) rest)).
    unfold CRLF. cbn [index_nat HasPrefix]. unfold eqb_byte.
    rewrite !Ascii.eqb_refl, HasPrefix_nil. reflexivity.
  - change (String c l ++ CRLF ++ rest)%string with (String c (l ++ CRLF ++ rest)%string).
    cbn [index_nat]. rewrite (no_prefix_CRLF c l rest H).
    apply index_nat_cons_None in H as [_ H]. rewrite (IH H). reflexivity.
Qed.

(** The parser buffer hands out a line that is free of CRLF whole. *)
Lemma NextLine_app (l rest : string) :
  Contains l CRLF = false ->
  NextLine (l ++ CRLF ++ rest)%string = Some (l, rest).
Proof.
  intros H. apply Contains_false in H. unfold NextLine.
  rewrite (index_CRLF_app l rest H). f_equal. f_equal.
  - apply str_take_app.
  - rewrite <- (str_drop_drop 2 (String.length l)), str_drop_app. reflexivity.
Qed.

Lemma NextChunk_all (s : string) : NextChunk (len s) s = Some (s, EmptyString).
Proof.
  unfold NextChunk. rewrite Z.leb_refl. unfold len. rewrite Nat2Z.id.
  rewrite str_take_all. f_equal. f_equal.
  induction s as [|c s IH]; [reflexivity|exact IH].
Qed.

Lemma NextChunk_app (a b : string) : NextChunk (len a) (a ++ b)%string = Some (a, b).
Proof.
  unfold NextChunk. pose proof (len_nonneg b).
  replace (len a <=? len (a ++ b)%string) with true
    by (symmetry; apply Z.leb_le; rewrite len_app; lia).
  unfold len. rewrite Nat2Z.id, str_take_app, str_drop_app. reflexivity.
Qed.

Lemma parse_S (n : nat) (p p' : parser) :
  parse_step p = Some p' -> parse (S n) p = parse n p'.
Proof. intros H. cbn [parse]. rewrite H. reflexivity. Qed.

Lemma parse_stop (n : nat) (p : parser) : parse_step p = None -> parse n p = p.
Proof. intros H. destruct n; cbn [parse]; [reflexivity|]. rewrite H. reflexivity. Qed.

Lemma HasPrefix_CRLF2 (x : string) :
  HasPrefix x (CRLF ++ CRLF) = true -> HasPrefix x CRLF = true.
Proof.
  intros H. apply HasPrefix_true in H as [r ->].
  rewrite str_app_assoc. apply HasPrefix_app.
Qed.

Lemma no_prefix_CRLF2 (c : byte) (l t : string) :
  index_nat (String c l) CRLF = None ->
  HasPrefix (String c (l ++ CRLF ++ t)) (CRLF ++ CRLF) = false.
Proof.
  intros H. destruct (HasPrefix _ (CRLF ++ CRLF)) eqn:E; [|reflexivity].
  apply HasPrefix_CRLF2 in E. rewrite (no_prefix_CRLF c l t H) in E. discriminate E.
Qed.

(** The first blank line is not inside a line that is followed by a line
    which is not empty. *)
Lemma first_blank_skip (l rest : string) :
  index_nat l CRLF = None -> HasPrefix rest CRLF = false ->
  index_nat (l ++ CRLF ++ rest)%string (CRLF ++ CRLF)
  = option_map (fun n => (String.length l + 2 + n)%nat) (index_nat rest (CRLF ++ CRLF)).
Proof.
  induction l as [|c l IH]; intros H Hrest.
  - change (EmptyString ++ CRLF ++ rest)%string
      with (String (chr 13) (String (chr 10) rest)).
    change (CRLF ++ CRLF)%string
      with (String (chr 13) (String (chr 10) CRLF)).
    cbn [index_nat HasPrefix]. rewrite Hrest.
    change (eqb_byte (chr 13) (chr 10)) with false.
    rewrite !andb_false_r. cbn [andb].
    change (String (chr 13) (String (chr 10) CRLF)) with (CRLF ++ CRLF)%string.
    destruct (index_nat rest (CRLF ++ CRLF)); reflexivity.
  - change (String c l ++ CRLF ++ rest)%string with (String c (l ++ CRLF ++ rest)%string).
    cbn [index_nat]. rewrite (no_prefix_CRLF2 c l rest H).
    apply index_nat_cons_None in H as [_ H]. rewrite (IH H Hrest).
    destruct (index_nat rest (CRLF ++ CRLF)); reflexivity.
Qed.

Lemma first_blank_here (l body : string) :
  index_nat l CRLF = None ->
  index_nat (l ++ CRLF ++ CRLF ++ body)%string (CRLF ++ CRLF) = Some (String.length l).
Proof.
  induction l as [|c l IH]; intros H.
  - change (EmptyString ++ CRLF ++ CRLF ++ body)%string
      with ((CRLF ++ CRLF) ++ body)%string.
    destruct ((CRLF ++ CRLF) ++ body)%string eqn:E; [discriminate E|].
    cbn [index_nat]. rewrite <- E, HasPrefix_app. reflexivity.
  - change (String c l ++ CRLF ++ CRLF ++ body)%string
      with (String c (l ++ CRLF ++ CRLF ++ body)%string).
    cbn [index_nat]. rewrite (no_prefix_CRLF2 c l (CRLF ++ body) H).
    apply index_nat_cons_None in H as [_ H]. rewrite (IH H). reflexivity.
Qed.

(** In a start line and header lines that are free of CRLF and not empty,
    the first blank line is the one after the last header line. *)
Lemma block_blank (body : string) (ls : list string) :
  forall l,
    index_nat l CRLF = None ->
    Forall (fun h => index_nat h CRLF = None /\ h <> EmptyString) ls ->
    index_nat (l ++ CRLF ++ block ls ++ CRLF ++ body)%string (CRLF ++ CRLF)
    = Some (String.length l + String.length (block ls))%nat.
Proof.
  induction ls as [|h ls IH]; intros l Hl Hls.
  - change (block [] ++ CRLF ++ body)%string with (CRLF ++ body)%string.
    rewrite (first_blank_here l body Hl). cbn. f_equal. lia.
  - inversion Hls as [|? ? [Hh Hne] Hrest]; subst.
    cbn [block]. rewrite !str_app_assoc.
    rewrite first_blank_skip; [|exact Hl|].
    + rewrite (IH h Hh Hrest). cbn [option_map]. f_equal.
      rewrite !str_length_app. change (String.length CRLF) with 2%nat. lia.
    + destruct h as [|c h]; [contradiction Hne; reflexivity|].
      apply (no_prefix_CRLF c h _ Hh).
Qed.

Lemma getBodyLength_block (startLine body : string) (hlines : list string) :
  index_nat startLine CRLF = None ->
  Forall (fun h => index_nat h CRLF = None /\ h <> EmptyString) hlines ->
  getBodyLength (startLine ++ CRLF ++ block hlines ++ CRLF ++ body)%string = len body.
Proof.
  intros Hs Hl. unfold getBodyLength, Index.
  rewrite (block_blank body hlines startLine Hs Hl).
  rewrite !len_app. change (len CRLF) with 2. unfold len. lia.
Qed.

Lemma header_line_spec (p : parser) (l : string) :
  header_line p l = true ->
  Contains l CRLF = false /\
  (exists c r, l = String c r /\ Contains abnfWs (of_byte c) = false) /\
  is_panic (parseHeader p l) = false.
Proof.
  unfold header_line. intros H.
  apply andb_prop in H as [H H3]. apply andb_prop in H as [H1 H2].
  apply negb_true_iff in H1, H3.
  split; [exact H1|]. split; [|exact H3].
  destruct l as [|c r]; [discriminate H2|].
  apply negb_true_iff in H2. exists c, r. split; [reflexivity|exact H2].
Qed.

Lemma header_lines_spec (p : parser) (ls : list string) :
  forallb (header_line p) ls = true ->
  Forall (fun l => Contains l CRLF = false /\
                   (exists c r, l = String c r /\ Contains abnfWs (of_byte c) = false) /\
                   is_panic (parseHeader p l) = false) ls.
Proof.
  induction ls as [|l ls IH]; intros H; [constructor|].
  cbn in H. apply andb_prop in H as [H1 H2].
  constructor; [apply header_line_spec; exact H1|apply IH; exact H2].
Qed.

Lemma parseHeader_empty (p : parser) :
  parseHeader p EmptyString = Fail (Errorf "field name with no value in header: %s").
Proof. reflexivity. Qed.

Lemma parseHeader_parsers (p q : parser) (l : string) :
  headerParsers p = headerParsers q -> parseHeader p l = parseHeader q l.
Proof. intros H. unfold parseHeader. rewrite H. reflexivity. Qed.

Lemma headers_of_parsers (p q : parser) (ls : list string) :
  headerParsers p = headerParsers q -> headers_of p ls = headers_of q ls.
Proof.
  intros H. unfold headers_of. induction ls as [|l ls IH]; [reflexivity|].
  cbn [flat_map]. rewrite IH, (parseHeader_parsers p q l H). reflexivity.
Qed.

Lemma header_line_parsers (p q : parser) (l : string) :
  headerParsers p = headerParsers q -> header_line p l = header_line q l.
Proof.
  intros H. unfold header_line. rewrite (parseHeader_parsers p q l H). reflexivity.
Qed.

Lemma header_lines_parsers (p q : parser) (ls : list string) :
  headerParsers p = headerParsers q ->
  forallb (header_line p) ls = forallb (header_line q) ls.
Proof.
  intros H. induction ls as [|l ls IH]; [reflexivity|].
  cbn. rewrite IH, (header_line_parsers p q l H). reflexivity.
Qed.

Lemma flushBuffer_ok (p : parser) (buffer : string) (headers : list Header) :
  buffer = EmptyString \/ is_panic (parseHeader p buffer) = false ->
  flushBuffer p buffer headers = Ok (headers ++ headers_of p [buffer])%list.
Proof.
  intros H. unfold flushBuffer, headers_of. cbn [flat_map]. rewrite app_nil_r.
  destruct H as [-> | H].
  - rewrite parseHeader_empty. cbn. rewrite app_nil_r. reflexivity.
  - destruct (len buffer >? 0) eqn:Hl.
    + destruct (parseHeader p buffer); [reflexivity|rewrite app_nil_r; reflexivity|discriminate H].
    + rewrite Z.gtb_ltb in Hl. apply Z.ltb_ge in Hl.
      destruct buffer as [|c b]; [|unfold len in Hl; cbn in Hl; lia].
      rewrite parseHeader_empty, app_nil_r. reflexivity.
Qed.

Lemma endOfHeaders_task (msg : Message) (headers : list Header)
    (hp : gmap string HeaderParser) (str : bool) (inp : string) (bl : list (Z * Z))
    (out : list Message) (er : list error) (te : option error) (st : bool)
    (tk tk' : phase) :
  endOfHeaders msg headers (mkParser hp str inp bl out er te st tk)
  = endOfHeaders msg headers (mkParser hp str inp bl out er te st tk').
Proof.
  unfold endOfHeaders. cbn [streamed]. destruct str; [|reflexivity].
  destruct (GetHeaders _ _) as [|[] [|]]; reflexivity.
Qed.

(** The header section of a message, read line by line. *)
Lemma headers_run (hp : gmap string HeaderParser) (str : bool) (bl : list (Z * Z))
    (out : list Message) (er : list error) (te : option error) (st : bool)
    (msg : Message) (body : string) (hlines : list string) :
  let P inp tk := mkParser hp str inp bl out er te st tk in
  forallb (header_line (P EmptyString AtStartLine)) hlines = true ->
  forall buffer headers n,
    buffer = EmptyString \/
    is_panic (parseHeader (P EmptyString AtStartLine) buffer) = false ->
    parse (List.length hlines + 1 + n)
          (P (block hlines ++ CRLF ++ body)%string (InHeaders msg buffer headers))
    = parse n
        (endOfHeaders msg
           (headers ++ headers_of (P EmptyString AtStartLine) (buffer :: hlines))%list
           (P body AtStartLine)).
Proof.
  intros P. induction hlines as [|h hl IH]; intros Hall buffer headers n Hbuf.
  - cbn [List.length Nat.add block].
    apply parse_S. unfold parse_step, P. cbn [task input].
    rewrite (NextLine_app EmptyString body eq_refl). cbn [mbind option_bind].
    rewrite (flushBuffer_ok _ buffer headers).
    + cbn [set_input headerParsers streamed input bodyLengths output errs
           terminalErr stopped task].
      apply (f_equal Some). apply endOfHeaders_task.
    + destruct Hbuf as [Hb|Hb]; [left; exact Hb|right].
      rewrite (parseHeader_parsers _ (P EmptyString AtStartLine)) by reflexivity.
      exact Hb.
  - cbn [forallb] in Hall. apply andb_prop in Hall as [Hh Hrest].
    apply header_line_spec in Hh as (Hcr & (c & r & -> & Hws) & Hnp).
    cbn [List.length Nat.add block]. rewrite str_app_assoc, str_app_assoc.
    rewrite (parse_S _ _
               (P (block hl ++ CRLF ++ body)%string
                  (InHeaders msg (String c r)
                     (headers ++ headers_of (P EmptyString AtStartLine) [buffer])%list))).
    + rewrite (IH Hrest) by (right; exact Hnp).
      rewrite <- app_assoc. unfold headers_of. cbn [flat_map].
      rewrite app_nil_r. reflexivity.
    + unfold parse_step, P. cbn [task input].
      rewrite (NextLine_app (String c r) _ Hcr). cbn [mbind option_bind].
      rewrite Hws. cbn [negb].
      rewrite (flushBuffer_ok _ buffer headers).
      * cbn [set_input set_task headerParsers streamed input bodyLengths output errs
             terminalErr stopped task].
        reflexivity.
      * destruct Hbuf as [Hb|Hb]; [left; exact Hb|right].
        rewrite (parseHeader_parsers _ (P EmptyString AtStartLine)) by reflexivity.
        exact Hb.
Qed.

Lemma headers_of_empty (p : parser) (ls : list string) :
  headers_of p (EmptyString :: ls) = headers_of p ls.
Proof. unfold headers_of. cbn [flat_map]. rewrite parseHeader_empty. reflexivity. Qed.

(** X16: a datagram made of a start line the parser accepts, header lines
    that are complete in themselves, a blank line and a body, written to an
    idle parser in datagram mode, is published as one message: the message of
    the start line with the headers of the lines that parse, in order (a line
    whose header parser fails is skipped), and with the bytes after the blank
    line as its body, unless they are white space only.  No error is raised,
    and the parse task is back at a start line with empty buffers. *)
Theorem datagram_message (p : parser) (startLine body : string)
    (hlines : list string) (msg : Message) (k : nat) :
  streamed p = false -> stopped p = false -> task p = AtStartLine ->
  input p = EmptyString -> bodyLengths p = [] ->
  Contains startLine CRLF = false ->
  parseStartLine startLine = Ok msg ->
  forallb (header_line p) hlines = true ->
  let data := (startLine ++ CRLF ++ block hlines ++ CRLF ++ body)%string in
  let m := fold_left (fun m h => AppendHeader h m) (headers_of p hlines) msg in
  let p' := parse (List.length hlines + 4 + k) (fst (Write data p)) in
  output p'
  = (output p ++ [if String.eqb (TrimSpace body) EmptyString then m
                  else SetBody body m])%list /\
  errs p' = errs p /\ getError p' = getError p /\
  input p' = EmptyString /\ bodyLengths p' = [] /\
  task p' = AtStartLine /\ parse_step p' = None.
Proof.
  destruct p as [hp str inp bl out er te st tk].
  cbn [streamed stopped task input bodyLengths output errs].
  intros -> -> -> -> -> Hcr Hstart Hall. cbv zeta.
  set (data := (startLine ++ CRLF ++ block hlines ++ CRLF ++ body)%string).
  set (m := fold_left (fun m h => AppendHeader h m) (headers_of _ hlines) msg).
  assert (Hplain : Forall (fun h => index_nat h CRLF = None /\ h <> EmptyString) hlines).
  { eapply Forall_impl; [exact (header_lines_spec _ _ Hall)|].
    intros l (H1 & (c & r & -> & _) & _).
    split; [apply Contains_false; exact H1|discriminate]. }
  rewrite Write_fields by reflexivity.
  cbn [headerParsers streamed input bodyLengths output errs terminalErr task app].
  change (EmptyString ++ data)%string with data.
  assert (Hlen : getBodyLength data = len body).
  { apply getBodyLength_block; [apply Contains_false; exact Hcr|exact Hplain]. }
  rewrite Hlen.
  replace (List.length hlines + 4 + k)%nat
    with (S (List.length hlines + 1 + (S (S k))))%nat by lia.
  rewrite (parse_S _ _
             (mkParser hp false (block hlines ++ CRLF ++ body)%string
                [(len body, len data)] out er te false (InHeaders msg EmptyString []))).
  2:{ unfold parse_step. cbn [task input]. unfold data.
      rewrite (NextLine_app startLine _ Hcr). cbn [mbind option_bind].
      rewrite Hstart. reflexivity. }
  rewrite headers_run.
  2:{ rewrite <- Hall. apply header_lines_parsers. reflexivity. }
  2:{ left. reflexivity. }
  cbn [app].
  rewrite (headers_of_parsers _
             (mkParser hp false EmptyString [] out er te false AtStartLine))
    by reflexivity.
  rewrite headers_of_empty. fold m.
  unfold endOfHeaders.
  cbn [streamed set_task headerParsers input bodyLengths output errs terminalErr
       stopped task].
  rewrite (parse_S _ _
             (mkParser hp false body [] out er te false (AtBody m (len body))))
    by reflexivity.
  rewrite (parse_S _ _
             (mkParser hp false EmptyString []
                (out ++ [if negb (String.eqb (TrimSpace body) EmptyString)
                         then SetBody body m else m])
                er te false AtStartLine)).
  2:{ unfold parse_step. cbn [task input]. rewrite NextChunk_all. reflexivity. }
  rewrite parse_stop by reflexivity.
  cbn [output errs getError terminalErr input bodyLengths task].
  destruct (String.eqb (TrimSpace body) EmptyString); repeat split; reflexivity.
Qed.

Lemma datagram_message_witness :
  let hlines := ["Call-ID: a@b"; "Bad header"; "CSeq: 1 INVITE"] in
  let data := ("SIP/2.0 200 OK" ++ CRLF ++ block hlines ++ CRLF ++ "ping")%string in
  let p' := parse (3 + 4 + 0) (fst (Write data (NewParser false))) in
  output p' = [NewResponse "SIP/2.0" 200 "OK" [CallID "a@b"; CSeq 1 "INVITE"] "ping"] /\
  errs p' = [] /\ getError p' = None /\
  input p' = EmptyString /\ bodyLengths p' = [] /\
  task p' = AtStartLine /\ parse_step p' = None.
Proof.
  apply (datagram_message (NewParser false) "SIP/2.0 200 OK" "ping"
           ["Call-ID: a@b"; "Bad header"; "CSeq: 1 INVITE"]
           (NewResponse "SIP/2.0" 200 "OK" [] EmptyString) 0);
    vm_compute; reflexivity.
Defined.

(** X17: in stream mode the body of a message is framed by its
    Content-Length header.  A start line the parser accepts, header lines
    that are complete in themselves and yield exactly one Content-Length
    header, whose value is the length of the body, a blank line, the body and
    any further bytes: the parse task publishes the message with that body
    (unless it is white space only) and leaves the further bytes in the
    buffer for the next message. *)
Theorem stream_message (p : parser) (startLine body extra : string)
    (hlines : list string) (msg : Message) (k : nat) :
  streamed p = true -> stopped p = false -> task p = AtStartLine ->
  input p = EmptyString ->
  Contains startLine CRLF = false ->
  parseStartLine startLine = Ok msg ->
  forallb (header_line p) hlines = true ->
  let m := fold_left (fun m h => AppendHeader h m) (headers_of p hlines) msg in
  GetHeaders "Content-Length" m = [ContentLength (len body)] ->
  let data := (startLine ++ CRLF ++ block hlines ++ CRLF ++ body ++ extra)%string in
  parse (List.length hlines + 3 + k) (fst (Write data p))
  = parse k
      (mkParser (headerParsers p) true extra (bodyLengths p)
         (output p ++ [if String.eqb (TrimSpace body) EmptyString then m
                       else SetBody body m])
         (errs p) (terminalErr p) false AtStartLine).
Proof.
  destruct p as [hp str inp bl out er te st tk].
  cbn [streamed stopped task input bodyLengths output errs headerParsers terminalErr].
  intros -> -> -> -> Hcr Hstart Hall. cbv zeta.
  set (m := fold_left (fun m h => AppendHeader h m) (headers_of _ hlines) msg).
  intros Hcl.
  rewrite Write_fields by reflexivity.
  cbn [headerParsers streamed input bodyLengths output errs terminalErr task app].
  rewrite app_nil_r.
  change (EmptyString ++ ?x)%string with x.
  replace (List.length hlines + 3 + k)%nat
    with (S (List.length hlines + 1 + (S k)))%nat by lia.
  rewrite (parse_S _ _
             (mkParser hp true (block hlines ++ CRLF ++ body ++ extra)%string
                bl out er te false (InHeaders msg EmptyString []))).
  2:{ unfold parse_step. cbn [task input].
      rewrite (NextLine_app startLine _ Hcr). cbn [mbind option_bind].
      rewrite Hstart. reflexivity. }
  rewrite headers_run.
  2:{ rewrite <- Hall. apply header_lines_parsers. reflexivity. }
  2:{ left. reflexivity. }
  cbn [app]. rewrite headers_of_empty. fold m.
  unfold endOfHeaders. cbn [streamed]. fold m. rewrite Hcl.
  cbn [set_task headerParsers input bodyLengths output errs terminalErr
       stopped task streamed].
  apply parse_S. unfold parse_step, set_task.
  cbn [task input headerParsers streamed bodyLengths output errs terminalErr stopped].
  rewrite NextChunk_app. cbn [mbind option_bind].
  unfold set_task, set_input, send_output.
  cbn [headerParsers input bodyLengths output errs terminalErr stopped task streamed].
  destruct (String.eqb (TrimSpace body) EmptyString); reflexivity.
Qed.

Lemma stream_message_witness :
  let data := ("SIP/2.0 200 OK" ++ CRLF ++ block ["Content-Length: 4"] ++ CRLF
               ++ "ping" ++ "SIP/2.0 180 Ringing")%string in
  parse (1 + 3 + 0) (fst (Write data (NewParser true)))
  = parse 0
      (mkParser (headerParsers (NewParser true)) true "SIP/2.0 180 Ringing" []
         ([] ++ [NewResponse "SIP/2.0" 200 "OK" [ContentLength 4] "ping"])
         [] None false AtStartLine).
Proof.
  apply (stream_message (NewParser true) "SIP/2.0 200 OK" "ping" "SIP/2.0 180 Ringing"
           ["Content-Length: 4"] (NewResponse "SIP/2.0" 200 "OK" [] EmptyString) 0);
    vm_compute; reflexivity.
Defined.

(** X18: in stream mode a message without a Content-Length header is not
    published: after its blank line the parse task raises a MalformedMessage
    error, records it as the terminal error, and goes on at once with the
    bytes that follow the blank line, which it reads as the next start
    line. *)
Theorem stream_missing_content_length (p : parser) (startLine rest : string)
    (hlines : list string) (msg : Message) (k : nat) :
  streamed p = true -> stopped p = false -> task p = AtStartLine ->
  input p = EmptyString ->
  Contains startLine CRLF = false ->
  parseStartLine startLine = Ok msg ->
  forallb (header_line p) hlines = true ->
  let m := fold_left (fun m h => AppendHeader h m) (headers_of p hlines) msg in
  GetHeaders "Content-Length" m = [] ->
  let data := (startLine ++ CRLF ++ block hlines ++ CRLF ++ rest)%string in
  let e := MalformedMessageError
             (Errorf "missing required 'Content-Length' header; parser: %s") in
  parse (List.length hlines + 2 + k) (fst (Write data p))
  = parse k
      (mkParser (headerParsers p) true rest (bodyLengths p) (output p)
         (errs p ++ [e]) (Some e) false AtStartLine).
Proof.
  destruct p as [hp str inp bl out er te st tk].
  cbn [streamed stopped task input bodyLengths output errs headerParsers terminalErr].
  intros -> -> -> -> Hcr Hstart Hall. cbv zeta.
  set (m := fold_left (fun m h => AppendHeader h m) (headers_of _ hlines) msg).
  intros Hcl.
  rewrite Write_fields by reflexivity.
  cbn [headerParsers streamed input bodyLengths output errs terminalErr task app].
  rewrite app_nil_r.
  change (EmptyString ++ ?x)%string with x.
  replace (List.length hlines + 2 + k)%nat
    with (S (List.length hlines + 1 + k))%nat by lia.
  rewrite (parse_S _ _
             (mkParser hp true (block hlines ++ CRLF ++ rest)%string
                bl out er te false (InHeaders msg EmptyString []))).
  2:{ unfold parse_step. cbn [task input].
      rewrite (NextLine_app startLine _ Hcr). cbn [mbind option_bind].
      rewrite Hstart. reflexivity. }
  rewrite headers_run.
  2:{ rewrite <- Hall. apply header_lines_parsers. reflexivity. }
  2:{ left. reflexivity. }
  cbn [app]. rewrite headers_of_empty. fold m.
  unfold endOfHeaders. cbn [streamed]. fold m. rewrite Hcl. reflexivity.
Qed.

Lemma stream_missing_content_length_witness :
  let data := ("SIP/2.0 200 OK" ++ CRLF ++ block ["Call-ID: a@b"] ++ CRLF
               ++ "ping")%string in
  let e := MalformedMessageError
             (Errorf "missing required 'Content-Length' header; parser: %s") in
  parse (1 + 2 + 0) (fst (Write data (NewParser true)))
  = parse 0
      (mkParser (headerParsers (NewParser true)) true "ping" [] []
         ([] ++ [e]) (Some e) false AtStartLine).
Proof.
  apply (stream_missing_content_length (NewParser true) "SIP/2.0 200 OK" "ping"
           ["Call-ID: a@b"] (NewResponse "SIP/2.0" 200 "OK" [] EmptyString) 0);
    vm_compute; reflexivity.
Defined.

(** X19: a start line the parser rejects.  In datagram mode the parse
    task raises an InvalidStartLine error, records it as the terminal error,
    and skips the rest of the datagram: it is back at a start line with
    empty buffers, and nothing is published.  In stream mode only the line is
    dropped: the task goes on with the bytes after it as the next start
    line. *)
Theorem invalid_start_line :
  (forall (p : parser) (startLine rest : string) (e : error) (k : nat),
      streamed p = false -> stopped p = false -> task p = AtStartLine ->
      input p = EmptyString -> bodyLengths p = [] ->
      Contains startLine CRLF = false ->
      parseStartLine startLine = Fail e ->
      let p' := parse (3 + k) (fst (Write (startLine ++ CRLF ++ rest) p)) in
      output p' = output p /\
      errs p' = (errs p ++ [InvalidStartLineError e])%list /\
      getError p' = Some (InvalidStartLineError e) /\
      input p' = EmptyString /\ bodyLengths p' = [] /\
      task p' = AtStartLine /\ parse_step p' = None) /\
  (forall (p : parser) (startLine rest : string) (e : error) (k : nat),
      streamed p = true -> stopped p = false -> task p = AtStartLine ->
      input p = EmptyString ->
      Contains startLine CRLF = false ->
      parseStartLine startLine = Fail e ->
      parse (S k) (fst (Write (startLine ++ CRLF ++ rest) p))
      = parse k (raise (InvalidStartLineError e) (set_input rest p))).
Proof.
  split.
  - intros [hp str inp bl out er te st tk] startLine rest e k.
    cbn [streamed stopped task input bodyLengths output errs].
    intros -> -> -> -> -> Hcr Hstart. cbv zeta.
    rewrite Write_fields by reflexivity.
    cbn [headerParsers streamed input bodyLengths output errs terminalErr task app].
    change (EmptyString ++ (startLine ++ CRLF ++ rest))%string
      with (startLine ++ CRLF ++ rest)%string.
    set (data := (startLine ++ CRLF ++ rest)%string).
    change (3 + k)%nat with (S (S (S k))).
    rewrite (parse_S _ _
               (mkParser hp false rest [(getBodyLength data, len data)] out
                  (er ++ [InvalidStartLineError e]) (Some (InvalidStartLineError e))
                  false (SkipLength (len startLine)))).
    2:{ unfold parse_step. cbn [task input]. unfold data.
        rewrite (NextLine_app startLine _ Hcr). cbn [mbind option_bind].
        rewrite Hstart. reflexivity. }
    rewrite (parse_S _ _
               (mkParser hp false rest [] out
                  (er ++ [InvalidStartLineError e]) (Some (InvalidStartLineError e))
                  false (SkipChunk (len rest)))).
    2:{ unfold parse_step. cbn [task bodyLengths set_task set_bodyLengths
          headerParsers streamed input output errs terminalErr stopped].
        replace (len data - len startLine - 2) with (len rest); [reflexivity|].
        unfold data. rewrite !len_app. change (len CRLF) with 2. lia. }
    rewrite (parse_S _ _
               (mkParser hp false EmptyString [] out
                  (er ++ [InvalidStartLineError e]) (Some (InvalidStartLineError e))
                  false AtStartLine)).
    2:{ unfold parse_step. cbn [task input]. rewrite NextChunk_all. reflexivity. }
    rewrite parse_stop by reflexivity. repeat split; reflexivity.
  - intros [hp str inp bl out er te st tk] startLine rest e k.
    cbn [streamed stopped task input bodyLengths output errs].
    intros -> -> -> -> Hcr Hstart.
    rewrite Write_fields by reflexivity.
    cbn [headerParsers streamed input bodyLengths output errs terminalErr task app].
    change (EmptyString ++ (startLine ++ CRLF ++ rest))%string
      with (startLine ++ CRLF ++ rest)%string.
    apply parse_S. unfold parse_step. cbn [task input].
    rewrite (NextLine_app startLine _ Hcr). cbn [mbind option_bind].
    rewrite Hstart. cbn. rewrite app_nil_r. reflexivity.
Qed.

Lemma invalid_start_line_witness :
  (let p' := parse (3 + 0)
               (fst (Write ("HELLO" ++ CRLF ++ "Call-ID: a@b" ++ CRLF ++ CRLF)
                           (NewParser false))) in
   output p' = [] /\
   errs p' = [InvalidStartLineError
                (Errorf "transmission beginning '%s' is not a SIP message")] /\
   getError p' = Some (InvalidStartLineError
                         (Errorf "transmission beginning '%s' is not a SIP message")) /\
   input p' = EmptyString /\ bodyLengths p' = [] /\
   task p' = AtStartLine /\ parse_step p' = None) /\
  parse 1 (fst (Write ("HELLO" ++ CRLF ++ "SIP/2.0 200 OK") (NewParser true)))
  = parse 0 (raise (InvalidStartLineError
                      (Errorf "transmission beginning '%s' is not a SIP message"))
                   (set_input "SIP/2.0 200 OK" (NewParser true))).
Proof.
  split.
  - apply (proj1 invalid_start_line (NewParser false) "HELLO"
             ("Call-ID: a@b" ++ CRLF ++ CRLF)%string
             (Errorf "transmission beginning '%s' is not a SIP message") 0%nat);
      vm_compute; reflexivity.
  - apply (proj2 invalid_start_line (NewParser true) "HELLO" "SIP/2.0 200 OK"
             (Errorf "transmission beginning '%s' is not a SIP message") 0%nat);
      vm_compute; reflexivity.
Defined.

End TaskExtra.

(* ===================================================================== *)
(** ** The connection pool: dropping, other keys, disposal               *)
(* ===================================================================== *)

Module PoolExtra.
Import Transport Examples.

(** X20: [Drop(k)] removes the key: [Get(k)] then finds nothing.  It
    answers true exactly when the key was in the pool, leaves every other key
    as it was, and leaves the whole pool as it was when the key was not in
    it. *)
Theorem Drop_then_Get (k : ConnKey) (pool : connectionPool) :
  Get k (fst (Drop k pool)) = None /\
  (snd (Drop k pool) = true <-> Get k pool <> None) /\
  (forall k', k' <> k -> Get k' (fst (Drop k pool)) = Get k' pool) /\
  (Get k pool = None -> fst (Drop k pool) = pool).
Proof.
  unfold Drop, Get. destruct (getHandler k pool) as [h|] eqn:Hk; cbn.
  - unfold getHandler, dropHandler. cbn. rewrite lookup_delete_eq.
    split; [reflexivity|]. split; [split; [discriminate|reflexivity]|].
    split; [|discriminate].
    intros k' Hne. rewrite lookup_delete_ne by congruence. reflexivity.
  - rewrite Hk. split; [reflexivity|].
    split; [split; [discriminate|intros H; contradiction H; reflexivity]|].
    split; reflexivity.
Qed.

Lemma Drop_then_Get_witness :
  let pool := fst (Add "10.0.0.2:5060" conn2 30 0
                     (fst (Add "10.0.0.1:5060" conn1 30 0 NewConnectionPool))) in
  Get "10.0.0.1:5060" (fst (Drop "10.0.0.1:5060" pool)) = None /\
  snd (Drop "10.0.0.1:5060" pool) = true /\
  Get "10.0.0.2:5060" (fst (Drop "10.0.0.1:5060" pool)) = Some conn2 /\
  fst (Drop "10.0.0.3:5060" pool) = pool.
Proof.
  cbv zeta.
  set (pool := fst (Add "10.0.0.2:5060" conn2 30 0
                      (fst (Add "10.0.0.1:5060" conn1 30 0 NewConnectionPool)))).
  destruct (Drop_then_Get "10.0.0.1:5060" pool) as (H1 & H2 & H3 & _).
  destruct (Drop_then_Get "10.0.0.3:5060" pool) as (_ & _ & _ & H4).
  split; [exact H1|]. split; [apply H2; vm_compute; discriminate|].
  split; [rewrite H3 by discriminate; vm_compute; reflexivity|].
  apply H4. vm_compute. reflexivity.
Defined.

(** X21: [Add(k, ...)] leaves every other key as it was, never changes
    the pool's cancellation state, and leaves the pool untouched when it
    returns an error. *)
Theorem Add_other_keys (k k' : ConnKey) (c : Connection) (ttl : Duration) (now : Time)
    (pool : connectionPool) :
  (k' <> k -> Get k' (fst (Add k c ttl now pool)) = Get k' pool) /\
  (snd (Add k c ttl now pool) <> None -> fst (Add k c ttl now pool) = pool) /\
  ctxErr (fst (Add k c ttl now pool)) = ctxErr pool.
Proof.
  unfold Add. destruct (ctxErr pool) as [e|] eqn:Hc; cbn.
  - rewrite Hc. repeat split; reflexivity.
  - destruct (getHandler k pool) as [h|] eqn:Hk; cbn;
      (split; [|split; [intros H; contradiction H; reflexivity|exact Hc]]);
      intros Hne; unfold Get, getHandler; cbn;
      rewrite lookup_insert_ne by congruence; reflexivity.
Qed.

Lemma Add_other_keys_witness :
  let pool := fst (Add "10.0.0.1:5060" conn1 30 0 NewConnectionPool) in
  let cancelled_pool := mkPool (Some ContextCanceled) (store pool) (serving pool) [] in
  Get "10.0.0.1:5060" (fst (Add "10.0.0.2:5060" conn2 30 1 pool)) = Some conn1 /\
  fst (Add "10.0.0.2:5060" conn2 30 1 cancelled_pool) = cancelled_pool.
Proof.
  cbv zeta.
  set (pool := fst (Add "10.0.0.1:5060" conn1 30 0 NewConnectionPool)).
  set (cancelled_pool := mkPool (Some ContextCanceled) (store pool) (serving pool) []).
  split.
  - rewrite (proj1 (Add_other_keys "10.0.0.2:5060" "10.0.0.1:5060" conn2 30 1 pool))
      by discriminate.
    vm_compute. reflexivity.
  - apply (proj1 (proj2 (Add_other_keys "10.0.0.2:5060" "10.0.0.1:5060" conn2 30 1
                           cancelled_pool))).
    vm_compute. discriminate.
Defined.

(** X22: a key is bound to a new connection by dropping it first: on a
    pool whose context has not been cancelled, [Drop(k)] followed by
    [Add(k, c, ttl)] succeeds and [Get(k)] then returns [c], served by a new
    handler that expires [ttl] after the call. *)
Theorem Drop_then_Add_rebinds (k : ConnKey) (c : Connection) (ttl : Duration)
    (now : Time) (pool : connectionPool) :
  ctxErr pool = None ->
  let r := Add k c ttl now (fst (Drop k pool)) in
  snd r = None /\ Get k (fst r) = Some c /\
  getHandler k (fst r) = Some (NewConnectionHandler k c ttl now).
Proof.
  intros Hc. cbv zeta.
  assert (Hc' : ctxErr (fst (Drop k pool)) = None).
  { unfold Drop. destruct (getHandler k pool); cbn; exact Hc. }
  assert (Hg : getHandler k (fst (Drop k pool)) = None).
  { unfold Drop. destruct (getHandler k pool) eqn:Hk; cbn; [|exact Hk].
    unfold getHandler, dropHandler. cbn. apply lookup_delete_eq. }
  unfold Add. rewrite Hc', Hg. cbn. unfold Get, getHandler. cbn.
  rewrite lookup_insert_eq. repeat split; reflexivity.
Qed.

Lemma Drop_then_Add_rebinds_witness :
  let pool := fst (Add "10.0.0.1:5060" conn1 30 0 NewConnectionPool) in
  let r := Add "10.0.0.1:5060" conn2 60 5 (fst (Drop "10.0.0.1:5060" pool)) in
  snd r = None /\ Get "10.0.0.1:5060" (fst r) = Some conn2 /\
  getHandler "10.0.0.1:5060" (fst r)
  = Some (NewConnectionHandler "10.0.0.1:5060" conn2 60 5).
Proof.
  apply (Drop_then_Add_rebinds "10.0.0.1:5060" conn2 60 5
           (fst (Add "10.0.0.1:5060" conn1 30 0 NewConnectionPool))).
  reflexivity.
Defined.

Lemma pool_inv_call (c : poolCall) (pool : connectionPool) :
  pool_inv pool -> pool_inv (call c pool).
Proof.
  intros [Hs Hd]. destruct c as [k conn ttl now|k]; cbn [call].
  - unfold Add. destruct (ctxErr pool); [split; assumption|].
    destruct (getHandler k pool) as [h|] eqn:Hk; cbn [fst].
    + split; [|exact Hd]. intros k' h'. unfold getHandler, addHandler. cbn.
      destruct (decide (k' = k)) as [->|Hne].
      * rewrite lookup_insert_eq. intros [= <-].
        destruct (Hs k h Hk) as (H1 & H2 & H3). repeat split; assumption.
      * rewrite lookup_insert_ne by congruence. apply Hs.
    + split; [|exact Hd]. intros k' h'. unfold getHandler, addHandler. cbn.
      destruct (decide (k' = k)) as [->|Hne].
      * rewrite lookup_insert_eq. intros [= <-]. repeat split.
        apply in_or_app. right. left. reflexivity.
      * rewrite lookup_insert_ne by congruence. intros H.
        destruct (Hs k' h' H) as (H1 & H2 & H3). repeat split; try assumption.
        apply in_or_app. left. exact H3.
  - unfold Drop. destruct (getHandler k pool) as [h|] eqn:Hk; cbn [fst];
      [|split; assumption].
    split.
    + intros k' h'. unfold getHandler, dropHandler. cbn.
      destruct (decide (k' = k)) as [->|Hne].
      * rewrite lookup_delete_eq. discriminate.
      * rewrite lookup_delete_ne by congruence. apply Hs.
    + cbn. apply Forall_app. split; [exact Hd|]. constructor; [reflexivity|constructor].
Qed.

Lemma pool_inv_calls (cs : list poolCall) (pool : connectionPool) :
  pool_inv pool -> pool_inv (calls cs pool).
Proof.
  revert pool. induction cs as [|c cs IH]; intros pool H; [exact H|].
  cbn. apply IH. apply pool_inv_call. exact H.
Qed.

Lemma pool_inv_new : pool_inv NewConnectionPool.
Proof.
  split; [|constructor]. intros k h H. unfold getHandler in H. cbn in H.
  rewrite lookup_empty in H. discriminate.
Qed.

(** X23: what the pool keeps true through every sequence of [Add] and
    [Drop] calls made on a new pool: each handler in the store sits under its
    own key, has not been cancelled and has had its serving task started, and
    every handler the pool has let go of has been cancelled. *)
Theorem pool_handlers_invariant (cs : list poolCall) :
  let pool := calls cs NewConnectionPool in
  (forall k h, getHandler k pool = Some h ->
     Key h = k /\ cancelled h = false /\ In k (serving pool)) /\
  Forall (fun h => cancelled h = true) (dropped pool).
Proof. exact (pool_inv_calls cs NewConnectionPool pool_inv_new). Qed.

Lemma pool_handlers_invariant_witness :
  let pool := calls [CallAdd "10.0.0.1:5060" conn1 30 0;
                     CallAdd "10.0.0.2:5060" conn2 30 1;
                     CallDrop "10.0.0.1:5060";
                     CallAdd "10.0.0.1:5060" conn2 30 2] NewConnectionPool in
  (Key (NewConnectionHandler "10.0.0.1:5060" conn2 30 2) = "10.0.0.1:5060" /\
   cancelled (NewConnectionHandler "10.0.0.1:5060" conn2 30 2) = false /\
   In "10.0.0.1:5060" (serving pool)) /\
  Forall (fun h => cancelled h = true) (dropped pool).
Proof.
  cbv zeta.
  destruct (pool_handlers_invariant
              [CallAdd "10.0.0.1:5060" conn1 30 0;
               CallAdd "10.0.0.2:5060" conn2 30 1;
               CallDrop "10.0.0.1:5060";
               CallAdd "10.0.0.1:5060" conn2 30 2]) as [H1 H2].
  split; [|exact H2].
  apply (H1 "10.0.0.1:5060"). vm_compute. reflexivity.
Defined.

Lemma classic_in (k : ConnKey) (l : list ConnKey) : In k l \/ ~ In k l.
Proof.
  destruct (in_dec String.string_dec k l) as [H|H]; [left|right]; exact H.
Qed.

Lemma allHandlers_eq (pool : connectionPool) :
  allHandlers pool = map snd (map_to_list (store pool)).
Proof.
  unfold allHandlers.
  assert (H : forall kv, In kv (map_to_list (store pool)) ->
                         getHandler (fst kv) pool = Some (snd kv)).
  { intros [k h] Hin. apply list_elem_of_In, elem_of_map_to_list in Hin. exact Hin. }
  induction (map_to_list (store pool)) as [|kv l IH]; [reflexivity|].
  cbn. rewrite (H kv) by (left; reflexivity). cbn. f_equal.
  apply IH. intros kv' Hin. apply H. right. exact Hin.
Qed.

(** Dropping, one after the other, handlers that sit in the store under
    their own, distinct keys. *)
Lemma drop_all (hs : list connectionHandler) :
  forall pool,
    NoDup (map Key hs) ->
    (forall h, In h hs -> getHandler (Key h) pool = Some h) ->
    let pool' := fold_left (fun p h => fst (Drop (Key h) p)) hs pool in
    dropped pool' = (dropped pool ++ map Cancel hs)%list /\
    (forall k, In k (map Key hs) -> getHandler k pool' = None) /\
    (forall k, ~ In k (map Key hs) -> getHandler k pool' = getHandler k pool) /\
    ctxErr pool' = ctxErr pool /\ serving pool' = serving pool.
Proof.
  induction hs as [|h hs IH]; intros pool Hnd Hin; cbv zeta.
  - cbn. rewrite app_nil_r. repeat split. intros k [].
  - cbn [fold_left map].
    apply NoDup_cons in Hnd as [Hnot Hnd].
    assert (Hh : getHandler (Key h) pool = Some h) by (apply Hin; left; reflexivity).
    assert (HD : fst (Drop (Key h) pool)
                 = mkPool (ctxErr pool) (delete (Key h) (store pool)) (serving pool)
                          (dropped pool ++ [Cancel h])).
    { unfold Drop. rewrite Hh. reflexivity. }
    rewrite HD.
    destruct (IH (mkPool (ctxErr pool) (delete (Key h) (store pool)) (serving pool)
                       (dropped pool ++ [Cancel h])) Hnd) as (H1 & H2 & H3 & H4 & H5).
    { intros h' Hin'. unfold getHandler. cbn.
      rewrite lookup_delete_ne.
      - apply Hin. right. exact Hin'.
      - intros Heq. apply Hnot. rewrite Heq. apply list_elem_of_In, in_map.
        exact Hin'. }
    split; [rewrite H1; cbn; rewrite <- app_assoc; reflexivity|].
    split; [|split; [|split; [exact H4|exact H5]]].
    + intros k [Hk|Hk].
      * subst k. destruct (classic_in (Key h) (map Key hs)) as [Hi|Hi].
        -- apply H2. exact Hi.
        -- rewrite (H3 _ Hi). unfold getHandler. cbn. apply lookup_delete_eq.
      * apply H2. exact Hk.
    + intros k Hk. rewrite H3 by (intros Hi; apply Hk; right; exact Hi).
      unfold getHandler. cbn. apply lookup_delete_ne.
      intros Heq. apply Hk. left. exact Heq.
Qed.

Lemma dispose_spec (pool : connectionPool) :
  well_keyed pool ->
  store (dispose pool) = ∅ /\
  dropped (dispose pool) = (dropped pool ++ map Cancel (allHandlers pool))%list /\
  List.length (allHandlers pool) = size (store pool) /\
  (forall k, Get k (dispose pool) = None).
Proof.
  intros Hwk.
  assert (Hkeys : map Key (allHandlers pool) = map fst (map_to_list (store pool))).
  { rewrite allHandlers_eq, map_map.
    apply map_ext_in. intros [k h] Hin. cbn.
    apply Hwk. apply list_elem_of_In, elem_of_map_to_list in Hin. exact Hin. }
  assert (Hnd : NoDup (map Key (allHandlers pool))).
  { rewrite Hkeys. apply NoDup_fst_map_to_list. }
  assert (Hin : forall h, In h (allHandlers pool) -> getHandler (Key h) pool = Some h).
  { intros h Hh. rewrite allHandlers_eq in Hh. apply in_map_iff in Hh as ([k h'] & <- & Hkv).
    apply list_elem_of_In, elem_of_map_to_list in Hkv. cbn.
    rewrite (Hwk k h' Hkv). exact Hkv. }
  destruct (drop_all (allHandlers pool) pool Hnd Hin) as (H1 & H2 & H3 & _ & _).
  fold (dispose pool) in H1, H2, H3.
  assert (Hnone : forall k, getHandler k (dispose pool) = None).
  { intros k. destruct (getHandler k pool) as [h|] eqn:Hk.
    - apply H2. rewrite Hkeys. apply in_map_iff. exists (k, h).
      split; [reflexivity|]. apply list_elem_of_In, elem_of_map_to_list. exact Hk.
    - destruct (classic_in k (map Key (allHandlers pool))) as [Hi|Hi].
      + apply H2. exact Hi.
      + rewrite (H3 _ Hi). exact Hk. }
  split; [apply map_eq; intros k; rewrite lookup_empty; apply Hnone|].
  split; [exact H1|]. split.
  - rewrite allHandlers_eq, length_map. apply length_map_to_list.
  - intros k. unfold Get. rewrite Hnone. reflexivity.
Qed.

(** X24: [dispose] empties the pool.  On a pool in which every handler
    sits under its own key (as in every pool built by [Add] and [Drop]),
    after [dispose] the store is empty, so [Get] finds no key; each handler
    that was in the store has been cancelled, once; and [allHandlers]
    returned as many handlers as the store had keys. *)
Theorem dispose_drops_all (pool : connectionPool) :
  well_keyed pool ->
  store (dispose pool) = ∅ /\
  (forall k, Get k (dispose pool) = None) /\
  dropped (dispose pool) = (dropped pool ++ map Cancel (allHandlers pool))%list /\
  List.length (allHandlers pool) = size (store pool).
Proof.
  intros H. destruct (dispose_spec pool H) as (H1 & H2 & H3 & H4).
  repeat split; assumption.
Qed.

Lemma dispose_drops_all_witness :
  let pool := calls [CallAdd "10.0.0.1:5060" conn1 30 0;
                     CallAdd "10.0.0.2:5060" conn2 30 1] NewConnectionPool in
  store (dispose pool) = ∅ /\
  (forall k, Get k (dispose pool) = None) /\
  dropped (dispose pool) = (dropped pool ++ map Cancel (allHandlers pool))%list /\
  List.length (allHandlers pool) = size (store pool).
Proof.
  apply (dispose_drops_all
           (calls [CallAdd "10.0.0.1:5060" conn1 30 0;
                   CallAdd "10.0.0.2:5060" conn2 30 1] NewConnectionPool)).
  intros k h Hk.
  exact (proj1 (proj1 (pool_inv_calls _ NewConnectionPool pool_inv_new) k h Hk)).
Defined.

End PoolExtra.

(* ===================================================================== *)
(** ** The client transaction: progress, deletion, what is sent          *)
(* ===================================================================== *)

Module TransactionExtra.
Import Transaction Examples TransactionProps.

Local Arguments CopyHeaders : simpl never.
Local Arguments AppendHeader : simpl never.
Local Arguments NewRequest : simpl never.
Local Arguments Message_CSeq : simpl never.
Local Arguments Message_Via : simpl never.
Local Arguments is_final : simpl never.
Local Arguments wrap64 : simpl never.
Local Arguments Z.mul : simpl never.
Local Arguments Z.gtb : simpl never.
Local Arguments is_ack : simpl never.

(** Every stimulus is handled: no error, no panic; the state does not go
    back, the table, the request and the destination stay, the deletion
    follows the state, and what is sent is the request again or an ACK. *)
Lemma deliver_step (s : stimulus) (tx : clientTx) (w : world) :
  exists tx' w',
    deliver s tx w = Ok (tx', w') /\
    (rank (fsm_state tx) <= rank (fsm_state tx'))%nat /\
    fsm_invite tx' = fsm_invite tx /\ origin tx' = origin tx /\ dest tx' = dest tx /\
    key tx' = key tx /\ reliable tx' = reliable tx /\
    (deleted_inv tx w -> deleted_inv tx' w') /\
    (timer_a tx = NilTimer -> timer_a tx' = NilTimer) /\
    exists new,
      sent w' = (sent w ++ new)%list /\
      Forall (send_ok (fsm_invite tx)
                (match timer_a tx with NilTimer => true | _ => false end)
                (origin tx) (dest tx)) new.
Proof.
  destruct tx as [k o d t lr le inv st tat ta tb tdt td rel].
  destruct w as [sr se ms es del].
  unfold deleted_inv.
  cbn [fsm_invite fsm_state origin dest key reliable timer_a deleted sent].
  pose proof (fun seqNo via res =>
    ack_builds_ack_request
      (mkClientTx k o d t (Some res) le inv st tat ta tb tdt td rel) seqNo via res)
    as Hack.
  cbn [origin] in Hack.
  destruct s as [[req|res]| | |].
  - eexists _, _. split; [reflexivity|]. cbn.
    repeat split; auto. exists []. rewrite app_nil_r. split; [reflexivity|constructor].
  - destruct (Message_CSeq (MsgRequest o)) as [[n m]|] eqn:Hcseq;
    destruct (Message_Via (MsgRequest o)) as [via|] eqn:Hvia;
    destruct sr as [|[e|] sr];
    unfold deliver, Receive;
    (destruct (IsProvisional res) eqn:Hp; [|destruct (IsSuccess res) eqn:Hs]);
    destruct inv, st; run_fsm_with Hcseq Hvia; rewrite ?Hack;
    (eexists _, _; (split; [reflexivity|]); cbn;
     unfold delete_, transportError, timeoutError, send_msgs, send_errs; cbn;
     repeat split; try lia; try congruence; try (intros ->; reflexivity);
     first [ exists []; rewrite app_nil_r; split; [reflexivity|constructor]
           | eexists [_]; split; [reflexivity|];
             constructor; [|constructor];
             split; [reflexivity|right; split; reflexivity] ]).
  - destruct sr as [|[e|] sr]; unfold deliver; cbn; destruct ta;
      try (eexists _, _; split; [reflexivity|]; cbn; repeat split; auto;
           exists []; rewrite app_nil_r; split; [reflexivity|constructor]);
      destruct inv, st; run_fsm;
      (eexists _, _; (split; [reflexivity|]); cbn;
       unfold delete_, transportError, timeoutError, send_msgs, send_errs; cbn;
       repeat split; try lia; try congruence; try discriminate;
       first [ exists []; rewrite app_nil_r; split; [reflexivity|constructor]
             | eexists [_]; split; [reflexivity|];
               constructor; [|constructor];
               split; [reflexivity|left; split; reflexivity] ]).
  - unfold deliver; cbn; destruct tb;
      try (eexists _, _; split; [reflexivity|]; cbn; repeat split; auto;
           exists []; rewrite app_nil_r; split; [reflexivity|constructor]);
      destruct inv, st; run_fsm;
      (eexists _, _; (split; [reflexivity|]); cbn;
       unfold delete_, transportError, timeoutError, send_msgs, send_errs; cbn;
       repeat split; try lia; try congruence;
       exists []; rewrite app_nil_r; split; [reflexivity|constructor]).
  - unfold deliver; cbn; destruct td;
      try (eexists _, _; split; [reflexivity|]; cbn; repeat split; auto;
           exists []; rewrite app_nil_r; split; [reflexivity|constructor]);
      destruct inv, st; run_fsm;
      (eexists _, _; (split; [reflexivity|]); cbn;
       unfold delete_, transportError, timeoutError, send_msgs, send_errs; cbn;
       repeat split; try lia; try congruence;
       exists []; rewrite app_nil_r; split; [reflexivity|constructor]).
Qed.



Lemma run_step (ss : list stimulus) :
  forall tx w,
  exists tx' w',
    run ss tx w = Ok (tx', w') /\
    (rank (fsm_state tx) <= rank (fsm_state tx'))%nat /\
    fsm_invite tx' = fsm_invite tx /\ origin tx' = origin tx /\ dest tx' = dest tx /\
    key tx' = key tx /\ reliable tx' = reliable tx /\
    (deleted_inv tx w -> deleted_inv tx' w') /\
    (timer_a tx = NilTimer ->
     exists new, sent w' = (sent w ++ new)%list /\
                 Forall (send_ok (fsm_invite tx) true (origin tx) (dest tx)) new) /\
    exists new, sent w' = (sent w ++ new)%list /\
                Forall (send_ok (fsm_invite tx) false (origin tx) (dest tx)) new.
Proof.
  induction ss as [|s ss IH]; intros tx w.
  - exists tx, w. split; [reflexivity|]. repeat split; auto.
    + intros _. exists []. rewrite app_nil_r. split; [reflexivity|constructor].
    + exists []. rewrite app_nil_r. split; [reflexivity|constructor].
  - destruct (deliver_step s tx w)
      as (tx1 & w1 & Hd & Hr & Hi & Ho & Hde & Hk & Hrel & Hdel & Hnil & new1 & Hs1 & Hf1).
    destruct (IH tx1 w1)
      as (tx2 & w2 & Hrun & Hr2 & Hi2 & Ho2 & Hde2 & Hk2 & Hrel2 & Hdel2 & Hnil2
          & new2 & Hs2 & Hf2).
    exists tx2, w2. split; [cbn [run]; rewrite Hd; exact Hrun|].
    rewrite Hi, Ho, Hde in *.
    split; [lia|]. split; [congruence|]. split; [congruence|]. split; [congruence|].
    split; [congruence|]. split; [congruence|]. split; [auto|].
    split.
    + intros Ha. destruct (Hnil2 (Hnil Ha)) as (new2' & Hs2' & Hf2').
      exists (new1 ++ new2')%list. split; [rewrite Hs2', Hs1, app_assoc; reflexivity|].
      apply Forall_app. split; [|exact Hf2']. rewrite Ha in Hf1. exact Hf1.
    + exists (new1 ++ new2)%list. split; [rewrite Hs2, Hs1, app_assoc; reflexivity|].
      apply Forall_app. split; [|exact Hf2].
      eapply Forall_impl; [exact Hf1|].
      intros e [H1 H2]. split; [exact H1|].
      destruct H2 as [[H2 _]|H2]; [left; split; [exact H2|reflexivity]|right; exact H2].
Qed.

Lemma NewClientTx_fields origin_ dest_ tpl_ tx :
  NewClientTx origin_ dest_ tpl_ = Ok tx ->
  fsm_state tx = client_state_calling /\
  fsm_invite tx = IsInvite origin_ /\
  origin tx = origin_ /\ dest tx = dest_ /\
  (reliable tx = true -> timer_a tx = NilTimer).
Proof.
  unfold NewClientTx. destruct (makeClientTxKey origin_) as [k| |]; try discriminate.
  cbn. destruct (match Message_ViaHop (MsgRequest origin_) with
                 | Some viaHop => IsReliable tpl_ (Transport viaHop)
                 | None => false
                 end); cbn; intros [= <-]; cbn; repeat split; auto.
  discriminate.
Qed.



(** X26: a transaction asks for its deletion exactly once, when it
    becomes terminated: after every sequence of stimuli on a transaction made
    by [NewClientTx], [tx.delete()] has been called once if the transaction
    is terminated and not at all otherwise. *)
Theorem client_tx_deleted_once (origin_ : Request) (dest_ : string) (tpl_ : Layer)
    (script : list (option error)) (ss : list stimulus) (tx : clientTx) :
  NewClientTx origin_ dest_ tpl_ = Ok tx ->
  exists tx' w',
    run ss tx (newWorld script) = Ok (tx', w') /\
    deleted w' = match fsm_state tx' with
                 | client_state_terminated => 1%nat
                 | _ => 0%nat
                 end.
Proof.
  intros Hnew. destruct (NewClientTx_fields _ _ _ _ Hnew) as (Hst & _).
  destruct (run_step ss tx (newWorld script))
    as (tx' & w' & Hrun & _ & _ & _ & _ & _ & _ & Hdel & _).
  exists tx', w'. split; [exact Hrun|]. apply Hdel.
  unfold deleted_inv. rewrite Hst. reflexivity.
Qed.

Lemma client_tx_deleted_once_witness :
  exists tx' w',
    run [Received (MsgResponse not_found); TimerD; TimerB; Received (MsgResponse not_found)]
        invite_tx (newWorld [Some io_error]) = Ok (tx', w') /\
    deleted w' = match fsm_state tx' with
                 | client_state_terminated => 1%nat
                 | _ => 0%nat
                 end.
Proof.
  apply (client_tx_deleted_once invite "example.com:5060" udp_layer).
  vm_compute. reflexivity.
Defined.

(** X27: what a transaction made by [NewClientTx] hands to the transport,
    whatever it receives and whichever timers fire: only its original
    request, again, and ACKs, always to its destination.  A transaction that
    is not an INVITE one never sends an ACK, and a transaction on a reliable
    transport never sends its request again. *)
Theorem client_tx_sends (origin_ : Request) (dest_ : string) (tpl_ : Layer)
    (script : list (option error)) (ss : list stimulus) (tx : clientTx) :
  NewClientTx origin_ dest_ tpl_ = Ok tx ->
  exists tx' w',
    run ss tx (newWorld script) = Ok (tx', w') /\
    Forall (fun e => fst (fst e) = dest_ /\
                     (snd (fst e) = MsgRequest origin_ \/ is_ack (snd (fst e)) = true))
           (sent w') /\
    (IsInvite origin_ = false ->
     Forall (fun e => snd (fst e) = MsgRequest origin_) (sent w')) /\
    (reliable tx = true ->
     Forall (fun e => is_ack (snd (fst e)) = true) (sent w')).
Proof.
  intros Hnew. destruct (NewClientTx_fields _ _ _ _ Hnew) as (_ & Hinv & Ho & Hd & Hrel).
  destruct (run_step ss tx (newWorld script))
    as (tx' & w' & Hrun & _ & _ & _ & _ & _ & _ & _ & Hnil & new & Hs & Hf).
  exists tx', w'. split; [exact Hrun|].
  cbn [newWorld sent app] in Hs, Hnil. rewrite Hinv, Ho, Hd in *.
  split; [|split].
  - rewrite Hs. eapply Forall_impl; [exact Hf|].
    intros e [H1 [[H2 _]|[H2 _]]]; (split; [exact H1|]); [left|right]; exact H2.
  - intros Hni. rewrite Hs. eapply Forall_impl; [exact Hf|].
    intros e [_ [[H2 _]|[_ H2]]]; [exact H2|congruence].
  - intros Hr. destruct (Hnil (Hrel Hr)) as (new' & Hs' & Hf').
    rewrite Hs'. eapply Forall_impl; [exact Hf'|].
    intros e [_ [[_ H2]|[H2 _]]]; [discriminate H2|exact H2].
Qed.

Lemma client_tx_sends_witness :
  exists tx' w',
    run [TimerA; Received (MsgResponse not_found); Received (MsgResponse not_found)]
        invite_tx (newWorld []) = Ok (tx', w') /\
    Forall (fun e => fst (fst e) = "example.com:5060" /\
                     (snd (fst e) = MsgRequest invite \/ is_ack (snd (fst e)) = true))
           (sent w') /\
    (IsInvite invite = false ->
     Forall (fun e => snd (fst e) = MsgRequest invite) (sent w')) /\
    (reliable invite_tx = true ->
     Forall (fun e => is_ack (snd (fst e)) = true) (sent w')).
Proof.
  apply (client_tx_sends invite "example.com:5060" udp_layer).
  vm_compute. reflexivity.
Defined.

(** X28: an INVITE transaction in the completed state absorbs what it
    receives: no response is passed up again.  A provisional or 2xx response
    changes nothing; every further 3xx+ response (a retransmission of the
    final response) is answered with an ACK built from the original request
    and that response, and the transaction stays completed unless the
    transport refuses the ACK, in which case it reports a transport error and
    terminates. *)
Theorem invite_completed_absorbs (tx : clientTx) (w : world) (res : Response)
    (seqNo : Z) (m : string) (via : list ViaHop) :
  fsm_invite tx = true ->
  fsm_state tx = client_state_completed ->
  Message_CSeq (MsgRequest (origin tx)) = Some (seqNo, m) ->
  Message_Via (MsgRequest (origin tx)) = Some via ->
  let r := match sendResults w with r :: _ => r | [] => None end in
  exists tx' w',
    Receive (MsgResponse res) tx w = Ok (tx', w', None) /\
    msgs w' = msgs w /\
    if IsProvisional res || IsSuccess res then
      sent w' = sent w /\ errs w' = errs w /\ fsm_state tx' = client_state_completed
    else
      sent w' = (sent w ++ [(dest tx, ack_request tx seqNo via res, r)])%list /\
      match r with
      | None => errs w' = errs w /\ fsm_state tx' = client_state_completed
      | Some _ =>
          errs w' = (errs w ++ [TxTransportError (lastErr tx)])%list /\
          fsm_state tx' = client_state_terminated
      end.
Proof.
  intros Hinv Hst Hcseq Hvia.
  pose proof (ack_builds_ack_request tx seqNo via res) as Hack.
  destruct tx as [k o d t lr le inv st tat ta tb tdt td rel].
  destruct w as [sr se ms es del].
  cbn [fsm_invite fsm_state origin sendResults dest lastErr msgs sent errs deleted] in *.
  subst inv st. unfold Receive.
  destruct (IsProvisional res) eqn:Hp; [|destruct (IsSuccess res) eqn:Hs];
    destruct sr as [|[e|] sr];
    run_fsm_with Hcseq Hvia; rewrite ?Hack;
    eexists _, _; (split; [reflexivity|]); cbn; repeat split; reflexivity.
Qed.

Lemma invite_completed_absorbs_witness :
  let tx := mkClientTx ("z9hG4bK-1", "INVITE") invite "example.com:5060" udp_layer
              (Some not_found) None true client_state_completed
              Timer_A Fired (Armed Timer_B) Timer_D (Armed Timer_D) false in
  exists tx' w',
    Receive (MsgResponse not_found) tx (newWorld []) = Ok (tx', w', None) /\
    msgs w' = [] /\
    sent w' = [("example.com:5060", ack_request tx 1 top_via not_found, None)] /\
    errs w' = [] /\ fsm_state tx' = client_state_completed.
Proof.
  cbv zeta.
  destruct (invite_completed_absorbs
              (mkClientTx ("z9hG4bK-1", "INVITE") invite "example.com:5060" udp_layer
                 (Some not_found) None true client_state_completed
                 Timer_A Fired (Armed Timer_B) Timer_D (Armed Timer_D) false)
              (newWorld []) not_found 1 "INVITE" top_via)
    as (tx' & w' & H1 & H2 & H3 & H4 & H5); try reflexivity.
  exists tx', w'. repeat split; assumption.
Defined.

(** X29: timer B.  While the transaction is calling, and on a non-INVITE
    transaction also while it is proceeding, the firing of timer B reports a
    timeout error to the consumer, terminates the transaction and asks for
    its deletion, and nothing is sent.  An INVITE transaction that is
    proceeding ignores timer B, and timer A as well: once it has received a
    provisional response it neither times out nor retransmits. *)
Theorem timer_b_timeout :
  (forall tx w p,
      timer_b tx = Armed p ->
      fsm_state tx = client_state_calling \/
      (fsm_invite tx = false /\ fsm_state tx = client_state_proceeding) ->
      exists tx',
        deliver TimerB tx w
        = Ok (tx', mkWorld (sendResults w) (sent w) (msgs w)
                           (errs w ++ [TxTimeoutError]) (S (deleted w))) /\
        fsm_state tx' = client_state_terminated) /\
  (forall tx w,
      fsm_invite tx = true -> fsm_state tx = client_state_proceeding ->
      (exists tx', deliver TimerB tx w = Ok (tx', w) /\
                   fsm_state tx' = client_state_proceeding) /\
      (exists tx', deliver TimerA tx w = Ok (tx', w) /\
                   fsm_state tx' = client_state_proceeding)).
Proof.
  split.
  - intros [k o d t lr le inv st tat ta tb tdt td rel] [sr se ms es del] p.
    cbn [timer_b fsm_state fsm_invite sendResults sent msgs errs deleted].
    intros -> [-> | [-> ->]]; [destruct inv|]; eexists; split; reflexivity.
  - intros [k o d t lr le inv st tat ta tb tdt td rel] [sr se ms es del].
    cbn [timer_b fsm_state fsm_invite]. intros -> ->. split.
    + destruct tb; eexists; split; reflexivity.
    + destruct ta; eexists; split; reflexivity.
Qed.

Lemma timer_b_timeout_witness :
  (exists tx',
      deliver TimerB options_tx (newWorld [])
      = Ok (tx', mkWorld [] [] [] ([] ++ [TxTimeoutError]) 1) /\
      fsm_state tx' = client_state_terminated) /\
  (let tx := set_fsm_state client_state_proceeding invite_tx in
   (exists tx', deliver TimerB tx (newWorld []) = Ok (tx', newWorld []) /\
                fsm_state tx' = client_state_proceeding) /\
   (exists tx', deliver TimerA tx (newWorld []) = Ok (tx', newWorld []) /\
                fsm_state tx' = client_state_proceeding)).
Proof.
  split.
  - apply (proj1 timer_b_timeout options_tx (newWorld []) Timer_B);
      [reflexivity|left; reflexivity].
  - apply (proj2 timer_b_timeout (set_fsm_state client_state_proceeding invite_tx)
             (newWorld [])); reflexivity.
Defined.

End TransactionExtra.
